(** * AIMC image classification notebooks: a shallow embedding

    The notebooks [STFT-CNN.ipynb] and [LDC-Unet.ipynb] assemble PyTorch,
    NumPy, OpenCV and scikit-learn primitives into data loading,
    pre-processing, model definitions and a training loop.  This file embeds
    the notebook functions as Rocq functions and proves the properties the
    specification states about them.

    Conventions.
    - Python floats are represented by exact rationals [Q]; statements
      about them use [Qeq] ([==]).  Rounding is not modelled.
    - Python exceptions are explicit: fallible code returns [option] or a
      sum with an exception value.
    - A tensor that is only inspected for its shape is represented by its
      shape ([torch.Size], a [list nat]).
    - Library primitives (convolution output shapes, [confusion_matrix],
      [np.array], ...) follow the library documentation; each one is
      introduced next to the notebook code that calls it. *)

From Stdlib Require Import QArith Qabs Lia Lqa ZArith.
From stdpp Require Import base option list sorting strings.

Local Open Scope nat_scope.

(** ** Tensor shapes and the shape semantics of the layers used *)

Module Shape.

(** [torch.Size]: the list of dimension sizes. *)
Definition t := list nat.

(** Output extent of a sliding window of size [k], stride [s] and zero
    padding [p] over an extent [h]: [floor((h + 2p - k) / s) + 1].  The
    framework rejects a window larger than the padded input, and a zero
    stride. *)
Definition window (h k s p : nat) : option nat :=
  if (h + 2 * p <? k) || (s =? 0) || (k =? 0) then None
  else Some ((h + 2 * p - k) / s + 1).

(** [nn.Conv2d(in_channels, out_channels, kernel_size, stride, padding)]
    applied to a batched [N x C x H x W] input. *)
Record Conv2d := {
  in_channels : nat;
  out_channels : nat;
  kernel_size : nat * nat;
  stride : nat;
  padding : nat * nat
}.

Definition conv2d (l : Conv2d) (x : t) : option t :=
  match x with
  | [n; c; h; w] =>
      if c =? in_channels l then
        h' ← window h (fst (kernel_size l)) (stride l) (fst (padding l));
        w' ← window w (snd (kernel_size l)) (stride l) (snd (padding l));
        Some [n; out_channels l; h'; w']
      else None
  | _ => None
  end.

(** [nn.AvgPool2d(kernel_size, stride)] and [nn.MaxPool2d(kernel_size)]
    (whose stride defaults to the kernel size) have the same shape rule. *)
Definition pool2d (k s : nat) (x : t) : option t :=
  match x with
  | [n; c; h; w] =>
      h' ← window h k s 0;
      w' ← window w k s 0;
      Some [n; c; h'; w']
  | _ => None
  end.

(** [nn.ReLU] keeps the shape. *)
Definition relu (x : t) : option t := Some x.

(** [nn.Flatten()] keeps dimension 0 and multiplies the others. *)
Definition flatten (x : t) : option t :=
  match x with
  | n :: rest => Some [n; foldr Nat.mul 1 rest]
  | [] => None
  end.

(** [nn.Linear(in_features, out_features)] on a 2-D input. *)
Definition linear (in_features out_features : nat) (x : t) : option t :=
  match x with
  | [n; f] => if f =? in_features then Some [n; out_features] else None
  | _ => None
  end.

(** [nn.Upsample(scale_factor=(a, b))]: each spatial extent is multiplied
    by its scale factor. *)
Definition upsample (a b : nat) (x : t) : option t :=
  match x with
  | [n; c; h; w] => Some [n; c; h * a; w * b]
  | _ => None
  end.

(** Broadcasting of two shapes, aligned at the trailing dimension. *)
Fixpoint broadcast_rev (a b : list nat) : option (list nat) :=
  match a, b with
  | [], _ => Some b
  | _, [] => Some a
  | x :: a', y :: b' =>
      r ← broadcast_rev a' b';
      if x =? y then Some (x :: r)
      else if x =? 1 then Some (y :: r)
      else if y =? 1 then Some (x :: r)
      else None
  end.

Definition broadcast (a b : t) : option t :=
  r ← broadcast_rev (rev a) (rev b); Some (rev r).

(** Elementwise [x + y]. *)
Definition add (x y : t) : option t := broadcast x y.

(** [torch.cat(xs, dim=1)]: all dimensions but the second agree, the
    second dimensions add up. *)
Definition cat1_two (x y : t) : option t :=
  match x, y with
  | n :: c :: r, n' :: c' :: r' =>
      if decide (n = n' ∧ r = r') then Some (n :: (c + c') :: r) else None
  | _, _ => None
  end.

Fixpoint cat1 (xs : list t) : option t :=
  match xs with
  | [] => None
  | [x] => match x with _ :: _ :: _ => Some x | _ => None end
  | x :: rest => r ← cat1 rest; cat1_two x r
  end.

End Shape.

(** ** STFT-CNN: [MainModel] *)

Module STFT_CNN.
Import Shape.

Record MainModel := {
  conv1 : Conv2d;
  pool1 : nat * nat;
  conv2 : Conv2d;
  pool2 : nat * nat;
  fc : nat * nat
}.

(** [MainModel.__init__(num_classes)]. *)
Definition MainModel_init (num_classes : nat) : MainModel := {|
  conv1 := {| in_channels := 3; out_channels := 6; kernel_size := (5, 5);
              stride := 1; padding := (0, 0) |};
  pool1 := (2, 2);
  conv2 := {| in_channels := 6; out_channels := 12; kernel_size := (5, 5);
              stride := 1; padding := (0, 0) |};
  pool2 := (2, 2);
  fc := (588, num_classes)
|}.

(** The convolutional part of [MainModel.forward], up to [pool2]. *)
Definition forward_features (m : MainModel) (x : t) : option t :=
  x ← conv2d (conv1 m) x;
  x ← relu x;
  x ← pool2d (fst (pool1 m)) (snd (pool1 m)) x;
  x ← conv2d (conv2 m) x;
  x ← relu x;
  pool2d (fst (pool2 m)) (snd (pool2 m)) x.

(** [MainModel.forward]. *)
Definition forward (m : MainModel) (x : t) : option t :=
  x ← forward_features m x;
  x ← flatten x;
  linear (fst (fc m)) (snd (fc m)) x.

End STFT_CNN.

(** ** LDC-Unet: [encoder], [decoder], [decoder_4], [LDC_Unet] *)

Module LDC.
Import Shape.

Definition conv3x3 (cin cout s : nat) : Conv2d :=
  {| in_channels := cin; out_channels := cout; kernel_size := (3, 3);
     stride := s; padding := (1, 1) |}.

Record encoder := {
  e_conv1 : Conv2d; e_conv2 : Conv2d; e_conv3 : Conv2d
}.

Definition encoder_init (in_ch out_ch : nat) : encoder := {|
  e_conv1 := conv3x3 in_ch out_ch 2;
  e_conv2 := conv3x3 in_ch out_ch 2;
  e_conv3 := conv3x3 out_ch out_ch 1
|}.

Definition encoder_forward (e : encoder) (x : t) : option t :=
  x1 ← conv2d (e_conv1 e) x;
  x1 ← relu x1;
  x2 ← conv2d (e_conv2 e) x;
  x2 ← relu x2;
  x2 ← conv2d (e_conv3 e) x2;
  add x1 x2.

Record decoder := {
  d_conv1 : Conv2d; d_conv2 : Conv2d; d_conv3 : Conv2d; d_conv4 : Conv2d
}.

Definition decoder_init (c1 c2 c3 c4 : nat) : decoder := {|
  d_conv1 := conv3x3 c1 64 1;
  d_conv2 := conv3x3 c2 64 1;
  d_conv3 := conv3x3 c3 64 1;
  d_conv4 := conv3x3 c4 64 1
|}.

(** The four branches of [decoder.forward], before concatenation. *)
Definition decoder_branches (d : decoder) (x1 x2 x3 x4 : t)
  : option (list t) :=
  x1 ← pool2d 2 2 x1;
  x1 ← conv2d (d_conv1 d) x1;
  x2 ← conv2d (d_conv2 d) x2;
  x3 ← upsample 2 2 x3;
  x3 ← conv2d (d_conv3 d) x3;
  x4 ← upsample 2 2 x4;
  x4 ← conv2d (d_conv4 d) x4;
  Some [x1; x2; x3; x4].

Definition decoder_forward (d : decoder) (x1 x2 x3 x4 : t) : option t :=
  bs ← decoder_branches d x1 x2 x3 x4;
  cat1 bs.

Record decoder_4 := {
  d4_conv1 : Conv2d; d4_conv2 : Conv2d; d4_conv3 : Conv2d
}.

Definition decoder_4_init (c1 c2 c3 : nat) : decoder_4 := {|
  d4_conv1 := conv3x3 c1 64 1;
  d4_conv2 := conv3x3 c2 64 1;
  d4_conv3 := conv3x3 c3 64 1
|}.

Definition decoder_4_branches (d : decoder_4) (x1 x2 x3 : t)
  : option (list t) :=
  x1 ← pool2d 2 2 x1;
  x1 ← conv2d (d4_conv1 d) x1;
  x2 ← conv2d (d4_conv2 d) x2;
  x3 ← upsample 2 2 x3;
  x3 ← conv2d (d4_conv3 d) x3;
  Some [x1; x2; x3].

Definition decoder_4_forward (d : decoder_4) (x1 x2 x3 : t) : option t :=
  bs ← decoder_4_branches d x1 x2 x3;
  cat1 bs.

Record LDC_Unet := {
  e1 : encoder; e2 : encoder; e3 : encoder; e4 : encoder; e5 : encoder;
  d4 : decoder_4; d3 : decoder; d2 : decoder; d1 : decoder;
  u_conv1 : Conv2d; u_conv2 : Conv2d
}.

Definition LDC_Unet_init : LDC_Unet := {|
  e1 := encoder_init 3 64;
  e2 := encoder_init 64 128;
  e3 := encoder_init 128 256;
  e4 := encoder_init 256 256;
  e5 := encoder_init 256 512;
  d4 := decoder_4_init 256 256 512;
  d3 := decoder_init 128 256 256 192;
  d2 := decoder_init 64 128 256 256;
  d1 := decoder_init 3 64 128 256;
  u_conv1 := conv3x3 256 64 1;
  u_conv2 := conv3x3 64 3 1
|}.

(** Every intermediate tensor of [LDC_Unet.forward]. *)
Record activations := {
  x_e1 : t; x_e2 : t; x_e3 : t; x_e4 : t; x_e5 : t;
  x_d4 : t; x_d3 : t; x_d2 : t; x_d1 : t;
  x_out : t
}.

Definition LDC_Unet_trace (m : LDC_Unet) (x : t) : option activations :=
  let x0 := x in
  a1 ← encoder_forward (e1 m) x0;
  a2 ← encoder_forward (e2 m) a1;
  a3 ← encoder_forward (e3 m) a2;
  a4 ← encoder_forward (e4 m) a3;
  a5 ← encoder_forward (e5 m) a4;
  b4 ← decoder_4_forward (d4 m) a3 a4 a5;
  b3 ← decoder_forward (d3 m) a2 a3 a4 b4;
  b2 ← decoder_forward (d2 m) a1 a2 a3 b3;
  b1 ← decoder_forward (d1 m) x0 a1 a2 b2;
  y ← upsample 2 2 b1;
  y ← conv2d (u_conv1 m) y;
  y ← conv2d (u_conv2 m) y;
  Some {| x_e1 := a1; x_e2 := a2; x_e3 := a3; x_e4 := a4; x_e5 := a5;
          x_d4 := b4; x_d3 := b3; x_d2 := b2; x_d1 := b1; x_out := y |}.

(** [LDC_Unet.forward]. *)
Definition LDC_Unet_forward (m : LDC_Unet) (x : t) : option t :=
  x_out <$> LDC_Unet_trace m x.

End LDC.

(** ** Python exceptions raised by the embedded code *)

Inductive exn :=
  | TypeError (msg : string)
  | ValueError (msg : string)
  | AssertionError (msg : string)
  | IndexError (msg : string)
  | RuntimeError (msg : string)
  | ZeroDivisionError.

(** Sequencing of code that may raise. *)
#[global] Instance exn_ret : MRet (sum exn) := fun A x => inr x.
#[global] Instance exn_bind : MBind (sum exn) := fun A B f m =>
  match m with
  | inl e => inl e
  | inr x => f x
  end.

(** ** Floats *)

(** [x < y] on floats. *)
Definition Qltb (x y : Q) : bool := negb (Qle_bool y x).

(** Sum and arithmetic mean of a sequence of floats. *)
Definition Qsum (l : list Q) : Q := foldr Qplus 0%Q l.

Definition Qmean (l : list Q) : Q :=
  (Qsum l / inject_Z (Z.of_nat (length l)))%Q.

(** A float that may be [float("inf")]. *)
Inductive efloat :=
  | Fin (q : Q)
  | PosInf.

(** ** [train_model] (the three notebooks) *)

Module Train.

(** The three notebooks that define [train_model]: STFT-CNN, LDC-Unet and
    the CWD-TFA notebook stored after it in [LDC-Unet.ipynb].  Their loops
    differ in the call of the model and the criterion (abstracted by the
    batch losses below), in gradient clipping (no effect on the control
    flow) and in the checkpoint written by the LDC-Unet one. *)
Inductive notebook := STFT_CNN | LDC_Unet | CWD_TFA.

(** What [train_model] leaves behind: the list it returns and the effects
    it had on the scheduler and on the file system. *)
Record state := {
  loss_history : list Q;
  best_loss : efloat;
  patience_counter : Z;
  scheduler_steps : nat;   (* calls of [scheduler.step()] *)
  checkpoints : list nat   (* epochs after which "model_latest.pth" was written *)
}.

Definition initial : state := {|
  loss_history := [];
  best_loss := PosInf;
  patience_counter := 0%Z;
  scheduler_steps := 0;
  checkpoints := []
|}.

Inductive outcome :=
  | Continue (s : state)
  | Break (s : state)
  | Raise (e : exn).

(** [avg_loss < best_loss - min_delta] *)
Definition improved (avg_loss : Q) (best : efloat) (min_delta : Q) : bool :=
  match best with
  | PosInf => true
  | Fin b => Qltb avg_loss (b - min_delta)
  end.

(** [if epoch % 5:] in the LDC-Unet notebook; the other two notebooks
    write no checkpoint inside the loop. *)
Definition saves_checkpoint (nb : notebook) (epoch : nat) : bool :=
  match nb with
  | LDC_Unet => negb (epoch mod 5 =? 0)
  | STFT_CNN | CWD_TFA => false
  end.

Section Loop.
(** The notebook whose [train_model] is run. *)
Variable nb : notebook.
(** [len(train_loader)], the number of batches of an epoch. *)
Variable n_batches : nat.
(** [loss.item()] of batch [b] of epoch [e]: what the forward pass,
    the criterion and the optimizer produce. *)
Variable batch_loss : nat -> nat -> Q.
(** [scheduler] is truthy. *)
Variable scheduler : bool.
Variable patience : Z.
Variable min_delta : Q.

(** The inner loop: [total_loss = 0.0; for ...: total_loss += loss.item()]. *)
Definition total_loss (epoch : nat) : Q :=
  fold_left (fun acc b => acc + batch_loss epoch b)%Q (seq 0 n_batches) 0%Q.

(** [total_loss / len(train_loader)] *)
Definition avg_loss (epoch : nat) : Q :=
  (total_loss epoch / inject_Z (Z.of_nat n_batches))%Q.

(** One iteration of [for epoch in range(epochs)]. *)
Definition epoch_body (epoch : nat) (s : state) : outcome :=
  if n_batches =? 0 then Raise ZeroDivisionError
  else
    let avg := avg_loss epoch in
    let history := loss_history s ++ [avg] in
    let saved :=
      if saves_checkpoint nb epoch then checkpoints s ++ [epoch]
      else checkpoints s in
    let steps :=
      if scheduler then S (scheduler_steps s) else scheduler_steps s in
    if improved avg (best_loss s) min_delta then
      Continue {| loss_history := history; best_loss := Fin avg;
                  patience_counter := 0%Z;
                  scheduler_steps := steps; checkpoints := saved |}
    else
      let counter := (patience_counter s + 1)%Z in
      let s' := {| loss_history := history; best_loss := best_loss s;
                   patience_counter := counter;
                   scheduler_steps := steps; checkpoints := saved |} in
      if (patience <=? counter)%Z then Break s' else Continue s'.

(** The [for] loop over the epochs still to run. *)
Fixpoint run_epochs (epochs : list nat) (s : state) : exn + state :=
  match epochs with
  | [] => inr s
  | epoch :: rest =>
      match epoch_body epoch s with
      | Continue s' => run_epochs rest s'
      | Break s' => inr s'
      | Raise e => inl e
      end
  end.

(** [train_model(..., epochs, patience, min_delta)]; the Python function
    returns the [loss_history] of the final state. *)
Definition train_model (epochs : nat) : exn + state :=
  run_epochs (seq 0 epochs) initial.

(** *** The loop, epoch by epoch, as a function of the losses *)

(** [best_loss] on entry to epoch [e] when no [break] happened before. *)
Fixpoint best_before (e : nat) : efloat :=
  match e with
  | 0 => PosInf
  | S e' =>
      if improved (avg_loss e') (best_before e') min_delta
      then Fin (avg_loss e') else best_before e'
  end.

(** Epoch [e]'s average is smaller than the best so far by more than
    [min_delta]. *)
Definition improves (e : nat) : bool :=
  improved (avg_loss e) (best_before e) min_delta.

(** [patience_counter] on entry to epoch [e]. *)
Fixpoint stale_count (e : nat) : Z :=
  match e with
  | 0 => 0%Z
  | S e' => if improves e' then 0%Z else (stale_count e' + 1)%Z
  end.

(** The early-stopping test fires at the end of epoch [e]. *)
Definition triggers (e : nat) : bool :=
  negb (improves e) && (patience <=? stale_count (S e))%Z.

(** The [p] consecutive epochs that end with epoch [e] all failed to
    improve. *)
Definition stale_run (e p : nat) : Prop :=
  p <= S e ∧ ∀ i, S e - p <= i -> i <= e -> improves i = false.

(** Number of epochs run out of [k] requested ones starting at [e]. *)
Fixpoint stop_epoch (e k : nat) : nat :=
  match k with
  | 0 => e
  | S k' => if triggers e then S e else stop_epoch (S e) k'
  end.

(** The state after [e] epochs without a [break] before the last one. *)
Definition state_at (e : nat) : state := {|
  loss_history := map avg_loss (seq 0 e);
  best_loss := best_before e;
  patience_counter := stale_count e;
  scheduler_steps := if scheduler then e else 0;
  checkpoints := filter (fun i => saves_checkpoint nb i = true) (seq 0 e)
|}.

(** The early-stopping rule in the specification's words: training stops
    before the requested number of epochs exactly when [patience]
    consecutive epochs (among those run) failed to improve. *)
Definition early_stop_rule_as_stated (epochs : nat) : Prop :=
  ∀ s, train_model epochs = inr s ->
    (length (loss_history s) < epochs <->
     ∃ e, e < length (loss_history s) ∧ stale_run e (Z.to_nat patience)).
End Loop.

End Train.

(** ** [SSRLoss] (LDC-Unet notebook) *)

Module SSR.

(** A 2-D float tensor, row by row. *)
Abbreviation tensor2 := (list (list Q)).

Record SSRLoss := {
  lambda_reg : Q;
  num_classes : nat;
  feature_dim : nat;
  centers : tensor2
}.

(** The default of the keyword argument [lambda_reg=0.12]. *)
Definition default_lambda_reg : Q := 12 # 100.

(** [SSRLoss.__init__(num_classes, feature_dim, lambda_reg=0.12)];
    [randn] is the value drawn by [torch.randn(num_classes, feature_dim)]. *)
Definition SSRLoss_init (n_classes f_dim : nat) (lam : option Q)
    (randn : tensor2) : SSRLoss := {|
  lambda_reg := default default_lambda_reg lam;
  num_classes := n_classes;
  feature_dim := f_dim;
  centers := randn
|}.

(** [centers[labels]]: one row of [centers] per label; an index out of
    range raises. *)
Definition index_rows (c : tensor2) (labels : list nat) : option tensor2 :=
  mapM (fun l => c !! l) labels.

(** [a - b] on rows of one length. *)
Definition sub_rows (ab : list Q * list Q) : option (list Q) :=
  if length ab.1 =? length ab.2 then Some (zip_with Qminus ab.1 ab.2)
  else None.

(** [x - y] on tensors of one shape (shapes that differ raise, except for
    broadcasting, which is not modelled and counted as an error). *)
Definition tensor_sub (x y : tensor2) : option tensor2 :=
  if length x =? length y then mapM sub_rows (zip x y) else None.

(** [torch.abs] *)
Definition torch_abs (x : tensor2) : tensor2 := map (map Qabs) x.

(** [torch.mean] over all elements; [None] stands for the [nan] of an
    empty tensor. *)
Definition torch_mean (x : tensor2) : option Q :=
  let elements := concat x in
  if length elements =? 0 then None else Some (Qmean elements).

Section Forward.
(** [nn.CrossEntropyLoss()(logits, labels)]. *)
Variable cross_entropy : tensor2 -> list nat -> option Q.

(** [SSRLoss.forward(features, labels, logits)]. *)
Definition forward (self : SSRLoss) (features : tensor2) (labels : list nat)
    (logits : tensor2) : option Q :=
  loss_softmax ← cross_entropy logits labels;
  centers_batch ← index_rows (centers self) labels;
  diff ← tensor_sub features centers_batch;
  loss_reg ← torch_mean (torch_abs diff);
  Some (loss_softmax + lambda_reg self * loss_reg)%Q.
End Forward.

(** The regularisation term in the specification's words: the mean, over
    the samples [i] and the feature coordinates [j], of
    [|features[i][j] - centers[labels[i]][j]|]. *)
Definition mean_abs_center_distance (c features : tensor2)
    (labels : list nat) (dim : nat) : Q :=
  (Qsum (map (fun i =>
      Qsum (map (fun j =>
        Qabs (nth j (nth i features []) 0
              - nth j (nth (nth i labels 0%nat) c []) 0)%Q)
        (seq 0 dim)))
      (seq 0 (length features)))
   / inject_Z (Z.of_nat (length features * dim)))%Q.

End SSR.

(** ** NumPy arrays *)

Inductive np_dtype := np_float | np_int | np_bool | np_str | np_object.

#[global] Instance np_dtype_eq_dec : EqDecision np_dtype.
Proof. solve_decision. Defined.

(** An [np.ndarray]: element type, shape, and the numeric elements in row
    major order (the elements of a string or object array are not
    represented). *)
Record ndarray := {
  nd_dtype : np_dtype;
  nd_shape : list nat;
  nd_data : list Q
}.

(** [np.array(list_of_arrays)]: stacks arrays of one shape along a new
    first axis, kept here as the sequence along that axis; arrays of
    different shapes raise [ValueError] (NumPy 1.24 and later). *)
Definition np_array (xs : list ndarray) : option (list ndarray) :=
  match xs with
  | [] => Some []
  | x :: rest =>
      if forallb (fun r => bool_decide (nd_shape r = nd_shape x)) rest
      then Some xs else None
  end.

(** ** Python dictionaries (insertion ordered) *)

Module PyDict.
Section Dict.
Context {K V : Type} `{EqDecision K}.

(** [d[k] = v]: a present key keeps its position, a new key goes last. *)
Fixpoint set (k : K) (v : V) (d : list (K * V)) : list (K * V) :=
  match d with
  | [] => [(k, v)]
  | (k', v') :: d' =>
      if decide (k = k') then (k, v) :: d' else (k', v') :: set k v d'
  end.

(** [d[k]]; [None] is [KeyError]. *)
Fixpoint get (k : K) (d : list (K * V)) : option V :=
  match d with
  | [] => None
  | (k', v') :: d' => if decide (k = k') then Some v' else get k d'
  end.

(** [d.keys()] *)
Definition keys (d : list (K * V)) : list K := map fst d.

(** The invariant of a dictionary: no key occurs twice. *)
Definition wf (d : list (K * V)) : Prop := NoDup (keys d).
End Dict.
End PyDict.

Abbreviation dict K V := (list (K * V)).

(** ** [load_spectrogram_h5s] *)

Module Loader.

(** What [h5py.File(path, "r")] gives: the open raises, or the file lists
    its keys, each with the dataset read by [np.array(h5f[key])] ([None]:
    the read raises). *)
Inductive h5_file :=
  | Unreadable
  | Readable (items : list (string * option ndarray)).

(** [f.endswith(".h5")] *)
Definition ends_with_h5 (f : string) : bool :=
  (3 <=? String.length f)
  && bool_decide (String.substring (String.length f - 3) 3 f = ".h5"%string).

(** [file[:-3]] *)
Definition strip3 (f : string) : string :=
  String.substring 0 (String.length f - 3) f.

(** The lines printed. *)
Inductive message :=
  | MissingFolder (mod_type : string)
  | LoadingFrom (mod_type : string)
  | FailedToLoad (mod_type file : string).

Section Load.
(** [int(key)]; [None] is [ValueError]. *)
Variable py_int : string -> option Z.
(** [os.path.exists] and [os.listdir] of [root_folder/mod_type]: [None] when
    the folder does not exist. *)
Variable listdir : string -> option (list string).
(** The file [root_folder/mod_type/file]. *)
Variable h5 : string -> string -> h5_file.

(** The body of the [try]: the loop over [h5f.keys()], on the whole
    dictionary.  [None]: an exception left the loop; the dictionary is then
    as the loop left it. *)
Fixpoint read_items (mod_name : string)
    (items : list (string * option ndarray))
    (d : dict string (dict Z ndarray))
  : dict string (dict Z ndarray) * bool :=
  match items with
  | [] => (d, true)
  | (key, value) :: rest =>
      match py_int key, value, PyDict.get mod_name d with
      | Some idx, Some arr, Some inner =>
          read_items mod_name rest
            (PyDict.set mod_name (PyDict.set idx arr inner) d)
      | _, _, _ => (d, false)
      end
  end.

(** One iteration of [for file in files]. *)
Definition load_file (mod_type file : string)
    (st : dict string (dict Z ndarray) * list message)
  : dict string (dict Z ndarray) * list message :=
  let mod_name := strip3 file in
  let d := PyDict.set mod_name [] st.1 in
  match h5 mod_type file with
  | Unreadable => (d, st.2 ++ [FailedToLoad mod_type file])
  | Readable items =>
      let '(d', ok) := read_items mod_name items d in
      (d', if ok then st.2 else st.2 ++ [FailedToLoad mod_type file])
  end.

(** One iteration of [for mod_type in mod_types]. *)
Definition load_mod_type (mod_type : string)
    (st : dict string (dict Z ndarray) * list message)
  : dict string (dict Z ndarray) * list message :=
  match listdir mod_type with
  | None => (st.1, st.2 ++ [MissingFolder mod_type])
  | Some names =>
      let files := filter (fun f => ends_with_h5 f = true) names in
      foldl (fun st file => load_file mod_type file st)
        (st.1, st.2 ++ [LoadingFrom mod_type]) files
  end.

(** [load_spectrogram_h5s(root_folder, mod_types)]: the dictionary returned
    and the lines printed. *)
Definition load_spectrogram_h5s (mod_types : list string)
  : dict string (dict Z ndarray) * list message :=
  foldl (fun st mod_type => load_mod_type mod_type st) ([], []) mod_types.

(** *** Vocabulary for the properties *)

(** The [.h5] files in the order in which they are loaded. *)
Definition worklist (mod_types : list string) : list (string * string) :=
  mod_type ← mod_types;
  match listdir mod_type with
  | None => []
  | Some names =>
      map (fun f => (mod_type, f)) (filter (fun f => ends_with_h5 f = true) names)
  end.

(** The spectrograms of a file that are stored before the first failure,
    and whether the whole file was read. *)
Fixpoint stored_items (items : list (string * option ndarray))
    (inner : dict Z ndarray) : dict Z ndarray * bool :=
  match items with
  | [] => (inner, true)
  | (key, value) :: rest =>
      match py_int key, value with
      | Some idx, Some arr => stored_items rest (PyDict.set idx arr inner)
      | _, _ => (inner, false)
      end
  end.

Definition stored (f : h5_file) : dict Z ndarray * bool :=
  match f with
  | Unreadable => ([], false)
  | Readable items => stored_items items []
  end.
End Load.
End Loader.

(** ** [convert_spectrogram_dict_to_xy] *)

Module Convert.

(** [sorted(spectros.keys())] *)
Definition sorted_keys (spectros : dict Z ndarray) : list Z :=
  merge_sort Z.le (PyDict.keys spectros).

(** [for idx in sorted(...): X_list.append(spectros[idx]);
    y_list.append(label)]; [None] is [KeyError]. *)
Fixpoint append_label (label : string) (spectros : dict Z ndarray)
    (idxs : list Z) (acc : list ndarray * list string)
  : option (list ndarray * list string) :=
  match idxs with
  | [] => Some acc
  | idx :: rest =>
      x ← PyDict.get idx spectros;
      append_label label spectros rest (acc.1 ++ [x], acc.2 ++ [label])
  end.

(** [for label, spectros in data_dict.items(): ...] *)
Fixpoint items_loop (items : dict string (dict Z ndarray))
    (acc : list ndarray * list string)
  : option (list ndarray * list string) :=
  match items with
  | [] => Some acc
  | (label, spectros) :: rest =>
      acc' ← append_label label spectros (sorted_keys spectros) acc;
      items_loop rest acc'
  end.

(** [convert_spectrogram_dict_to_xy(data_dict)]: [X] along its first axis,
    and [y]. *)
Definition convert_spectrogram_dict_to_xy
    (data_dict : dict string (dict Z ndarray))
  : option (list ndarray * list string) :=
  lists ← items_loop data_dict ([], []);
  X ← np_array lists.1;
  Some (X, lists.2).

(** The (label, key) pairs of the dictionary in the order of the two loops. *)
Definition pairs (data_dict : dict string (dict Z ndarray))
  : list (string * Z) :=
  item ← data_dict; map (fun k => (item.1, k)) (sorted_keys item.2).

(** Total number of spectrograms in the dictionary. *)
Definition total (data_dict : dict string (dict Z ndarray)) : nat :=
  foldr Nat.add 0 (map (fun item => length item.2) data_dict).

End Convert.

(** ** [prepare_dataloader] *)

Module Prep.

Inductive torch_dtype := torch_float32 | torch_long.

(** A [torch.Tensor], as far as [prepare_dataloader] looks at it. *)
Record Tensor := {
  t_dtype : torch_dtype;
  t_shape : list nat;
  t_device : string
}.

(** The Python values that may be passed for [X] and [y]. *)
#[local] Unset Elimination Schemes.
Inductive pyobj :=
  | PyNdarray (a : ndarray)
  | PyTensor (t : Tensor)
  | PyList (xs : list pyobj)
  | PyInt (n : Z)
  | PyStr (s : string)
  | PyNone.
#[local] Set Elimination Schemes.

Record TensorDataset := { tensors : Tensor * Tensor }.

Record DataLoader := {
  dataset : TensorDataset;
  batch_size : Z;
  shuffle : bool;
  num_workers : Z;
  pin_memory : bool
}.

(** The PyTorch calls made by [prepare_dataloader]. *)
Record framework := {
  torch_tensor : ndarray -> torch_dtype -> exn + Tensor;
  tensor_to : Tensor -> string -> exn + Tensor;
  new_TensorDataset : Tensor -> Tensor -> exn + TensorDataset;
  new_DataLoader : TensorDataset -> Z -> bool -> Z -> bool -> exn + DataLoader
}.

Definition msg_X : string := "Input X must be a NumPy array or PyTorch tensor".
Definition msg_y : string := "Labels y must be a NumPy array or PyTorch tensor".

(** [isinstance(o, np.ndarray) or isinstance(o, torch.Tensor)] *)
Definition is_array_or_tensor (o : pyobj) : bool :=
  match o with
  | PyNdarray _ | PyTensor _ => true
  | _ => false
  end.

(** [X.unsqueeze(1)] *)
Definition unsqueeze1 (x : Tensor) : Tensor :=
  match t_shape x with
  | n :: rest =>
      {| t_dtype := t_dtype x; t_shape := n :: 1 :: rest;
         t_device := t_device x |}
  | [] => x
  end.

(** [X.permute(0, 3, 1, 2)] on a 4-D tensor. *)
Definition permute_0312 (x : Tensor) : Tensor :=
  match t_shape x with
  | [n; h; w; c] =>
      {| t_dtype := t_dtype x; t_shape := [n; c; h; w];
         t_device := t_device x |}
  | _ => x
  end.

(** [if X.ndim == 3: ... elif X.ndim == 4 and X.shape[-1] in [1, 3]: ...] *)
Definition ensure_nchw (x : Tensor) : Tensor :=
  match t_shape x with
  | [_; _; _] => unsqueeze1 x
  | [_; _; _; c] => if (c =? 1) || (c =? 3) then permute_0312 x else x
  | _ => x
  end.

Section Prepare.
Variable fw : framework.

(** The first [if]/[elif]: [X] becomes a float tensor. *)
Definition convert_X (X : pyobj) : exn + Tensor :=
  match X with
  | PyNdarray a => torch_tensor fw a torch_float32
  | PyTensor t => inr t
  | _ => inl (TypeError msg_X)
  end.

(** The second [if]/[elif]: [y] becomes a long tensor. *)
Definition convert_y (y : pyobj) : exn + Tensor :=
  match y with
  | PyNdarray a => torch_tensor fw a torch_long
  | PyTensor t => inr t
  | _ => inl (TypeError msg_y)
  end.

(** The rest of the function, on the two tensors. *)
Definition build_loader (X y : Tensor) (batch_size : Z) (shuffle : bool)
    (num_workers : Z) (device : string) : exn + DataLoader :=
  let X := ensure_nchw X in
  X ← tensor_to fw X device;
  y ← tensor_to fw y device;
  dataset ← new_TensorDataset fw X y;
  new_DataLoader fw dataset batch_size shuffle num_workers
    (bool_decide (device = "cuda"%string)).

(** [prepare_dataloader(X, y, batch_size, shuffle, num_workers, device)] *)
Definition prepare_dataloader (X y : pyobj) (batch_size : Z) (shuffle : bool)
    (num_workers : Z) (device : string) : exn + DataLoader :=
  X ← convert_X X;
  y ← convert_y y;
  build_loader X y batch_size shuffle num_workers device.

(** The exception [e] is the one some PyTorch call of the function raised. *)
Definition raised_by_framework (batch_size : Z) (shuffle : bool)
    (num_workers : Z) (device : string) (e : exn) : Prop :=
  (∃ a dt, torch_tensor fw a dt = inl e) ∨
  (∃ t, tensor_to fw t device = inl e) ∨
  (∃ a b, new_TensorDataset fw a b = inl e) ∨
  (∃ d pin, new_DataLoader fw d batch_size shuffle num_workers pin = inl e).

(** The specification's sentence: [TypeError] is raised exactly when [X] or
    [y] is neither an array nor a tensor, and a [DataLoader] is returned
    for all other arguments. *)
Definition type_check_as_stated : Prop :=
  ∀ X y batch_size shuffle num_workers device,
    let r := prepare_dataloader X y batch_size shuffle num_workers device in
    ((∃ msg, r = inl (TypeError msg)) <->
     is_array_or_tensor X = false ∨ is_array_or_tensor y = false) ∧
    (is_array_or_tensor X = true -> is_array_or_tensor y = true ->
     ∃ loader, r = inr loader).
End Prepare.

(** *** PyTorch, as documented *)

Definition msg_convert : string :=
  "can't convert np.ndarray of type numpy.str_ or numpy.object_".

(** [torch.tensor(a, dtype=dt)] refuses string and object arrays. *)
Definition Torch_tensor (a : ndarray) (dt : torch_dtype) : exn + Tensor :=
  match nd_dtype a with
  | np_str | np_object => inl (TypeError msg_convert)
  | _ => inr {| t_dtype := dt; t_shape := nd_shape a; t_device := "cpu" |}
  end.

(** [t.to(device)] for the device strings the notebooks use. *)
Definition Torch_to (t : Tensor) (device : string) : exn + Tensor :=
  if bool_decide (device = "cpu"%string ∨ device = "cuda"%string) then
    inr {| t_dtype := t_dtype t; t_shape := t_shape t; t_device := device |}
  else inl (RuntimeError "Expected one of cpu, cuda, ... device type").

(** [TensorDataset(X, y)] asserts that the first dimensions agree. *)
Definition Torch_TensorDataset (X y : Tensor) : exn + TensorDataset :=
  match t_shape X, t_shape y with
  | n :: _, m :: _ =>
      if n =? m then inr {| tensors := (X, y) |}
      else inl (AssertionError "Size mismatch between tensors")
  | _, _ => inl (IndexError "tensor has no dimensions")
  end.

(** [DataLoader(dataset, batch_size=..., ...)] checks its options. *)
Definition Torch_DataLoader (d : TensorDataset) (batch_size : Z)
    (shuffle : bool) (num_workers : Z) (pin : bool) : exn + DataLoader :=
  if (num_workers <? 0)%Z then
    inl (ValueError "num_workers option should be non-negative")
  else if (batch_size <=? 0)%Z then
    inl (ValueError "batch_size should be a positive integer value")
  else inr {| dataset := d; batch_size := batch_size; shuffle := shuffle;
              num_workers := num_workers; pin_memory := pin |}.

Definition Torch : framework := {|
  torch_tensor := Torch_tensor;
  tensor_to := Torch_to;
  new_TensorDataset := Torch_TensorDataset;
  new_DataLoader := Torch_DataLoader
|}.

End Prep.

(** ** [pre_processing] (STFT-CNN notebook) *)

Module PreProcess.

(** [np.mean] and [np.var] over all elements. *)
Definition np_mean (x : list Q) : Q := Qmean x.

Definition np_var (x : list Q) : Q :=
  let m := np_mean x in
  Qmean (map (fun v => (v - m) * (v - m))%Q x).

(** One pass of the loop body
    [mean = np.mean(p); std = np.var(p); p = (p - mean) / std].
    [None]: the division is by zero (the float result is [nan] or [inf]),
    the arithmetic is not defined. *)
Definition normalize_step (x : list Q) : option (list Q) :=
  let mean := np_mean x in
  let std := np_var x in
  if Qeq_bool std 0 then None
  else Some (map (fun v => (v - mean) / std)%Q x).

(** [for _ in range(n): ...] *)
Fixpoint normalize_loop (n : nat) (x : list Q) : option (list Q) :=
  match n with
  | 0 => Some x
  | S n' => x' ← normalize_step x; normalize_loop n' x'
  end.

(** [p[p < 0] = 0] *)
Definition clamp_negative (x : list Q) : list Q :=
  map (fun v => if Qltb v 0 then 0%Q else v) x.

Definition iterations : nat := 6.
Definition target_size : nat * nat := (40, 40).

Section Pre.
(** [cv2.resize(image, dsize, interpolation=cv2.INTER_AREA)]; [None] is
    [cv2.error]. *)
Variable cv2_resize : ndarray -> nat * nat -> option ndarray.

(** The body of [for image in images]. *)
Definition process_image (image : ndarray) : option ndarray :=
  resized_image ← cv2_resize image target_size;
  data ← normalize_loop iterations (nd_data resized_image);
  Some {| nd_dtype := np_float;
          nd_shape := nd_shape resized_image;
          nd_data := clamp_negative data |}.

(** [pre_processing(images)] *)
Definition pre_processing (images : list ndarray) : option (list ndarray) :=
  processed_images ← mapM process_image images;
  np_array processed_images.

(** What [pre_processing] does to one image: resize, six passes of the
    normalisation, negative values set to zero. *)
Definition processed_from (img o : ndarray) : Prop :=
  ∃ r data,
    cv2_resize img (40, 40) = Some r ∧
    normalize_loop 6 (nd_data r) = Some data ∧
    nd_shape o = nd_shape r ∧
    nd_data o = clamp_negative data.

(** What OpenCV documents about [cv2.resize]: the result has [dsize[1]] rows
    and [dsize[0]] columns. *)
Definition resize_contract : Prop :=
  ∀ img w h out, cv2_resize img (w, h) = Some out ->
    take 2 (nd_shape out) = [h; w].
End Pre.

(** The image has two pixels of different value. *)
Definition nonconstant (x : list Q) : Prop :=
  ∃ a b, a ∈ x ∧ b ∈ x ∧ ¬ a == b.

End PreProcess.

(** ** Normalised confusion matrix ([display_confusion_matrix],
       [evaluate_model]) *)

Module Confusion.

(** [sklearn.utils.multiclass.unique_labels]: the labels that occur in
    [y_true] or [y_pred], without repetition, in ascending order. *)
Definition unique_labels (y_true y_pred : list Z) : list Z :=
  merge_sort Z.le (remove_dups (y_true ++ y_pred)).

(** Number of samples whose true label is [t] and predicted label is [p]. *)
Definition count_pairs (t p : Z) (samples : list (Z * Z)) : nat :=
  length (filter (fun s => s = (t, p)) samples).

(** [sklearn.metrics.confusion_matrix(y_true, y_pred)]: entry [i, j] counts
    the samples of true label [labels[i]] predicted as [labels[j]];
    arguments of different lengths raise [ValueError]. *)
Definition confusion_matrix (y_true y_pred : list Z)
  : option (list (list nat)) :=
  if length y_true =? length y_pred then
    let labels := unique_labels y_true y_pred in
    let samples := zip y_true y_pred in
    Some (map (fun t => map (fun p => count_pairs t p samples) labels) labels)
  else None.

(** [cm.astype(np.float32)] *)
Definition astype_float (cm : list (list nat)) : list (list Q) :=
  map (map (fun n => inject_Z (Z.of_nat n))) cm.

(** [cm.sum(axis=1, keepdims=True)]: one sum per row. *)
Definition sum_axis1 (cm : list (list nat)) : list nat :=
  map (foldr Nat.add 0) cm.

(** [x / s] where [s] has one entry per row of [x] (broadcast along the
    row). *)
Definition div_rows (x : list (list Q)) (s : list Q) : list (list Q) :=
  zip_with (fun row si => map (fun v => v / si)%Q row) x s.

(** [x * k] *)
Definition mul_scalar (x : list (list Q)) (k : Q) : list (list Q) :=
  map (map (fun v => v * k)%Q) x.

(** [cm.astype(np.float32) / cm.sum(axis=1, keepdims=True) * 100] *)
Definition cm_normalized (cm : list (list nat)) : list (list Q) :=
  mul_scalar
    (div_rows (astype_float cm)
       (map (fun n => inject_Z (Z.of_nat n)) (sum_axis1 cm)))
    100.

End Confusion.

(** ** Sample inputs *)

Module Samples.

(** Average losses 3, 2, 2 over three epochs of one batch each. *)
Definition three_epochs (e b : nat) : Q := nth e [3; 2; 2]%Q 0%Q.

(** A loss that decreases by one per epoch. *)
Definition one_per_epoch (e b : nat) : Q := inject_Z (10 - Z.of_nat e).

(** Two classes in a 2-dimensional feature space. *)
Definition ssr : SSR.SSRLoss :=
  SSR.SSRLoss_init 2 2 None [[0; 0]; [1; 1]]%Q.
Definition features : SSR.tensor2 := [[1; 2]; [3; 4]]%Q.
Definition labels : list nat := [0; 1].
Definition logits : SSR.tensor2 := [[1; 0]; [0; 1]]%Q.
(** A criterion whose value on the sample is 1. *)
Definition unit_cross_entropy (_ : SSR.tensor2) (_ : list nat) : option Q :=
  Some 1%Q.

(** Two 4x4 RGB images, with integer and with string labels. *)
Definition float_images : ndarray :=
  {| nd_dtype := np_float; nd_shape := [2; 4; 4; 3];
     nd_data := replicate 96 0%Q |}.
Definition int_labels : ndarray :=
  {| nd_dtype := np_int; nd_shape := [2]; nd_data := [0; 1]%Q |}.
Definition string_labels : ndarray :=
  {| nd_dtype := np_str; nd_shape := [2]; nd_data := [] |}.

(** [int] on a string of decimal digits (the keys written by the data
    generator); any other string is refused. *)
Definition digit (c : Ascii.ascii) : option Z :=
  let n := Ascii.nat_of_ascii c in
  if (48 <=? n) && (n <=? 57) then Some (Z.of_nat (n - 48)) else None.

Fixpoint decimal (s : string) (acc : Z) : option Z :=
  match s with
  | EmptyString => Some acc
  | String c rest => d ← digit c; decimal rest (10 * acc + d)%Z
  end.

Definition decimal_int (s : string) : option Z :=
  match s with
  | EmptyString => None
  | _ => decimal s 0
  end.

(** A folder [FM] with two spectrogram files and a text file; [PM] is
    missing.  The second key of [lfm_up.h5] is not a number. *)
Definition spectrogram : ndarray :=
  {| nd_dtype := np_float; nd_shape := [1; 2]; nd_data := [0; 1]%Q |}.

Definition listdir (mod_type : string) : option (list string) :=
  if bool_decide (mod_type = "FM"%string)
  then Some ["lfm_up.h5"; "notes.txt"; "bpsk.h5"]%string
  else None.

Definition h5 (mod_type file : string) : Loader.h5_file :=
  if bool_decide (file = "lfm_up.h5"%string) then
    Loader.Readable [("0", Some spectrogram); ("x", Some spectrogram);
                     ("2", Some spectrogram)]%string
  else Loader.Readable [("0", Some spectrogram)]%string.

(** A dictionary of three spectrograms under two labels. *)
Definition spectrogram' : ndarray :=
  {| nd_dtype := np_float; nd_shape := [1; 2]; nd_data := [1; 0]%Q |}.

Definition data_dict : dict string (dict Z ndarray) :=
  [("lfm_up", [(1, spectrogram); (0, spectrogram')]);
   ("bpsk", [(0, spectrogram)])]%string%Z.

(** A stand-in for [cv2.resize] that fills the target with the pixels of
    the input, repeated in order. *)
Definition tile_resize (img : ndarray) (dsize : nat * nat) : option ndarray :=
  let channels := drop 2 (nd_shape img) in
  let n := dsize.2 * dsize.1 * foldr Nat.mul 1 channels in
  Some {| nd_dtype := nd_dtype img;
          nd_shape := [dsize.2; dsize.1] ++ channels;
          nd_data :=
            map (fun i => nth (i mod length (nd_data img)) (nd_data img) 0%Q)
              (seq 0 n) |}.

(** True and predicted labels of three samples. *)
Definition y_true : list Z := [0; 1; 1]%Z.
Definition y_pred : list Z := [1; 1; 0]%Z.

End Samples.

(** ** Further layers used by the DCNN and CWD-TFA models *)

Module Shape2.
Import Shape.

(** [nn.AdaptiveAvgPool2d(output_size=(a, b))]: any non-empty spatial
    extent is averaged down (or repeated up) to [a x b]. *)
Definition adaptive_avg_pool2d (a b : nat) (x : t) : option t :=
  match x with
  | [n; c; h; w] =>
      if (h =? 0) || (w =? 0) then None else Some [n; c; a; b]
  | _ => None
  end.

(** [nn.Dropout] keeps the shape. *)
Definition dropout (x : t) : option t := Some x.

(** [torch.flatten(x, 1)] has the shape rule of [nn.Flatten()]. *)
Definition flatten1 (x : t) : option t := flatten x.

(** In-place [x += y]: the broadcast result must have the shape of [x]. *)
Definition iadd (x y : t) : option t :=
  r ← broadcast x y;
  if decide (r = x) then Some r else None.

End Shape2.

(** ** LDC-Unet notebook: [DCNN] and [MainModel] *)

Module LDC_Main.
Import Shape Shape2.

(** [DCNN.classification_block] *)
Definition classification_block (x : t) : option t :=
  x ← adaptive_avg_pool2d 7 7 x;
  x ← flatten x;
  x ← linear (512 * 7 * 7) 4096 x;
  x ← relu x;
  x ← dropout x;
  x ← linear 4096 4096 x;
  x ← relu x;
  x ← dropout x;
  linear 4096 256 x.

Section DCNN.
(** [self.features], the convolutional part of the pre-trained VGG19. *)
Variable vgg19_features : t -> option t.
Variable num_classes : nat.

(** [DCNN.forward]: returns [(features, logits)]. *)
Definition DCNN_forward (x : t) : option (t * t) :=
  x ← vgg19_features x;
  features ← classification_block x;
  features ← relu features;
  features ← dropout features;
  logits ← linear 256 num_classes features;
  Some (features, logits).

(** [MainModel.forward] of the LDC-Unet notebook. *)
Definition MainModel_forward (x : t) : option (t * t) :=
  x ← LDC.LDC_Unet_forward LDC.LDC_Unet_init x;
  DCNN_forward x.
End DCNN.

(** The [feature_dim] with which the notebook builds its criterion:
    [SSRLoss(num_classes=num_classes, feature_dim=256, lambda_reg=0.12)]. *)
Definition criterion_feature_dim : nat := 256.

End LDC_Main.

(** ** CWD-TFA notebook: [module_thing] and [MainModel] *)

Module CWD.
Import Shape Shape2.

Record module_thing := {
  pool1 : nat * nat;
  conv1 : Conv2d; conv2 : Conv2d; conv3 : Conv2d;
  conv4 : Conv2d; conv5 : Conv2d; conv6 : Conv2d
}.

Definition conv (cin cout : nat) (kernel padding : nat * nat) : Conv2d :=
  {| in_channels := cin; out_channels := cout; kernel_size := kernel;
     stride := 1; padding := padding |}.

(** [module_thing.__init__] *)
Definition module_thing_init : module_thing := {|
  pool1 := (3, 2);
  conv1 := conv 64 64 (1, 3) (0, 1);
  conv2 := conv 64 64 (3, 1) (1, 0);
  conv3 := conv 128 64 (1, 1) (0, 0);
  conv4 := conv 64 64 (1, 3) (0, 1);
  conv5 := conv 64 64 (3, 1) (1, 0);
  conv6 := conv 256 64 (1, 1) (0, 0)
|}.

(** [module_thing.forward] *)
Definition module_thing_forward (m : module_thing) (x : t) : option t :=
  x ← pool2d (fst (pool1 m)) (snd (pool1 m)) x;
  let x0 := x in
  x1 ← conv2d (conv1 m) x;
  x2 ← conv2d (conv2 m) x;
  x_cat1 ← cat1 [x1; x2];
  x ← conv2d (conv3 m) x_cat1;
  x1 ← conv2d (conv4 m) x;
  x2 ← conv2d (conv5 m) x;
  x ← cat1 [x1; x2; x_cat1];
  x ← conv2d (conv6 m) x;
  iadd x x0.

Record MainModel := {
  m_conv1 : Conv2d;
  m1 : module_thing; m2 : module_thing; m3 : module_thing;
  fc1 : nat * nat;
  fc2 : nat * nat
}.

(** [MainModel.__init__(num_classes)] *)
Definition MainModel_init (num_classes : nat) : MainModel := {|
  m_conv1 := conv 1 64 (7, 7) (0, 0);
  m1 := module_thing_init;
  m2 := module_thing_init;
  m3 := module_thing_init;
  fc1 := (64, 64);
  fc2 := (64, num_classes)
|}.

(** [MainModel.forward] *)
Definition forward (m : MainModel) (x : t) : option t :=
  x ← conv2d (m_conv1 m) x;
  x ← module_thing_forward (m1 m) x;
  x ← module_thing_forward (m2 m) x;
  x ← module_thing_forward (m3 m) x;
  x ← adaptive_avg_pool2d 1 1 x;
  x ← flatten1 x;
  x ← linear (fst (fc1 m)) (snd (fc1 m)) x;
  x ← dropout x;
  linear (fst (fc2 m)) (snd (fc2 m)) x.

(** Spatial extent after [MaxPool2d(kernel_size=3, stride=2)]. *)
Definition pooled (h : nat) : nat := (h - 3) / 2 + 1.

End CWD.

(** ** STFT-CNN [MainModel]: the extent of the feature map *)

Module STFT_Extent.

(** Extent after a 5x5 convolution, a 2x2 pooling, a 5x5 convolution and a
    2x2 pooling. *)
Definition pooled (h : nat) : nat := ((h - 4) / 2 - 4) / 2.

End STFT_Extent.

(** ** Further sample inputs *)

Module Samples2.

(** The shape rule of torchvision's VGG19 [features]: 512 channels, the
    spatial extent divided by 32 (five 2x2 poolings). *)
Definition vgg19_shape (x : Shape.t) : option Shape.t :=
  match x with
  | [n; 3; h; w] =>
      if (h <? 32) || (w <? 32) then None else Some [n; 512; h / 32; w / 32]
  | _ => None
  end.

End Samples2.

(** ** Number of elements of a shape *)

Definition numel (shape : list nat) : nat := foldr Nat.mul 1 shape.

Module Samples3.

(** A loader argument in the layout [(N, H, W, C)] of the STFT-CNN
    notebook. *)
Definition stft_images : ndarray :=
  {| nd_dtype := np_float; nd_shape := [5; 40; 40; 3]; nd_data := [] |}.
Definition five_labels : ndarray :=
  {| nd_dtype := np_int; nd_shape := [5]; nd_data := [0; 1; 2; 0; 1]%Q |}.

(** A tensor that is already in the layout [(N, C, H, W)], of width 3. *)
Definition narrow_nchw : Prep.Tensor :=
  {| Prep.t_dtype := Prep.torch_float32; Prep.t_shape := [2; 3; 40; 3];
     Prep.t_device := "cpu" |}.

End Samples3.

(** ** [SSRLoss]: the absolute differences *)

Module SSR2.

(** [|features[i][j] - centers[labels[i]][j]|], sample by sample and
    coordinate by coordinate. *)
Definition abs_rows (self : SSR.SSRLoss) (features : list (list Q))
    (labels : list nat) : list (list Q) :=
  map (fun i =>
      map (fun j =>
        Qabs (nth j (nth i features []) 0
              - nth j (nth (nth i labels 0%nat) (SSR.centers self) []) 0)%Q)
        (seq 0 (SSR.feature_dim self)))
    (seq 0 (length features)).

End SSR2.

(** ** [evaluate_model] and [display_confusion_matrix]: the evaluation loop *)

Module Eval.

(** [torch.argmax] over one row of logits: the index of the first maximal
    value; an empty row raises ([None]). *)
Fixpoint argmax_from (best_i : nat) (best : Q) (i : nat) (row : list Q)
  : nat :=
  match row with
  | [] => best_i
  | v :: rest =>
      if Qltb best v then argmax_from i v (S i) rest
      else argmax_from best_i best (S i) rest
  end.

Definition argmax (row : list Q) : option nat :=
  match row with
  | [] => None
  | v :: rest => Some (argmax_from 0 v 1 rest)
  end.

Section Evaluate.
(** What is kept per predicted class: the model output paired with the
    prediction in the LDC-Unet notebook, the input image in the CWD-TFA
    notebook. *)
Context {A : Type}.

(** One sample of a batch: the item zipped with the predictions, the row
    of [output_class], and the label. *)
Record sample := {
  image : A;
  output : list Q;
  label : Z
}.

(** The variables of the loop. *)
Record totals := {
  y_true : list Z;
  y_pred : list Z;
  correct : nat;
  total : nat;
  class_images : dict Z A
}.

Definition start : totals :=
  {| y_true := []; y_pred := []; correct := 0; total := 0;
     class_images := [] |}.

(** [if pred_class not in class_images: class_images[pred_class] = img] *)
Definition keep_first (d : dict Z A) (ip : A * nat) : dict Z A :=
  match PyDict.get (Z.of_nat ip.2) d with
  | Some _ => d
  | None => PyDict.set (Z.of_nat ip.2) ip.1 d
  end.

(** The body of [for inputs, labels in test_loader]. *)
Definition batch_step (st : totals) (batch : list sample) : option totals :=
  preds ← mapM (fun s => argmax (output s)) batch;
  let labels := map label batch in
  let hits :=
    length (filter (fun pl : nat * Z => Z.of_nat pl.1 = pl.2)
              (zip preds labels)) in
  Some {| y_true := y_true st ++ labels;
          y_pred := y_pred st ++ map Z.of_nat preds;
          correct := correct st + hits;
          total := total st + length labels;
          class_images :=
            foldl keep_first (class_images st) (zip (map image batch) preds) |}.

Fixpoint batches_loop (st : totals) (batches : list (list sample))
  : option totals :=
  match batches with
  | [] => Some st
  | batch :: rest => st' ← batch_step st batch; batches_loop st' rest
  end.

(** What [evaluate_model] prints and plots. *)
Record report := {
  accuracy : Q;
  cm : list (list nat);
  cm_percent : list (list Q);
  images : dict Z A
}.

(** [evaluate_model(model, test_loader, label_encoder, device)], up to the
    confusion matrix. *)
Definition evaluate_model (test_loader : list (list sample)) : exn + report :=
  match batches_loop start test_loader with
  | None => inl (RuntimeError "argmax of an empty row")
  | Some st =>
      if total st =? 0 then inl ZeroDivisionError
      else
        let acc := (100 * inject_Z (Z.of_nat (correct st))
                    / inject_Z (Z.of_nat (total st)))%Q in
        match Confusion.confusion_matrix (y_true st) (y_pred st) with
        | None => inl (ValueError "inconsistent numbers of samples")
        | Some m =>
            inr {| accuracy := acc; cm := m;
                   cm_percent := Confusion.cm_normalized m;
                   images := class_images st |}
        end
  end.

(** The class the model predicts for a sample. *)
Definition predicted (s : sample) : Z :=
  Z.of_nat (default 0 (argmax (output s))).

(** The samples predicted as their label. *)
Definition hits (samples : list sample) : nat :=
  length (filter (fun s => predicted s = label s) samples).
End Evaluate.

Arguments sample : clear implicits.
Arguments totals : clear implicits.
Arguments report : clear implicits.

(** Sum of the diagonal of a matrix. *)
Definition trace (m : list (list nat)) : nat :=
  foldr Nat.add 0 (imap (fun i row => nth i row 0) m).

(** Sum of all entries of a matrix. *)
Definition grand_total (m : list (list nat)) : nat :=
  foldr Nat.add 0 (Confusion.sum_axis1 m).

(** Number of occurrences of a label. *)
Definition occurrences (t : Z) (ys : list Z) : nat :=
  length (filter (fun y => y = t) ys).

(** [len(set(y_true))], the number of class names of the CWD-TFA
    [evaluate_model]. *)
Definition distinct_true (ys : list Z) : nat := length (remove_dups ys).

End Eval.

Module Samples4.

(** A test loader of two batches, three samples of two classes; the images
    kept per class are named. *)
Definition test_loader : list (list (Eval.sample string)) :=
  [[ {| Eval.image := "a"; Eval.output := [1; 0]%Q; Eval.label := 0%Z |};
     {| Eval.image := "b"; Eval.output := [0; 1]%Q; Eval.label := 0%Z |} ];
   [ {| Eval.image := "c"; Eval.output := [2; 2]%Q; Eval.label := 0%Z |} ]]%string.

End Samples4.

Module Samples5.

(** A spectrogram of another shape, and a dictionary that holds both. *)
Definition wide : ndarray :=
  {| nd_dtype := np_float; nd_shape := [2; 2]; nd_data := [0; 1; 2; 3]%Q |}.

Definition mixed_dict : dict string (dict Z ndarray) :=
  [("lfm_up", [(0, Samples.spectrogram)]); ("bpsk", [(0, wide)])]%string%Z.

(** An image of one pixel. *)
Definition flat : ndarray :=
  {| nd_dtype := np_float; nd_shape := [1; 1]; nd_data := [5]%Q |}.

(** A folder whose files all load. *)
Definition h5 (mod_type file : string) : Loader.h5_file :=
  Loader.Readable [("0", Some Samples.spectrogram);
                   ("1", Some Samples.spectrogram')]%string.

End Samples5.

(** ** [pre_processing] (LDC-Unet and CWD-TFA notebooks) *)

Module Gray.

(** The weights [[0.2989, 0.5870, 0.1140]]. *)
Definition luminance : list Q :=
  [2989 # 10000; 5870 # 10000; 1140 # 10000]%Q.

(** [np.dot] of two vectors of one length. *)
Definition dot (a b : list Q) : Q := Qsum (zip_with Qmult a b).

(** [np.dot(x[..., :3], luminance)]: the last axis is cut to its first
    three entries and summed against the weights; [None] is the [IndexError]
    of the slice on a 0-dimensional array or the [ValueError] of [np.dot]
    when the last axis has fewer than three entries. *)
Definition to_gray (x : ndarray) : option ndarray :=
  match rev (nd_shape x) with
  | [] => None
  | c :: outer =>
      if c <? 3 then None
      else
        Some {| nd_dtype := np_float;
                nd_shape := rev outer;
                nd_data :=
                  map (fun px => dot (take 3 px) luminance)
                    (reshape (replicate (numel (rev outer)) c) (nd_data x)) |}
  end.

Section Pre.
(** [cv2.resize(img, dsize, interpolation=cv2.INTER_CUBIC)] *)
Variable cv2_resize : ndarray -> nat * nat -> option ndarray.

(** [pre_processing(images)] of the LDC-Unet notebook, and the first
    statement of the one of the CWD-TFA notebook:
    [np.array([cv2.resize(img, (64, 64), ...) for img in images])]. *)
Definition resize_all (images : list ndarray) : option (list ndarray) :=
  resized ← mapM (fun img => cv2_resize img (64, 64)) images;
  np_array resized.

(** [pre_processing(images)] of the CWD-TFA notebook.  Of no image,
    [np.array] makes an array of shape [(0,)], which [np.dot] rejects. *)
Definition pre_processing (images : list ndarray) : option (list ndarray) :=
  resized_images ← resize_all images;
  match resized_images with
  | [] => None
  | _ => mapM to_gray resized_images
  end.
End Pre.

End Gray.

Module Samples6.

(** Two pixels with an alpha channel, kept as they are by the stand-in for
    [cv2.resize]. *)
Definition rgba : ndarray :=
  {| nd_dtype := np_float; nd_shape := [1; 2; 4];
     nd_data := [255; 255; 255; 7; 10; 20; 30; 7]%Q |}.

Definition keep (img : ndarray) (dsize : nat * nat) : option ndarray :=
  Some img.

End Samples6.

(** * Properties *)

(** ** Shapes through the two models *)

Lemma broadcast_rev_same a : Shape.broadcast_rev a a = Some a.
Proof.
  induction a as [|x a IH]; simpl; [done|].
  rewrite IH. simpl. by rewrite Nat.eqb_refl.
Qed.

Lemma add_same x : Shape.add x x = Some x.
Proof.
  unfold Shape.add, Shape.broadcast. rewrite broadcast_rev_same. simpl.
  by rewrite rev_involutive.
Qed.

Lemma cat1_two_same n c c' r :
  Shape.cat1_two (n :: c :: r) (n :: c' :: r) = Some (n :: (c + c') :: r).
Proof. unfold Shape.cat1_two. by rewrite decide_True. Qed.

Ltac shape_eval :=
  repeat (cbn -[Shape.add Shape.cat1_two];
          rewrite ?add_same, ?cat1_two_same).

Example MainModel_summary_shape :
  STFT_CNN.forward (STFT_CNN.MainModel_init 6) [1; 3; 40; 40] = Some [1; 6].
Proof. reflexivity. Qed.

Example MainModel_rejects_64 :
  STFT_CNN.forward (STFT_CNN.MainModel_init 6) [1; 3; 64; 64] = None.
Proof. reflexivity. Qed.

Example LDC_Unet_one_image :
  LDC.LDC_Unet_forward LDC.LDC_Unet_init [1; 3; 64; 64] = Some [1; 3; 64; 64].
Proof. vm_compute. reflexivity. Qed.

(** C5: on a batch of [n] images of shape 3x40x40 the STFT-CNN [MainModel]
    forward pass goes through: the convolution/pooling stack yields 12
    channels of 7x7, the flattened vector has 588 entries, which is the
    [in_features] of [fc], and the logits have shape [n x num_classes]. *)
Theorem MainModel_forward_shape (n num_classes : nat) :
  let m := STFT_CNN.MainModel_init num_classes in
  STFT_CNN.forward_features m [n; 3; 40; 40] = Some [n; 12; 7; 7] ∧
  Shape.flatten [n; 12; 7; 7] = Some [n; 588] ∧
  fst (STFT_CNN.fc m) = 588 ∧
  STFT_CNN.forward m [n; 3; 40; 40] = Some [n; num_classes].
Proof. split_and!; reflexivity. Qed.

(** C6: on a batch of shape [n x 3 x 64 x 64], [LDC_Unet.forward] returns a
    tensor of the same shape.  The five encoders halve 64x64 down to 2x2;
    in each decoder all branches have 64 channels on one common spatial
    size, so the concatenations are well-formed; [decoder_4] yields 192
    channels and every [decoder] 256, which are the [c4] inputs of the next
    decoder; the final upsample and two convolutions give 3 channels at
    64x64. *)
Theorem LDC_Unet_forward_shape (n : nat) :
  let m := LDC.LDC_Unet_init in
  let x0 := [n; 3; 64; 64] in
  ∃ a, LDC.LDC_Unet_trace m x0 = Some a ∧
    LDC.x_e1 a = [n; 64; 32; 32] ∧ LDC.x_e2 a = [n; 128; 16; 16] ∧
    LDC.x_e3 a = [n; 256; 8; 8] ∧ LDC.x_e4 a = [n; 256; 4; 4] ∧
    LDC.x_e5 a = [n; 512; 2; 2] ∧
    LDC.decoder_4_branches (LDC.d4 m) (LDC.x_e3 a) (LDC.x_e4 a) (LDC.x_e5 a)
      = Some (replicate 3 [n; 64; 4; 4]) ∧
    LDC.x_d4 a = [n; 192; 4; 4] ∧
    LDC.decoder_branches (LDC.d3 m) (LDC.x_e2 a) (LDC.x_e3 a) (LDC.x_e4 a)
      (LDC.x_d4 a) = Some (replicate 4 [n; 64; 8; 8]) ∧
    LDC.x_d3 a = [n; 256; 8; 8] ∧
    LDC.decoder_branches (LDC.d2 m) (LDC.x_e1 a) (LDC.x_e2 a) (LDC.x_e3 a)
      (LDC.x_d3 a) = Some (replicate 4 [n; 64; 16; 16]) ∧
    LDC.x_d2 a = [n; 256; 16; 16] ∧
    LDC.decoder_branches (LDC.d1 m) x0 (LDC.x_e1 a) (LDC.x_e2 a)
      (LDC.x_d2 a) = Some (replicate 4 [n; 64; 32; 32]) ∧
    LDC.x_d1 a = [n; 256; 32; 32] ∧
    Shape.in_channels (LDC.d_conv4 (LDC.d3 m)) = 192 ∧
    Shape.in_channels (LDC.d_conv4 (LDC.d2 m)) = 256 ∧
    Shape.in_channels (LDC.d_conv4 (LDC.d1 m)) = 256 ∧
    LDC.x_out a = x0 ∧
    LDC.LDC_Unet_forward m x0 = Some x0.
Proof.
  cbn zeta.
  assert (Ht : LDC.LDC_Unet_trace LDC.LDC_Unet_init [n; 3; 64; 64] = Some
    {| LDC.x_e1 := [n; 64; 32; 32]; LDC.x_e2 := [n; 128; 16; 16];
       LDC.x_e3 := [n; 256; 8; 8]; LDC.x_e4 := [n; 256; 4; 4];
       LDC.x_e5 := [n; 512; 2; 2]; LDC.x_d4 := [n; 192; 4; 4];
       LDC.x_d3 := [n; 256; 8; 8]; LDC.x_d2 := [n; 256; 16; 16];
       LDC.x_d1 := [n; 256; 32; 32]; LDC.x_out := [n; 3; 64; 64] |}).
  { unfold LDC.LDC_Unet_trace, LDC.encoder_forward, LDC.decoder_forward,
      LDC.decoder_4_forward.
    shape_eval. reflexivity. }
  eexists. split; [exact Ht|].
  unfold LDC.LDC_Unet_forward. rewrite Ht.
  split_and!; reflexivity.
Qed.

(** ** The training loop *)

Section TrainFacts.
Import Train.
Variable nb : notebook.
Variable n_batches : nat.
Variable batch_loss : nat -> nat -> Q.
Variable scheduler : bool.
Variable patience : Z.
Variable min_delta : Q.

Local Abbreviation avg_loss := (avg_loss n_batches batch_loss).
Local Abbreviation improves := (improves n_batches batch_loss min_delta).
Local Abbreviation stale_count := (stale_count n_batches batch_loss min_delta).
Local Abbreviation triggers := (triggers n_batches batch_loss patience min_delta).
Local Abbreviation stale_run := (stale_run n_batches batch_loss min_delta).
Local Abbreviation stop_epoch := (stop_epoch n_batches batch_loss patience min_delta).
Local Abbreviation state_at := (state_at nb n_batches batch_loss scheduler min_delta).
Local Abbreviation epoch_body :=
  (epoch_body nb n_batches batch_loss scheduler patience min_delta).
Local Abbreviation run_epochs :=
  (run_epochs nb n_batches batch_loss scheduler patience min_delta).

Lemma state_at_0 : state_at 0 = initial.
Proof. unfold Train.state_at, initial. simpl. by destruct scheduler. Qed.

Lemma state_at_S e :
  state_at (S e) =
    {| loss_history := loss_history (state_at e) ++ [avg_loss e];
       best_loss := if improves e then Fin (avg_loss e)
                    else best_loss (state_at e);
       patience_counter := if improves e then 0%Z
                           else (patience_counter (state_at e) + 1)%Z;
       scheduler_steps := if scheduler then S (scheduler_steps (state_at e))
                          else scheduler_steps (state_at e);
       checkpoints := if saves_checkpoint nb e
                      then checkpoints (state_at e) ++ [e]
                      else checkpoints (state_at e) |}.
Proof.
  unfold Train.state_at.
  cbn [loss_history best_loss patience_counter scheduler_steps checkpoints].
  f_equal.
  - by rewrite seq_S, map_app.
  - by destruct scheduler.
  - rewrite seq_S, filter_app. cbn [Nat.add].
    rewrite filter_cons, filter_nil.
    destruct (saves_checkpoint nb e) eqn:Hs.
    + by rewrite decide_True.
    + rewrite decide_False by congruence. by rewrite app_nil_r.
Qed.

Lemma epoch_body_state_at e :
  n_batches ≠ 0 ->
  epoch_body e (state_at e) =
    if triggers e then Break (state_at (S e)) else Continue (state_at (S e)).
Proof.
  intros Hn. rewrite state_at_S. unfold Train.epoch_body, Train.triggers.
  destruct (Nat.eqb_spec n_batches 0) as [|_]; [done|].
  change (improved (avg_loss e) (best_loss (state_at e)) min_delta)
    with (improves e).
  change (stale_count (S e))
    with (if improves e then 0%Z else (stale_count e + 1)%Z).
  change (patience_counter (state_at e)) with (stale_count e).
  destruct (improves e); cbn [negb andb]; [done|].
  by destruct (patience <=? stale_count e + 1)%Z.
Qed.

Lemma run_epochs_state_at k : forall e,
  n_batches ≠ 0 ->
  run_epochs (seq e k) (state_at e) = inr (state_at (stop_epoch e k)).
Proof.
  induction k as [|k IH]; intros e Hn; simpl; [done|].
  rewrite epoch_body_state_at by done.
  destruct (triggers e); [done|]. by apply IH.
Qed.

Lemma stop_epoch_bounds k : forall e, e <= stop_epoch e k <= e + k.
Proof.
  induction k as [|k IH]; intros e; simpl; [lia|].
  destruct (triggers e); [lia|]. specialize (IH (S e)). lia.
Qed.

Lemma stop_epoch_early k : forall e,
  stop_epoch e k < e + k <->
  ∃ e', e <= e' ∧ S e' < e + k ∧ triggers e' = true.
Proof.
  induction k as [|k IH]; intros e; simpl.
  - split; [lia|]. intros (e' & ? & ? & _). lia.
  - destruct (triggers e) eqn:Ht.
    + destruct k as [|k].
      * split; [lia|]. intros (e' & ? & ? & _). lia.
      * split; [|lia]. intros _. exists e. split_and!; [lia|lia|done].
    + rewrite <- Nat.add_succ_comm, IH. split.
      * intros (e' & ? & ? & ?). exists e'. split_and!; [lia|done|done].
      * intros (e' & Hle & ? & Ht'). exists e'.
        assert (e ≠ e') by (intros ->; congruence).
        split_and!; [lia|done|done].
Qed.

Lemma stale_count_nonneg e : (0 <= stale_count e)%Z.
Proof. induction e as [|e IH]; simpl; [done|]. destruct (improves e); lia. Qed.

Lemma stale_count_ge e : forall p,
  (Z.of_nat p <= stale_count e)%Z <->
  p <= e ∧ ∀ i, e - p <= i -> i < e -> improves i = false.
Proof.
  induction e as [|e IH]; intros p; simpl.
  - split; [intros; split; [lia|intros; lia] | intros [? _]; lia].
  - destruct (improves e) eqn:Himp.
    + split.
      * intros Hp. assert (p = 0) as -> by lia. split; [lia|intros; lia].
      * intros [Hle Hall]. destruct p as [|p]; [lia|].
        specialize (Hall e ltac:(lia) ltac:(lia)). congruence.
    + destruct p as [|p].
      * pose proof (stale_count_nonneg e).
        split; [intros; split; [lia|intros; lia] | lia].
      * transitivity (Z.of_nat p <= stale_count e)%Z; [lia|].
        rewrite IH. split.
        -- intros [Hle Hall]. split; [lia|]. intros i Hi1 Hi2.
           destruct (decide (i = e)) as [->|]; [done|]. apply Hall; lia.
        -- intros [Hle Hall]. split; [lia|]. intros i Hi1 Hi2.
           apply Hall; lia.
Qed.

Lemma train_model_final epochs :
  n_batches ≠ 0 ->
  train_model nb n_batches batch_loss scheduler patience min_delta epochs
  = inr (state_at (stop_epoch 0 epochs)).
Proof.
  intros Hn. unfold Train.train_model. rewrite <- state_at_0.
  by apply run_epochs_state_at.
Qed.

Lemma triggers_stale_run e :
  (1 <= patience)%Z ->
  triggers e = true <-> stale_run e (Z.to_nat patience).
Proof.
  intros Hp. unfold Train.triggers, Train.stale_run.
  rewrite andb_true_iff, negb_true_iff, Z.leb_le.
  replace patience with (Z.of_nat (Z.to_nat patience)) at 1 by lia.
  rewrite stale_count_ge. split.
  - intros (Himp & Hle & Hall). split; [done|]. intros i ? ?.
    apply Hall; lia.
  - intros (Hle & Hall). split_and!; [|done|].
    + apply Hall; lia.
    + intros i ? ?. apply Hall; lia.
Qed.

Lemma stop_epoch_first k : forall e e',
  e <= e' -> S e' < stop_epoch e k -> triggers e' = false.
Proof.
  induction k as [|k IH]; intros e e' Hle Hlt; simpl in Hlt; [lia|].
  destruct (triggers e) eqn:Ht; [lia|].
  destruct (decide (e' = e)) as [->|]; [done|].
  apply (IH (S e)); [lia|done].
Qed.

Lemma stop_epoch_last k : forall e,
  stop_epoch e k < e + k ->
  ∃ e', stop_epoch e k = S e' ∧ triggers e' = true.
Proof.
  induction k as [|k IH]; intros e Hlt; simpl in *; [lia|].
  destruct (triggers e) eqn:Ht; [by exists e|].
  apply IH. lia.
Qed.

Lemma fold_left_Qplus (f : nat -> Q) l : forall a,
  fold_left (fun acc b => acc + f b)%Q l a == (a + Qsum (map f l))%Q.
Proof.
  induction l as [|x l IH]; intros a; simpl.
  - ring.
  - rewrite IH. ring.
Qed.

Lemma avg_loss_mean e :
  avg_loss e == Qmean (map (batch_loss e) (seq 0 n_batches)).
Proof.
  unfold Train.avg_loss, Train.total_loss, Qmean.
  rewrite fold_left_Qplus, length_map, length_seq.
  apply Qdiv_comp; [ring|reflexivity].
Qed.
End TrainFacts.

(** C2 (as amended): whenever the loader has at least one batch and
    [patience >= 1], [train_model] of any of the three notebooks returns; the
    history has one entry per epoch run, entry [i] being the mean of the
    batch losses of epoch [i]; fewer than [epochs] epochs run exactly when a
    run of [patience] consecutive non-improving epochs ends before the last
    requested epoch, and then training stops at the end of the first such
    run; otherwise all [epochs] epochs run; a supplied scheduler is stepped
    once per epoch run. *)
Theorem train_model_history_and_early_stopping
    (nb : Train.notebook) (n_batches : nat) (batch_loss : nat -> nat -> Q)
    (scheduler : bool) (patience : Z) (min_delta : Q) (epochs : nat) :
  n_batches ≠ 0 -> (1 <= patience)%Z ->
  ∃ s,
    Train.train_model nb n_batches batch_loss scheduler patience min_delta
      epochs = inr s ∧
    let ran := length (Train.loss_history s) in
    let stale e :=
      Train.stale_run n_batches batch_loss min_delta e (Z.to_nat patience) in
    ran <= epochs ∧
    (∀ i, i < ran ->
       ∃ a, Train.loss_history s !! i = Some a ∧
            a == Qmean (map (batch_loss i) (seq 0 n_batches))) ∧
    (ran < epochs <-> ∃ e, S e < epochs ∧ stale e) ∧
    (ran < epochs -> ∃ e, ran = S e ∧ stale e) ∧
    (∀ e, S e < ran -> ¬ stale e) ∧
    ((¬ ∃ e, S e < epochs ∧ stale e) -> ran = epochs) ∧
    Train.scheduler_steps s = (if scheduler then ran else 0).
Proof.
  intros Hn Hp. eexists. split; [by apply train_model_final|].
  cbn zeta.
  assert (Hlen : ∀ e, length (Train.loss_history
                   (Train.state_at nb n_batches batch_loss scheduler
                      min_delta e)) = e).
  { intros e. unfold Train.state_at. cbn [Train.loss_history].
    by rewrite length_map, length_seq. }
  rewrite !Hlen. clear Hlen.
  pose proof (stop_epoch_bounds n_batches batch_loss patience min_delta
                epochs 0) as Hb.
  pose proof (stop_epoch_early n_batches batch_loss patience min_delta
                epochs 0) as He.
  cbn [Nat.add] in Hb, He.
  assert (Hiff : Train.stop_epoch n_batches batch_loss patience min_delta 0
                   epochs < epochs <->
                 ∃ e, S e < epochs ∧
                   Train.stale_run n_batches batch_loss min_delta e
                     (Z.to_nat patience)).
  { rewrite He. split.
    - intros (e & _ & ? & Ht). exists e. split; [done|].
      by apply triggers_stale_run.
    - intros (e & ? & Hs). exists e. split_and!; [lia|done|].
      by apply triggers_stale_run. }
  split_and!.
  - lia.
  - intros i Hi. exists (Train.avg_loss n_batches batch_loss i). split.
    + unfold Train.state_at. cbn [Train.loss_history].
      rewrite list_lookup_fmap, lookup_seq_lt by done. done.
    + apply avg_loss_mean.
  - exact Hiff.
  - intros Hlt.
    destruct (stop_epoch_last n_batches batch_loss patience min_delta
                epochs 0 Hlt) as (e & Heq & Ht).
    exists e. split; [done|]. by apply triggers_stale_run.
  - intros e Hlt Hs. apply triggers_stale_run in Hs; [|done].
    rewrite (stop_epoch_first n_batches batch_loss patience min_delta
               epochs 0 e) in Hs; [done|lia|done].
  - intros Hno. destruct (decide (Train.stop_epoch n_batches batch_loss
                                    patience min_delta 0 epochs < epochs))
      as [Hlt|]; [|lia].
    apply Hiff in Hlt. done.
  - done.
Qed.

Lemma train_model_history_and_early_stopping_witness :
  ∃ s,
    Train.train_model Train.STFT_CNN 1 Samples.three_epochs true 1 0 3 = inr s ∧
    length (Train.loss_history s) = 3 ∧ Train.scheduler_steps s = 3.
Proof.
  destruct (train_model_history_and_early_stopping Train.STFT_CNN 1
              Samples.three_epochs true 1 0 3) as (s & Hs & H); [lia|lia|].
  exists s. split; [exact Hs|].
  vm_compute in Hs. injection Hs as <-. split; reflexivity.
Defined.

(** C2 (as stated) fails: with [epochs = 3], [patience = 1] and average
    losses 3, 2, 2 the third epoch fails to improve, yet all three requested
    epochs have run. *)
Lemma early_stop_rule_as_stated_fails :
  ¬ Train.early_stop_rule_as_stated Train.STFT_CNN 1 Samples.three_epochs true 1 0 3.
Proof.
  intros H.
  destruct (H (Train.state_at Train.STFT_CNN 1 Samples.three_epochs true 0 3))
    as [_ H']; [vm_compute; reflexivity|].
  change (length _) with 3 in H'.
  enough (3 < 3) by lia. apply H'.
  exists 2. split; [lia|]. split; [vm_compute; lia|].
  intros i Hi1 Hi2. change (Z.to_nat 1) with 1 in Hi1.
  assert (i = 2) as -> by lia.
  reflexivity.
Qed.

(** C10: in the LDC-Unet notebook, "model_latest.pth" is written at the end
    of an epoch that ran exactly when its zero-based index is not divisible
    by 5: never after epochs 0, 5, 10, ..., once after every other epoch. *)
Theorem ldc_unet_checkpoint_epochs
    (n_batches : nat) (batch_loss : nat -> nat -> Q) (scheduler : bool)
    (patience : Z) (min_delta : Q) (epochs : nat) :
  n_batches ≠ 0 ->
  ∃ s,
    Train.train_model Train.LDC_Unet n_batches batch_loss scheduler patience
      min_delta epochs = inr s ∧
    let ran := length (Train.loss_history s) in
    Train.checkpoints s = filter (fun e => e mod 5 ≠ 0) (seq 0 ran) ∧
    (∀ e, e ∈ Train.checkpoints s <-> e < ran ∧ e mod 5 ≠ 0) ∧
    (∀ k, 5 * k ∉ Train.checkpoints s).
Proof.
  intros Hn. eexists. split; [by apply train_model_final|].
  cbn zeta. unfold Train.state_at.
  cbn [Train.loss_history Train.checkpoints].
  rewrite length_map, length_seq.
  set (ran := Train.stop_epoch _ _ _ _ _ _).
  assert (Hf : filter (fun i => Train.saves_checkpoint Train.LDC_Unet i = true)
                 (seq 0 ran)
               = filter (fun e => e mod 5 ≠ 0) (seq 0 ran)).
  { apply list_filter_iff. intros e. cbn [Train.saves_checkpoint].
    rewrite negb_true_iff, Nat.eqb_neq. done. }
  rewrite Hf. split_and!.
  - done.
  - intros e. rewrite list_elem_of_filter, elem_of_seq. split.
    + intros [? ?]. split; [lia|done].
    + intros [? ?]. split; [done|lia].
  - intros k. rewrite list_elem_of_filter. intros [Hm _]. apply Hm.
    rewrite Nat.mul_comm. apply Nat.Div0.mod_mul.
Qed.

Lemma ldc_unet_checkpoint_epochs_witness :
  ∃ s,
    Train.train_model Train.LDC_Unet 1 Samples.one_per_epoch false 3 0 7 = inr s ∧
    Train.checkpoints s = [1; 2; 3; 4; 6].
Proof.
  destruct (ldc_unet_checkpoint_epochs 1 Samples.one_per_epoch false 3 0 7)
    as (s & Hs & H); [lia|].
  exists s. split; [exact Hs|].
  vm_compute in Hs. injection Hs as <-. reflexivity.
Defined.

(** ** [SSRLoss.forward] *)

Lemma Qsum_app (a b : list Q) : Qsum (a ++ b) == (Qsum a + Qsum b)%Q.
Proof.
  induction a as [|x a IH]; simpl.
  - ring.
  - rewrite IH. ring.
Qed.

Lemma Qsum_concat (l : list (list Q)) : Qsum (concat l) == Qsum (map Qsum l).
Proof.
  induction l as [|r l IH]; simpl; [reflexivity|].
  by rewrite Qsum_app, IH.
Qed.

Lemma length_concat_uniform {A} (l : list (list A)) (d : nat) :
  Forall (fun r => length r = d) l -> length (concat l) = length l * d.
Proof.
  induction 1 as [|r l Hr _ IH]; simpl; [done|].
  rewrite length_app, IH, Hr. done.
Qed.

Section SSRFacts.
Import SSR.

Lemma index_rows_nth (c : tensor2) (labels : list nat) :
  Forall (fun l => l < length c) labels ->
  index_rows c labels = Some (map (fun l => nth l c []) labels).
Proof.
  unfold index_rows. induction 1 as [|l labels Hl _ IH]; [done|].
  cbn. rewrite IH. apply lookup_lt_is_Some_2 in Hl as [r Hr].
  rewrite Hr. cbn. do 3 f_equal. rewrite nth_lookup, Hr. done.
Qed.

Lemma tensor_sub_zip (x y : tensor2) :
  Forall2 (fun a b => length a = length b) x y ->
  tensor_sub x y = Some (zip_with (zip_with Qminus) x y).
Proof.
  intros H. unfold tensor_sub.
  rewrite (Forall2_length _ _ _ H), Nat.eqb_refl.
  induction H as [|a b x y Hab _ IH]; [done|].
  change (zip (a :: x) (b :: y)) with ((a, b) :: zip x y).
  change (mapM sub_rows ((a, b) :: zip x y))
    with (r ← sub_rows (a, b); k ← mapM sub_rows (zip x y); Some (r :: k)).
  rewrite IH. unfold sub_rows. cbn [fst snd].
  rewrite Hab, Nat.eqb_refl. done.
Qed.

Lemma abs_row_by_index (a b : list Q) : forall d,
  length a = d -> length b = d ->
  map Qabs (zip_with Qminus a b)
  = map (fun j => Qabs (nth j a 0 - nth j b 0)%Q) (seq 0 d).
Proof.
  revert b. induction a as [|x a IH]; intros b d Ha Hb; simpl in Ha; subst d.
  - done.
  - destruct b as [|y b]; [done|]. simpl in Hb. cbn. f_equal.
    rewrite <- seq_shift, map_map. cbn. apply IH; [done|lia].
Qed.

Lemma abs_rows_by_index (c : tensor2) (d : nat) (fs : tensor2) :
  forall labels,
  length labels = length fs ->
  Forall (fun r => length r = d) fs ->
  Forall (fun l => l < length c) labels ->
  Forall (fun r => length r = d) c ->
  torch_abs (zip_with (zip_with Qminus) fs (map (fun l => nth l c []) labels))
  = map (fun i =>
      map (fun j =>
        Qabs (nth j (nth i fs []) 0
              - nth j (nth (nth i labels 0%nat) c []) 0)%Q)
        (seq 0 d))
      (seq 0 (length fs)).
Proof.
  unfold torch_abs.
  induction fs as [|r fs IH]; intros labels Hlen Hfs Hl Hc; [done|].
  destruct labels as [|l labels]; [done|].
  inversion Hfs; subst. inversion Hl; subst. cbn. f_equal.
  - apply abs_row_by_index; [done|].
    rewrite Forall_forall in Hc. apply Hc.
    apply list_elem_of_In, nth_In. done.
  - rewrite <- seq_shift, map_map. cbn. apply IH; [|done..].
    simpl in Hlen. lia.
Qed.

End SSRFacts.

(** C1: on well-shaped arguments, [SSRLoss.forward(features, labels, logits)]
    returns the cross-entropy of [logits] against [labels] plus [lambda_reg]
    times the mean of [|features[i][j] - centers[labels[i]][j]|] over all
    samples and coordinates; [lambda_reg] is 0.12 unless given. *)
Theorem SSRLoss_forward_is_ce_plus_center_term
    (cross_entropy : SSR.tensor2 -> list nat -> option Q)
    (self : SSR.SSRLoss) (features : SSR.tensor2) (labels : list nat)
    (logits : SSR.tensor2) (ce : Q) :
  features ≠ [] -> 0 < SSR.feature_dim self ->
  length labels = length features ->
  Forall (fun r => length r = SSR.feature_dim self) features ->
  Forall (fun l => l < SSR.num_classes self) labels ->
  length (SSR.centers self) = SSR.num_classes self ->
  Forall (fun r => length r = SSR.feature_dim self) (SSR.centers self) ->
  cross_entropy logits labels = Some ce ->
  (∃ loss,
     SSR.forward cross_entropy self features labels logits = Some loss ∧
     loss == (ce + SSR.lambda_reg self *
                SSR.mean_abs_center_distance (SSR.centers self) features
                  labels (SSR.feature_dim self))%Q) ∧
  (∀ n_classes f_dim randn,
     SSR.lambda_reg (SSR.SSRLoss_init n_classes f_dim None randn)
     = (12 # 100)%Q).
Proof.
  intros Hne Hd Hlen Hfs Hl Hc Hcs Hce. split; [|done].
  unfold SSR.forward. rewrite Hce. cbn.
  rewrite <- Hc in Hl.
  rewrite index_rows_nth by done. cbn.
  rewrite tensor_sub_zip; cycle 1.
  { apply Forall2_same_length_lookup_2.
    - by rewrite length_map.
    - intros i a b Ha Hb. rewrite list_lookup_fmap in Hb.
      destruct (labels !! i) as [l|] eqn:Hli; [|done]. cbn in Hb.
      injection Hb as <-.
      rewrite Forall_forall in Hfs. rewrite Forall_forall in Hl.
      rewrite Forall_forall in Hcs.
      rewrite (Hfs a) by (eapply list_elem_of_lookup_2; done).
      symmetry. apply Hcs, list_elem_of_In, nth_In, Hl.
      eapply list_elem_of_lookup_2; done. }
  cbn. rewrite (abs_rows_by_index _ (SSR.feature_dim self)) by done.
  unfold SSR.torch_mean, Qmean.
  set (rows := map _ (seq 0 (length features))).
  assert (Hrows : Forall (fun r => length r = SSR.feature_dim self) rows).
  { apply Forall_forall. intros r Hr. apply list_elem_of_fmap in Hr as (i & -> & _).
    by rewrite length_map, length_seq. }
  assert (Hnum : length (concat rows)
                 = length features * SSR.feature_dim self).
  { rewrite (length_concat_uniform _ _ Hrows). unfold rows.
    by rewrite length_map, length_seq. }
  rewrite Hnum.
  destruct (Nat.eqb_spec (length features * SSR.feature_dim self) 0)
    as [Hz|_].
  { destruct features; [done|]. simpl in Hz. lia. }
  cbn. eexists. split; [done|].
  unfold SSR.mean_abs_center_distance.
  rewrite Qsum_concat. unfold rows. rewrite map_map. reflexivity.
Qed.

(** ** Row normalisation of the confusion matrix *)

Section ConfusionFacts.
Import Confusion.

Lemma unique_labels_NoDup y_true y_pred : NoDup (unique_labels y_true y_pred).
Proof.
  unfold unique_labels. rewrite merge_sort_Permutation.
  apply NoDup_remove_dups.
Qed.

Lemma elem_of_unique_labels c y_true y_pred :
  c ∈ unique_labels y_true y_pred <-> c ∈ y_true ∨ c ∈ y_pred.
Proof.
  unfold unique_labels.
  rewrite merge_sort_Permutation, elem_of_remove_dups, elem_of_app. done.
Qed.

(** Over a duplicate-free list that contains [b], exactly one entry is [b]. *)
Lemma sum_indicator (b : Z) (f : Z -> nat) (L : list Z) :
  NoDup L -> b ∈ L ->
  foldr Nat.add 0 (map (fun p => (if decide (b = p) then 1 else 0) + f p) L)
  = S (foldr Nat.add 0 (map f L)).
Proof.
  induction 1 as [|x L Hx _ IH]; intros Hb; [by apply elem_of_nil in Hb|].
  apply elem_of_cons in Hb. cbn. destruct (decide (b = x)) as [->|Hne].
  - assert (Hrest : map (fun p => (if decide (x = p) then 1 else 0) + f p) L
                    = map f L).
    { apply map_ext_in. intros p Hp.
      rewrite decide_False; [done|]. intros ->.
      apply Hx, list_elem_of_In, Hp. }
    rewrite Hrest. lia.
  - destruct Hb as [|Hb]; [done|]. rewrite IH by done. lia.
Qed.

Lemma row_sum_counts (t : Z) (L : list Z) (samples : list (Z * Z)) :
  NoDup L -> (∀ s, s ∈ samples -> s.2 ∈ L) ->
  foldr Nat.add 0 (map (fun p => count_pairs t p samples) L)
  = length (filter (fun s => s.1 = t) samples).
Proof.
  intros HL. induction samples as [|[a b] samples IH]; intros Hin.
  - unfold count_pairs. cbn. clear. induction L; [done|]. cbn. done.
  - assert (Hb : b ∈ L) by (apply (Hin (a, b)); left).
    assert (Hin' : ∀ s, s ∈ samples -> s.2 ∈ L)
      by (intros s Hs; apply Hin; by right).
    specialize (IH Hin'). rewrite filter_cons. cbn [fst].
    destruct (decide (a = t)) as [->|Hne].
    + cbn [length]. rewrite <- IH.
      rewrite <- (sum_indicator b (fun p => count_pairs t p samples) L)
        by done.
      f_equal. apply map_ext. intros p. unfold count_pairs.
      rewrite filter_cons.
      destruct (decide (b = p)) as [->|Hbp].
      * by rewrite decide_True.
      * rewrite decide_False by congruence. done.
    + rewrite <- IH. f_equal. apply map_ext. intros p. unfold count_pairs.
      rewrite filter_cons. rewrite decide_False by congruence. done.
Qed.

Lemma true_label_counted (t : Z) (y_true y_pred : list Z) :
  length y_true = length y_pred -> t ∈ y_true ->
  length (filter (fun s => s.1 = t) (zip y_true y_pred)) ≠ 0.
Proof.
  intros Hlen Ht. apply list_elem_of_lookup in Ht as [i Hi].
  destruct (lookup_lt_is_Some_2 y_pred i) as [p Hp].
  { rewrite <- Hlen. by eapply lookup_lt_Some. }
  assert (Hin : (t, p) ∈ filter (fun s : Z * Z => s.1 = t) (zip y_true y_pred)).
  { apply list_elem_of_filter. split; [done|].
    apply list_elem_of_lookup. exists i.
    rewrite lookup_zip_with, Hi. cbn. by rewrite Hp. }
  destruct (filter _ _); [by apply elem_of_nil in Hin | done].
Qed.

Lemma Qsum_inject (row : list nat) :
  Qsum (map (fun n => inject_Z (Z.of_nat n)) row)
  == inject_Z (Z.of_nat (foldr Nat.add 0 row)).
Proof.
  unfold Qsum. induction row as [|n row IH]; cbn [map foldr]; [reflexivity|].
  rewrite IH, Nat2Z.inj_add, inject_Z_plus. reflexivity.
Qed.

Lemma Qsum_scale (l : list Q) (s k : Q) :
  Qsum (map (fun v => v * k)%Q (map (fun v => v / s)%Q l))
  == (Qsum l / s * k)%Q.
Proof.
  unfold Qsum. induction l as [|x l IH]; cbn [map foldr].
  - unfold Qdiv. ring.
  - rewrite IH. unfold Qdiv. ring.
Qed.

Lemma normalized_row_sum (row : list nat) :
  foldr Nat.add 0 row ≠ 0 ->
  Qsum (map (fun v => v * 100)%Q
          (map (fun v => v / inject_Z (Z.of_nat (foldr Nat.add 0%nat row)))%Q
             (map (fun n => inject_Z (Z.of_nat n)) row)))
  == 100.
Proof.
  intros Hs. rewrite Qsum_scale, Qsum_inject. field.
  intros H. apply Hs. unfold Qeq in H. cbn in H. lia.
Qed.

Lemma cm_normalized_rows (cm : list (list nat)) :
  cm_normalized cm
  = map (fun row =>
      map (fun v => v * 100)%Q
        (map (fun v => v / inject_Z (Z.of_nat (foldr Nat.add 0%nat row)))%Q
           (map (fun n => inject_Z (Z.of_nat n)) row))) cm.
Proof.
  unfold cm_normalized, mul_scalar, div_rows, astype_float, sum_axis1.
  rewrite map_map, zip_with_fmap_l, zip_with_fmap_r, zip_with_diag.
  rewrite map_map. done.
Qed.
End ConfusionFacts.


(** ** Dictionaries *)

Section DictFacts.
Context {K V : Type} `{EqDecision K}.
Implicit Types (d : list (K * V)).

Lemma get_elem_of k v d : PyDict.get k d = Some v -> (k, v) ∈ d.
Proof.
  induction d as [|[k' v'] d IH]; cbn; [done|].
  destruct (decide (k = k')) as [->|_].
  - intros [= ->]. left.
  - intros H. right. by apply IH.
Qed.

Lemma get_is_Some k d : is_Some (PyDict.get k d) <-> k ∈ PyDict.keys d.
Proof.
  unfold PyDict.keys. induction d as [|[k' v'] d IH]; cbn.
  - split; [by intros [? ?] | by intros ?%elem_of_nil].
  - rewrite elem_of_cons. destruct (decide (k = k')) as [->|Hne].
    + split; [by left | by eexists].
    + rewrite IH. split; [by right | by intros [?|?]].
Qed.

Lemma get_wf k v d : PyDict.wf d -> (k, v) ∈ d -> PyDict.get k d = Some v.
Proof.
  unfold PyDict.wf, PyDict.keys.
  induction d as [|[k' v'] d IH]; cbn; intros Hwf Hin.
  - by apply elem_of_nil in Hin.
  - apply NoDup_cons in Hwf as [Hk' Hwf]. apply elem_of_cons in Hin.
    destruct (decide (k = k')) as [->|Hne].
    + destruct Hin as [[= ->]|Hin]; [done|].
      exfalso. apply Hk', list_elem_of_fmap. by exists (k', v).
    + destruct Hin as [[= ? ?]|Hin]; [done|]. by apply IH.
Qed.

Lemma get_set_eq k v d : PyDict.get k (PyDict.set k v d) = Some v.
Proof.
  induction d as [|[k' v'] d IH]; cbn.
  - by rewrite decide_True.
  - destruct (decide (k = k')) as [->|Hne]; cbn.
    + by rewrite decide_True.
    + by rewrite decide_False.
Qed.

Lemma get_set_ne k k' v d :
  k ≠ k' -> PyDict.get k' (PyDict.set k v d) = PyDict.get k' d.
Proof.
  intros Hne. induction d as [|[k0 v0] d IH]; cbn.
  - by rewrite decide_False.
  - destruct (decide (k = k0)) as [->|Hne0]; cbn.
    + by rewrite !decide_False by done.
    + destruct (decide (k' = k0)); [done|]. apply IH.
Qed.

Lemma keys_set k v d k' :
  k' ∈ PyDict.keys (PyDict.set k v d) <-> k' = k ∨ k' ∈ PyDict.keys d.
Proof.
  rewrite <- !get_is_Some. destruct (decide (k = k')) as [->|Hne].
  - rewrite get_set_eq. split; [by left | by eexists].
  - rewrite get_set_ne by done. split; [by right | by intros [?|?]].
Qed.
End DictFacts.

(** ** [convert_spectrogram_dict_to_xy] *)

Section ConvertFacts.
Import Convert.

Lemma sorted_keys_elem_of k (sp : dict Z ndarray) :
  k ∈ sorted_keys sp <-> k ∈ PyDict.keys sp.
Proof. unfold sorted_keys. by rewrite merge_sort_Permutation. Qed.

Lemma sorted_keys_length (sp : dict Z ndarray) :
  length (sorted_keys sp) = length sp.
Proof.
  unfold sorted_keys, PyDict.keys.
  by rewrite merge_sort_Permutation, length_map.
Qed.

Lemma StronglySorted_le_lt (l : list Z) :
  StronglySorted Z.le l -> NoDup l -> StronglySorted Z.lt l.
Proof.
  induction 1 as [|x l _ IH Hx]; intros Hnd; [constructor|].
  apply NoDup_cons in Hnd as [Hxl Hnd]. constructor; [by apply IH|].
  rewrite Forall_forall in Hx. apply Forall_forall. intros y Hy.
  specialize (Hx y Hy). assert (x ≠ y) by (by intros ->). lia.
Qed.

Lemma sorted_keys_increasing (sp : dict Z ndarray) :
  PyDict.wf sp -> StronglySorted Z.lt (sorted_keys sp).
Proof.
  intros Hwf. apply StronglySorted_le_lt.
  - apply StronglySorted_merge_sort; apply _.
  - unfold sorted_keys. by rewrite merge_sort_Permutation.
Qed.

Lemma StronglySorted_lookup_lt {A} (R : A -> A -> Prop) (l : list A) :
  StronglySorted R l ->
  ∀ i j a b, i < j -> l !! i = Some a -> l !! j = Some b -> R a b.
Proof.
  induction 1 as [|x l _ IH Hx]; intros i j a b Hij Hi Hj; [done|].
  destruct j as [|j]; [lia|]. cbn in Hj. destruct i as [|i]; cbn in Hi.
  - injection Hi as ->. rewrite Forall_forall in Hx.
    eapply Hx, list_elem_of_lookup_2, Hj.
  - eapply (IH i j); [lia|done..].
Qed.

Lemma append_label_spec label (sp : dict Z ndarray) idxs : forall acc,
  Forall (fun k => k ∈ PyDict.keys sp) idxs ->
  ∃ vals,
    append_label label sp idxs acc
    = Some (acc.1 ++ vals, acc.2 ++ map (fun _ => label) idxs) ∧
    Forall2 (fun k v => PyDict.get k sp = Some v) idxs vals.
Proof.
  induction idxs as [|k idxs IH]; intros [xs ys] Hin; cbn.
  - exists []. by rewrite !app_nil_r.
  - apply Forall_cons in Hin as [Hk Hin].
    apply get_is_Some in Hk as [x Hx]. rewrite Hx. cbn.
    destruct (IH (xs ++ [x], ys ++ [label]) Hin) as (vals & -> & Hvals).
    exists (x :: vals). cbn. rewrite <- !app_assoc. split; [done|].
    by constructor.
Qed.

Lemma items_loop_spec (d : dict string (dict Z ndarray)) : forall acc,
  ∃ vals,
    items_loop d acc = Some (acc.1 ++ vals, acc.2 ++ map fst (pairs d)) ∧
    Forall2 (fun p v => ∃ sp, (p.1, sp) ∈ d ∧ PyDict.get p.2 sp = Some v)
      (pairs d) vals.
Proof.
  induction d as [|[label sp] d IH]; intros [xs ys]; cbn.
  - exists []. by rewrite !app_nil_r.
  - destruct (append_label_spec label sp (sorted_keys sp) (xs, ys))
      as (vals1 & -> & H1).
    { apply Forall_forall. intros k. apply sorted_keys_elem_of. }
    cbn. destruct (IH (xs ++ vals1, ys ++ map (fun _ => label) (sorted_keys sp)))
      as (vals2 & -> & H2).
    exists (vals1 ++ vals2). cbn. rewrite <- !app_assoc. split.
    + do 3 f_equal. unfold pairs. cbn. rewrite map_app, map_map. done.
    + unfold pairs. cbn. apply Forall2_app.
      * apply Forall2_fmap_l. eapply Forall2_impl; [exact H1|].
        intros k v Hk. exists sp. split; [left|done].
      * eapply Forall2_impl; [exact H2|].
        intros p v (sp' & Hin & Hget). exists sp'. split; [by right|done].
Qed.

Lemma pairs_cons label sp (d : dict string (dict Z ndarray)) :
  pairs ((label, sp) :: d)
  = map (fun k => (label, k)) (sorted_keys sp) ++ pairs d.
Proof. reflexivity. Qed.

Lemma pairs_length (d : dict string (dict Z ndarray)) :
  length (pairs d) = total d.
Proof.
  induction d as [|[label sp] d IH]; [done|].
  rewrite pairs_cons, length_app, length_map, sorted_keys_length, IH. done.
Qed.

Lemma pairs_label (d : dict string (dict Z ndarray)) p :
  p ∈ pairs d -> p.1 ∈ PyDict.keys d.
Proof.
  unfold pairs. rewrite list_elem_of_bind. intros ([label sp] & Hp & Hin).
  apply list_elem_of_fmap in Hp as (k & -> & _). cbn.
  apply list_elem_of_fmap. by exists (label, sp).
Qed.

Lemma pairs_sorted (d : dict string (dict Z ndarray)) :
  PyDict.wf d ->
  (∀ label sp, (label, sp) ∈ d -> PyDict.wf sp) ->
  StronglySorted (fun p q : string * Z => p.1 = q.1 -> (p.2 < q.2)%Z)
    (pairs d).
Proof.
  unfold PyDict.wf at 1.
  induction d as [|[label sp] d IH]; intros Hwf Hinner; [constructor|].
  cbn in Hwf. apply NoDup_cons in Hwf as [Hl Hwf].
  rewrite pairs_cons. apply StronglySorted_app. split_and!.
  - intros p q Hp Hq Heq. exfalso. apply Hl.
    apply list_elem_of_fmap in Hp as (k & -> & _). cbn in Heq. rewrite Heq.
    by apply pairs_label.
  - assert (Hs : StronglySorted Z.lt (sorted_keys sp)).
    { apply sorted_keys_increasing, (Hinner label). left. }
    induction Hs as [|k ks _ IHs Hk]; cbn; constructor; [done|].
    apply Forall_fmap. eapply Forall_impl; [exact Hk|]. by intros k' ? _.
  - apply IH; [done|]. intros l' sp' Hin. apply (Hinner l'). by right.
Qed.

Lemma np_array_same_shape (xs : list ndarray) (shape : list nat) :
  Forall (fun x => nd_shape x = shape) xs -> np_array xs = Some xs.
Proof.
  destruct xs as [|x xs]; [done|]. intros H.
  apply Forall_cons in H as [Hx Hxs]. cbn.
  rewrite (proj2 (forallb_forall _ _)); [done|].
  intros r Hr. apply bool_decide_eq_true.
  rewrite Forall_forall in Hxs. rewrite Hx. apply Hxs, list_elem_of_In, Hr.
Qed.
End ConvertFacts.


(** ** [load_spectrogram_h5s] *)

Section LoaderFacts.
Import Loader.
Variable py_int : string -> option Z.
Variable listdir : string -> option (list string).

Local Abbreviation state := (dict string (dict Z ndarray) * list message)%type.

(** The effect of loading one file on the dictionary. *)
Local Abbreviation file_step h5 :=
  (fun (d : dict string (dict Z ndarray)) (w : string * string) =>
     (load_file py_int h5 w.1 w.2 (d, [])).1).

Lemma read_items_spec mod_name items :
  forall (d : dict string (dict Z ndarray)) inner,
  PyDict.get mod_name d = Some inner ->
  let r := read_items py_int mod_name items d in
  PyDict.get mod_name r.1 = Some (stored_items py_int items inner).1 ∧
  r.2 = (stored_items py_int items inner).2 ∧
  ∀ m, m ≠ mod_name -> PyDict.get m r.1 = PyDict.get m d.
Proof.
  induction items as [|[key value] items IH]; intros d inner Hget; cbn.
  - done.
  - destruct (py_int key) as [idx|]; [|done].
    destruct value as [arr|]; [|done]. rewrite Hget.
    destruct (IH (PyDict.set mod_name (PyDict.set idx arr inner) d)
                (PyDict.set idx arr inner)) as (H1 & H2 & H3).
    { apply get_set_eq. }
    split_and!; [done|done|].
    intros m Hm. rewrite H3 by done. by apply get_set_ne.
Qed.

Lemma load_file_spec h5 mod_type file (st : state) :
  let r := load_file py_int h5 mod_type file st in
  PyDict.get (strip3 file) r.1 = Some (stored py_int (h5 mod_type file)).1 ∧
  (∀ m, m ≠ strip3 file -> PyDict.get m r.1 = PyDict.get m st.1) ∧
  r.2 = st.2 ++ (if (stored py_int (h5 mod_type file)).2 then []
                 else [FailedToLoad mod_type file]).
Proof.
  unfold load_file, stored. destruct (h5 mod_type file) as [|items]; cbn.
  - split_and!; [apply get_set_eq | | done].
    intros m Hm. by apply get_set_ne.
  - pose proof (read_items_spec (strip3 file) items
                  (PyDict.set (strip3 file) [] st.1) []
                  (get_set_eq _ _ _)) as (H1 & H2 & H3).
    destruct (read_items _ _ _ _) as [d' ok]. cbn in *. subst ok.
    split_and!; [done | |].
    + intros m Hm. rewrite H3 by done. by apply get_set_ne.
    + destruct (stored_items py_int items []).2; [|done].
      by rewrite app_nil_r.
Qed.

Lemma load_file_dict h5 mod_type file (st : state) :
  (load_file py_int h5 mod_type file st).1
  = file_step h5 st.1 (mod_type, file).
Proof.
  unfold load_file. cbn. destruct (h5 mod_type file); [done|].
  by destruct (read_items _ _ _ _).
Qed.

Lemma worklist_cons mod_type mod_types :
  worklist listdir (mod_type :: mod_types)
  = match listdir mod_type with
    | None => []
    | Some names =>
        map (fun f => (mod_type, f))
          (filter (fun f => ends_with_h5 f = true) names)
    end ++ worklist listdir mod_types.
Proof. reflexivity. Qed.

Lemma load_files_dict h5 mod_type files : forall st : state,
  (foldl (fun st file => load_file py_int h5 mod_type file st) st files).1
  = foldl (file_step h5) st.1 (map (fun f => (mod_type, f)) files).
Proof.
  induction files as [|f files IH]; intros st; cbn [foldl map]; [done|].
  rewrite IH, load_file_dict. done.
Qed.

Lemma load_dict_worklist h5 mod_types : forall st : state,
  (foldl (fun st mod_type => load_mod_type py_int listdir h5 mod_type st)
     st mod_types).1
  = foldl (file_step h5) st.1 (worklist listdir mod_types).
Proof.
  induction mod_types as [|mt mts IH]; intros st; cbn [foldl]; [done|].
  rewrite IH, worklist_cons, foldl_app. f_equal.
  unfold load_mod_type. destruct (listdir mt) as [names|]; [|done].
  by rewrite load_files_dict.
Qed.

Lemma file_step_spec h5 d (w : string * string) :
  PyDict.get (strip3 w.2) (file_step h5 d w)
  = Some (stored py_int (h5 w.1 w.2)).1 ∧
  ∀ m, m ≠ strip3 w.2 ->
    PyDict.get m (file_step h5 d w) = PyDict.get m d.
Proof.
  destruct (load_file_spec h5 w.1 w.2 (d, [])) as (H1 & H2 & _). done.
Qed.

Lemma steps_keep_entry h5 name (ws : list (string * string)) : forall d,
  name ∉ map (fun w => strip3 w.2) ws ->
  PyDict.get name (foldl (file_step h5) d ws) = PyDict.get name d.
Proof.
  induction ws as [|w ws IH]; intros d Hn; cbn [foldl]; [done|].
  cbn in Hn. apply not_elem_of_cons in Hn as [Hne Hn].
  rewrite IH by done. by apply file_step_spec.
Qed.

Lemma steps_keep_key h5 name (ws : list (string * string)) : forall d,
  is_Some (PyDict.get name d) ->
  is_Some (PyDict.get name (foldl (file_step h5) d ws)).
Proof.
  induction ws as [|w ws IH]; intros d Hd; cbn [foldl]; [done|].
  apply IH. destruct (file_step_spec h5 d w) as [H1 H2].
  destruct (decide (name = strip3 w.2)) as [->|Hne].
  - by eexists.
  - by rewrite H2.
Qed.

Lemma steps_agree h5 h5' w0 (ws : list (string * string)) : forall d d',
  (∀ w, w ≠ w0 -> h5' w.1 w.2 = h5 w.1 w.2) ->
  (∀ m, m ≠ strip3 w0.2 -> PyDict.get m d' = PyDict.get m d) ->
  ∀ m, m ≠ strip3 w0.2 ->
    PyDict.get m (foldl (file_step h5') d' ws)
    = PyDict.get m (foldl (file_step h5) d ws).
Proof.
  induction ws as [|w ws IH]; intros d d' Hh Hd; cbn [foldl]; [done|].
  apply IH; [done|]. intros m Hm.
  destruct (file_step_spec h5 d w) as [H1 H2].
  destruct (file_step_spec h5' d' w) as [H1' H2'].
  destruct (decide (m = strip3 w.2)) as [->|Hne].
  - rewrite H1, H1'. rewrite Hh; [done|]. by intros ->.
  - rewrite H2, H2' by done. by apply Hd.
Qed.

Lemma log_grows_file h5 mod_type files msg : forall st : state,
  msg ∈ st.2 ->
  msg ∈ (foldl (fun st file => load_file py_int h5 mod_type file st)
           st files).2.
Proof.
  induction files as [|f files IH]; intros st Hin; cbn [foldl]; [done|].
  apply IH. destruct (load_file_spec h5 mod_type f st) as (_ & _ & ->).
  apply elem_of_app. by left.
Qed.

Lemma log_failed_file h5 mod_type files f : forall st : state,
  f ∈ files -> (stored py_int (h5 mod_type f)).2 = false ->
  FailedToLoad mod_type f
  ∈ (foldl (fun st file => load_file py_int h5 mod_type file st)
       st files).2.
Proof.
  induction files as [|f' files IH]; intros st Hin Hfail;
    [by apply elem_of_nil in Hin|].
  cbn [foldl]. apply elem_of_cons in Hin as [<-|Hin]; [|by apply IH].
  apply log_grows_file.
  destruct (load_file_spec h5 mod_type f st) as (_ & _ & ->).
  rewrite Hfail. apply elem_of_app. right. left.
Qed.

Lemma log_grows h5 mod_types msg : forall st : state,
  msg ∈ st.2 ->
  msg ∈ (foldl (fun st mod_type =>
                  load_mod_type py_int listdir h5 mod_type st)
           st mod_types).2.
Proof.
  induction mod_types as [|mt mts IH]; intros st Hin; cbn [foldl]; [done|].
  apply IH. unfold load_mod_type. destruct (listdir mt).
  - apply log_grows_file. cbn. apply elem_of_app. by left.
  - cbn. apply elem_of_app. by left.
Qed.

Lemma log_failed h5 mod_types mt f : forall st : state,
  (mt, f) ∈ worklist listdir mod_types ->
  (stored py_int (h5 mt f)).2 = false ->
  FailedToLoad mt f
  ∈ (foldl (fun st mod_type =>
              load_mod_type py_int listdir h5 mod_type st)
       st mod_types).2.
Proof.
  induction mod_types as [|mt' mts IH]; intros st Hin Hfail.
  - by apply elem_of_nil in Hin.
  - rewrite worklist_cons in Hin. cbn [foldl].
    apply elem_of_app in Hin as [Hin|Hin]; [|by apply IH].
    apply log_grows. unfold load_mod_type.
    destruct (listdir mt') as [names|]; [|by apply elem_of_nil in Hin].
    apply list_elem_of_fmap in Hin as (f' & [= -> ->] & Hin).
    by apply log_failed_file.
Qed.
End LoaderFacts.


(** ** [prepare_dataloader] *)

Section PrepFacts.
Import Prep.
Variable fw : framework.

Lemma convert_X_valid X :
  is_array_or_tensor X = true ->
  (∃ a, X = PyNdarray a ∧ convert_X fw X = torch_tensor fw a torch_float32) ∨
  (∃ t, X = PyTensor t ∧ convert_X fw X = inr t).
Proof. destruct X; try done; intros _; [left|right]; by eexists. Qed.

Lemma convert_y_valid y :
  is_array_or_tensor y = true ->
  (∃ a, y = PyNdarray a ∧ convert_y fw y = torch_tensor fw a torch_long) ∨
  (∃ t, y = PyTensor t ∧ convert_y fw y = inr t).
Proof. destruct y; try done; intros _; [left|right]; by eexists. Qed.

Lemma convert_X_invalid X :
  is_array_or_tensor X = false -> convert_X fw X = inl (TypeError msg_X).
Proof. by destruct X. Qed.

Lemma convert_y_invalid y :
  is_array_or_tensor y = false -> convert_y fw y = inl (TypeError msg_y).
Proof. by destruct y. Qed.

Lemma build_loader_raises X y bs sh nw dev e :
  build_loader fw X y bs sh nw dev = inl e ->
  raised_by_framework fw bs sh nw dev e.
Proof.
  unfold build_loader, raised_by_framework.
  destruct (tensor_to fw (ensure_nchw X) dev) as [e1|Xd] eqn:H1; cbn.
  { intros [= <-]. right. left. by eexists. }
  destruct (tensor_to fw y dev) as [e2|yd] eqn:H2; cbn.
  { intros [= <-]. right. left. by eexists. }
  destruct (new_TensorDataset fw Xd yd) as [e3|ds] eqn:H3; cbn.
  { intros [= <-]. right. right. left. by do 2 eexists. }
  intros H4. right. right. right. by do 2 eexists.
Qed.

Lemma prepare_dataloader_raises X y bs sh nw dev e :
  prepare_dataloader fw X y bs sh nw dev = inl e ->
  (is_array_or_tensor X = false ∧ e = TypeError msg_X) ∨
  ((∃ Xt, convert_X fw X = inr Xt) ∧
   is_array_or_tensor y = false ∧ e = TypeError msg_y) ∨
  (is_array_or_tensor X = true ∧
   raised_by_framework fw bs sh nw dev e).
Proof.
  unfold prepare_dataloader.
  destruct (is_array_or_tensor X) eqn:HX; cycle 1.
  { rewrite convert_X_invalid by done. intros [= <-]. by left. }
  destruct (convert_X fw X) as [e1|Xt] eqn:H1; cbn.
  { intros [= <-]. right. right. split; [done|]. left.
    destruct (convert_X_valid X HX) as [(a & -> & Ha)|(t & -> & Ht)].
    - rewrite Ha in H1. by do 2 eexists.
    - by rewrite Ht in H1. }
  destruct (is_array_or_tensor y) eqn:Hy; cycle 1.
  { rewrite convert_y_invalid by done. intros [= <-].
    right. left. split_and!; [by eexists|done|done]. }
  destruct (convert_y fw y) as [e2|yt] eqn:H2; cbn.
  { intros [= <-]. right. right. split; [done|]. left.
    destruct (convert_y_valid y Hy) as [(a & -> & Ha)|(t & -> & Ht)].
    - rewrite Ha in H2. by do 2 eexists.
    - by rewrite Ht in H2. }
  intros H. right. right. split; [done|]. by eapply build_loader_raises.
Qed.
End PrepFacts.

Lemma Torch_messages bs sh nw dev e :
  Prep.raised_by_framework Prep.Torch bs sh nw dev e ->
  e ≠ TypeError Prep.msg_X ∧ e ≠ TypeError Prep.msg_y.
Proof.
  intros [(a & dt & H)|[(t & H)|[(a & b & H)|(d & pin & H)]]]; cbn in H.
  - unfold Prep.Torch_tensor in H.
    destruct (nd_dtype a); simplify_eq; split; discriminate.
  - unfold Prep.Torch_to in H. case_bool_decide; simplify_eq.
    split; discriminate.
  - unfold Prep.Torch_TensorDataset in H.
    repeat case_match; simplify_eq; split; discriminate.
  - unfold Prep.Torch_DataLoader in H.
    repeat case_match; simplify_eq; split; discriminate.
Qed.

(** C3 (as amended): [prepare_dataloader] raises its [TypeError] for [X]
    when [X] is neither an array nor a tensor, and its [TypeError] for [y]
    when [X] was converted and [y] is neither; when both are arrays or
    tensors neither check fires: every exception is one raised by a PyTorch
    call, and a [DataLoader] is returned when these calls all succeed.
    With PyTorch as documented, the two messages are raised in exactly these
    cases. *)
Theorem prepare_dataloader_type_checks
    (fw : Prep.framework) (X y : Prep.pyobj) (batch_size : Z)
    (shuffle : bool) (num_workers : Z) (device : string) :
  let run fw :=
    Prep.prepare_dataloader fw X y batch_size shuffle num_workers device in
  (Prep.is_array_or_tensor X = false ->
     run fw = inl (TypeError Prep.msg_X)) ∧
  (∀ Xt, Prep.convert_X fw X = inr Xt ->
     Prep.is_array_or_tensor y = false ->
     run fw = inl (TypeError Prep.msg_y)) ∧
  (Prep.is_array_or_tensor X = true -> Prep.is_array_or_tensor y = true ->
     (∀ e, run fw = inl e ->
        Prep.raised_by_framework fw batch_size shuffle num_workers device e) ∧
     (∀ Xt yt Xd yd ds loader,
        Prep.convert_X fw X = inr Xt -> Prep.convert_y fw y = inr yt ->
        Prep.tensor_to fw (Prep.ensure_nchw Xt) device = inr Xd ->
        Prep.tensor_to fw yt device = inr yd ->
        Prep.new_TensorDataset fw Xd yd = inr ds ->
        Prep.new_DataLoader fw ds batch_size shuffle num_workers
          (bool_decide (device = "cuda"%string)) = inr loader ->
        run fw = inr loader)) ∧
  (run Prep.Torch = inl (TypeError Prep.msg_X) <->
     Prep.is_array_or_tensor X = false) ∧
  (run Prep.Torch = inl (TypeError Prep.msg_y) <->
     (∃ Xt, Prep.convert_X Prep.Torch X = inr Xt) ∧
     Prep.is_array_or_tensor y = false).
Proof.
  cbn zeta. unfold Prep.prepare_dataloader. split_and!.
  - intros HX. by rewrite convert_X_invalid.
  - intros Xt HX Hy. rewrite HX. cbn. by rewrite convert_y_invalid.
  - intros HX Hy. split.
    + intros e.
      destruct (convert_X_valid fw X HX) as [(a & -> & ->)|(t & -> & ->)];
        (destruct (convert_y_valid fw y Hy) as [(b & -> & ->)|(u & -> & ->)]);
        cbn.
      * destruct (Prep.torch_tensor fw a _) as [e1|Xt] eqn:H1; cbn.
        { intros [= <-]. left. by do 2 eexists. }
        destruct (Prep.torch_tensor fw b _) as [e2|yt] eqn:H2; cbn.
        { intros [= <-]. left. by do 2 eexists. }
        apply build_loader_raises.
      * destruct (Prep.torch_tensor fw a _) as [e1|Xt] eqn:H1; cbn.
        { intros [= <-]. left. by do 2 eexists. }
        apply build_loader_raises.
      * destruct (Prep.torch_tensor fw b _) as [e2|yt] eqn:H2; cbn.
        { intros [= <-]. left. by do 2 eexists. }
        apply build_loader_raises.
      * apply build_loader_raises.
    + intros Xt yt Xd yd ds loader -> ->. cbn. unfold Prep.build_loader.
      intros -> ->. cbn. intros ->. cbn. done.
  - split; [|intros HX; by rewrite convert_X_invalid].
    intros H. apply prepare_dataloader_raises in H.
    destruct H as [[H _]|[(_ & _ & [=])|[_ H]]]; [done|].
    by apply Torch_messages in H as [? _].
  - split.
    + intros H. apply prepare_dataloader_raises in H.
      destruct H as [[_ [=]]|[(H1 & H2 & _)|[_ H]]]; [done|].
      by apply Torch_messages in H as [_ ?].
    + intros [[Xt ->] Hy]. cbn. by rewrite convert_y_invalid.
Qed.

(** ** [pre_processing] *)

Lemma Qsum_nonneg (l : list Q) : Forall (fun v => 0 <= v)%Q l -> (0 <= Qsum l)%Q.
Proof.
  unfold Qsum. induction 1 as [|v l Hv _ IH]; cbn [foldr]; [lra|]. lra.
Qed.

Lemma Qsum_pos (l : list Q) (v : Q) :
  Forall (fun v => 0 <= v)%Q l -> v ∈ l -> (0 < v)%Q -> (0 < Qsum l)%Q.
Proof.
  unfold Qsum. induction 1 as [|w l Hw Hl IH]; intros Hin Hv.
  - by apply elem_of_nil in Hin.
  - cbn [foldr]. apply elem_of_cons in Hin as [<-|Hin].
    + pose proof (Qsum_nonneg l Hl) as H0. unfold Qsum in H0. lra.
    + specialize (IH Hin Hv). lra.
Qed.

Lemma Qsq_nonneg (q : Q) : (0 <= q * q)%Q.
Proof. nra. Qed.

Lemma Qsq_pos (q : Q) : ¬ q == 0 -> (0 < q * q)%Q.
Proof.
  intros H. destruct (Q_dec q 0) as [[Hlt|Hgt]|Heq]; [nra|nra|contradiction].
Qed.

Section PreFacts.
Import PreProcess.

Lemma np_var_nonzero (x : list Q) : nonconstant x -> ¬ np_var x == 0.
Proof.
  intros (a & b & Ha & Hb & Hab). unfold np_var, Qmean.
  set (m := np_mean x). rewrite length_map.
  assert (Hn : (0 < inject_Z (Z.of_nat (length x)))%Q).
  { destruct x; [by apply elem_of_nil in Ha|].
    cbn [length]. unfold Qlt. cbn. lia. }
  assert (Hv : ∃ v, v ∈ x ∧ ¬ v == m).
  { destruct (Qeq_dec a m) as [Ham|]; [|by exists a].
    exists b. split; [done|]. intros Hbm. apply Hab. by rewrite Ham, Hbm. }
  destruct Hv as (v & Hv & Hvm).
  assert (Hpos : (0 < Qsum (map (fun v => (v - m) * (v - m)) x))%Q).
  { apply (Qsum_pos _ ((v - m) * (v - m))).
    - apply Forall_fmap, Forall_forall. intros w _. apply Qsq_nonneg.
    - apply list_elem_of_fmap. by exists v.
    - apply Qsq_pos. intros H. apply Hvm. lra. }
  intros H0. apply (Qlt_not_eq _ _ (Qlt_shift_div_l _ _ _ Hn
                            ltac:(rewrite Qmult_0_l; exact Hpos))).
  symmetry. exact H0.
Qed.

Lemma normalize_step_defined (x : list Q) :
  nonconstant x ->
  ∃ x', normalize_step x = Some x' ∧ nonconstant x' ∧ length x' = length x.
Proof.
  intros Hx. pose proof (np_var_nonzero x Hx) as Hvar.
  unfold normalize_step.
  destruct (Qeq_bool (np_var x) 0) eqn:Hb.
  { apply Qeq_bool_iff in Hb. done. }
  eexists. split; [done|]. split; [|by rewrite length_map].
  destruct Hx as (a & b & Ha & Hb' & Hab).
  exists ((a - np_mean x) / np_var x)%Q, ((b - np_mean x) / np_var x)%Q.
  split_and!.
  - apply list_elem_of_fmap. by exists a.
  - apply list_elem_of_fmap. by exists b.
  - intros Heq. apply Hab.
    assert (H1 : (a - np_mean x) == (b - np_mean x)).
    { apply (Qmult_inj_r _ _ (/ np_var x)); [|exact Heq].
      intros Hinv. apply Hvar.
      rewrite <- (Qinv_involutive (np_var x)), Hinv. reflexivity. }
    lra.
Qed.

Lemma normalize_loop_defined n : forall x,
  nonconstant x ->
  ∃ x', normalize_loop n x = Some x' ∧ length x' = length x.
Proof.
  induction n as [|n IH]; intros x Hx; cbn.
  - by exists x.
  - destruct (normalize_step_defined x Hx) as (x1 & -> & Hx1 & Hlen).
    cbn. destruct (IH x1 Hx1) as (x' & -> & Hlen'). exists x'.
    split; [done|]. congruence.
Qed.

Lemma clamp_negative_nonneg (x : list Q) :
  Forall (fun v => 0 <= v)%Q (clamp_negative x).
Proof.
  unfold clamp_negative. apply Forall_fmap, Forall_forall. intros v _. cbn.
  unfold Qltb. destruct (Qle_bool 0 v) eqn:Hle; cbn.
  - by apply Qle_bool_iff.
  - lra.
Qed.
End PreFacts.

Section PreProcessingFacts.
Import PreProcess.
Variable cv2_resize : ndarray -> nat * nat -> option ndarray.

Lemma process_image_defined img r :
  cv2_resize img (40, 40) = Some r -> nonconstant (nd_data r) ->
  ∃ o, process_image cv2_resize img = Some o ∧
       processed_from cv2_resize img o.
Proof.
  intros Hr Hnc. unfold process_image, target_size, iterations. rewrite Hr.
  cbn [mbind option_bind].
  destruct (normalize_loop_defined 6 (nd_data r) Hnc) as (data & Hd & _).
  rewrite Hd. cbn [mbind option_bind]. eexists. split; [done|].
  exists r, data. done.
Qed.

Lemma process_images_defined (images : list ndarray) :
  Forall (fun img => ∃ r, cv2_resize img (40, 40) = Some r ∧
                          nonconstant (nd_data r)) images ->
  ∃ out, mapM (process_image cv2_resize) images = Some out ∧
         Forall2 (processed_from cv2_resize) images out.
Proof.
  induction 1 as [|img images (r & Hr & Hnc) _ (out & Hout & Hall)].
  - by exists [].
  - destruct (process_image_defined img r Hr Hnc) as (o & Ho & Hp).
    exists (o :: out). split; [|by constructor].
    cbn. rewrite Ho. cbn. rewrite Hout. done.
Qed.
End PreProcessingFacts.


(** ** The statements at the sample inputs *)

Lemma SSRLoss_forward_is_ce_plus_center_term_witness :
  ∃ loss,
    SSR.forward Samples.unit_cross_entropy Samples.ssr Samples.features
      Samples.labels Samples.logits = Some loss ∧
    loss == 124 # 100.
Proof.
  destruct (SSRLoss_forward_is_ce_plus_center_term
              Samples.unit_cross_entropy Samples.ssr Samples.features
              Samples.labels Samples.logits 1)
    as [(loss & Hf & Hl) _].
  - done.
  - cbn. lia.
  - reflexivity.
  - repeat constructor.
  - repeat constructor.
  - reflexivity.
  - repeat constructor.
  - reflexivity.
  - exists loss. split; [exact Hf|]. rewrite Hl. vm_compute. reflexivity.
Defined.

(** C3 (as stated) fails: for a float array [X] and an array [y] of
    strings, both NumPy arrays, [torch.tensor(y, dtype=torch.long)] raises
    [TypeError], and no [DataLoader] is returned. *)
Lemma type_check_as_stated_fails : ¬ Prep.type_check_as_stated Prep.Torch.
Proof.
  intros H.
  destruct (H (Prep.PyNdarray Samples.float_images)
              (Prep.PyNdarray Samples.string_labels) 32%Z false 2%Z "cpu"%string)
    as [[Hraise _] _].
  destruct Hraise as [HX|Hy]; [by eexists|done|done].
Qed.

Lemma prepare_dataloader_type_checks_witness :
  ∃ loader,
    Prep.prepare_dataloader Prep.Torch (Prep.PyNdarray Samples.float_images)
      (Prep.PyNdarray Samples.int_labels) 32 false 2 "cpu" = inr loader ∧
    Prep.t_shape (Prep.tensors (Prep.dataset loader)).1 = [2; 3; 4; 4].
Proof.
  destruct (prepare_dataloader_type_checks Prep.Torch
              (Prep.PyNdarray Samples.float_images)
              (Prep.PyNdarray Samples.int_labels) 32 false 2 "cpu")
    as (_ & _ & H & _).
  destruct (H eq_refl eq_refl) as [_ Hret].
  eexists. split.
  - eapply Hret; reflexivity.
  - reflexivity.
Defined.





(** * Further properties *)

(** ** Shapes for arbitrary image sizes *)

Lemma div2_bounds (a : nat) : 2 * (a / 2) <= a < 2 * (a / 2) + 2.
Proof.
  pose proof (Nat.div_mod_eq a 2). pose proof (Nat.mod_upper_bound a 2). lia.
Qed.

Lemma window_ok (h k s p : nat) :
  k <= h + 2 * p -> s ≠ 0 -> k ≠ 0 ->
  Shape.window h k s p = Some ((h + 2 * p - k) / s + 1).
Proof.
  intros Hk Hs Hk0. unfold Shape.window.
  destruct (Nat.ltb_spec (h + 2 * p) k); [lia|].
  destruct (Nat.eqb_spec s 0); [done|].
  destruct (Nat.eqb_spec k 0); done.
Qed.

Lemma window_same (h : nat) : 1 <= h -> Shape.window h 3 1 1 = Some h.
Proof.
  intros. rewrite window_ok by lia. f_equal. rewrite Nat.div_1_r. lia.
Qed.

Lemma window_point (h : nat) : 1 <= h -> Shape.window h 1 1 0 = Some h.
Proof.
  intros. rewrite window_ok by lia. f_equal. rewrite Nat.div_1_r. lia.
Qed.

Lemma window_halve_conv (h : nat) :
  1 <= h -> Shape.window (h * 2) 3 2 1 = Some h.
Proof.
  intros. rewrite window_ok by lia. f_equal.
  pose proof (div2_bounds (h * 2 + 2 * 1 - 3)). lia.
Qed.

Lemma window_halve_pool (h : nat) :
  1 <= h -> Shape.window (h * 2) 2 2 0 = Some h.
Proof.
  intros. rewrite window_ok by lia. f_equal.
  pose proof (div2_bounds (h * 2 + 2 * 0 - 2)). lia.
Qed.

Lemma encoder_forward_halves (n cin cout h w : nat) :
  1 <= h -> 1 <= w ->
  LDC.encoder_forward (LDC.encoder_init cin cout) [n; cin; h * 2; w * 2]
  = Some [n; cout; h; w].
Proof.
  intros Hh Hw. unfold LDC.encoder_forward, LDC.encoder_init, LDC.conv3x3.
  cbn -[Shape.window Shape.add]. rewrite !Nat.eqb_refl.
  rewrite !window_halve_conv by done. cbn -[Shape.window Shape.add].
  rewrite !Nat.eqb_refl, !window_same by done. cbn -[Shape.add].
  apply add_same.
Qed.

Lemma conv3x3_same (n cin cout h w : nat) :
  1 <= h -> 1 <= w ->
  Shape.conv2d (LDC.conv3x3 cin cout 1) [n; cin; h; w] = Some [n; cout; h; w].
Proof.
  intros Hh Hw. unfold LDC.conv3x3. cbn -[Shape.window].
  rewrite Nat.eqb_refl, !window_same by done. done.
Qed.

Lemma pool2_halves (n c h w : nat) :
  1 <= h -> 1 <= w ->
  Shape.pool2d 2 2 [n; c; h * 2; w * 2] = Some [n; c; h; w].
Proof.
  intros Hh Hw. cbn -[Shape.window]. rewrite !window_halve_pool by done. done.
Qed.

Lemma decoder_forward_joins (n c1 c2 c3 c4 h w : nat) :
  1 <= h -> 1 <= w ->
  LDC.decoder_forward (LDC.decoder_init c1 c2 c3 c4)
    [n; c1; h * 2 * 2; w * 2 * 2] [n; c2; h * 2; w * 2]
    [n; c3; h; w] [n; c4; h; w]
  = Some [n; 256; h * 2; w * 2].
Proof.
  intros Hh Hw. unfold LDC.decoder_forward, LDC.decoder_branches.
  cbn [LDC.decoder_init LDC.d_conv1 LDC.d_conv2 LDC.d_conv3 LDC.d_conv4].
  rewrite pool2_halves by lia. cbn [mbind option_bind Shape.upsample].
  rewrite !conv3x3_same by lia. cbn [mbind option_bind Shape.cat1].
  repeat (rewrite cat1_two_same; cbn [mbind option_bind]). done.
Qed.

Lemma decoder_4_forward_joins (n c1 c2 c3 h w : nat) :
  1 <= h -> 1 <= w ->
  LDC.decoder_4_forward (LDC.decoder_4_init c1 c2 c3)
    [n; c1; h * 2 * 2; w * 2 * 2] [n; c2; h * 2; w * 2] [n; c3; h; w]
  = Some [n; 192; h * 2; w * 2].
Proof.
  intros Hh Hw. unfold LDC.decoder_4_forward, LDC.decoder_4_branches.
  cbn [LDC.decoder_4_init LDC.d4_conv1 LDC.d4_conv2 LDC.d4_conv3].
  rewrite pool2_halves by lia. cbn [mbind option_bind Shape.upsample].
  rewrite !conv3x3_same by lia. cbn [mbind option_bind Shape.cat1].
  repeat (rewrite cat1_two_same; cbn [mbind option_bind]). done.
Qed.

Lemma LDC_Unet_forward_doubled (n a b : nat) :
  1 <= a -> 1 <= b ->
  LDC.LDC_Unet_forward LDC.LDC_Unet_init
    [n; 3; a * 2 * 2 * 2 * 2 * 2; b * 2 * 2 * 2 * 2 * 2]
  = Some [n; 3; a * 2 * 2 * 2 * 2 * 2; b * 2 * 2 * 2 * 2 * 2].
Proof.
  intros Ha Hb.
  unfold LDC.LDC_Unet_forward, LDC.LDC_Unet_trace.
  cbn [LDC.LDC_Unet_init LDC.e1 LDC.e2 LDC.e3 LDC.e4 LDC.e5 LDC.d4 LDC.d3
       LDC.d2 LDC.d1 LDC.u_conv1 LDC.u_conv2].
  do 5 (rewrite !encoder_forward_halves by lia; cbn [mbind option_bind]).
  rewrite decoder_4_forward_joins by lia. cbn [mbind option_bind].
  do 2 (rewrite decoder_forward_joins by lia; cbn [mbind option_bind]).
  rewrite decoder_forward_joins by lia.
  cbn [mbind option_bind Shape.upsample].
  rewrite !conv3x3_same by lia. cbn [mbind option_bind].
  rewrite conv3x3_same by lia. done.
Qed.

(** X1: [LDC_Unet.forward] keeps the shape of every batch of 3-channel
    images whose height and width are positive multiples of 32 (64x64 of the
    notebook, 128x128 of its commented summary, ...). *)
Theorem LDC_Unet_forward_multiples_of_32 (n a b : nat) :
  1 <= a -> 1 <= b ->
  LDC.LDC_Unet_forward LDC.LDC_Unet_init [n; 3; 32 * a; 32 * b]
  = Some [n; 3; 32 * a; 32 * b].
Proof.
  intros Ha Hb.
  replace (32 * a) with (a * 2 * 2 * 2 * 2 * 2) by lia.
  replace (32 * b) with (b * 2 * 2 * 2 * 2 * 2) by lia.
  by apply LDC_Unet_forward_doubled.
Qed.

Lemma LDC_Unet_forward_multiples_of_32_witness :
  LDC.LDC_Unet_forward LDC.LDC_Unet_init [1; 3; 128; 128]
  = Some [1; 3; 128; 128].
Proof.
  exact (LDC_Unet_forward_multiples_of_32 1 4 4 ltac:(lia) ltac:(lia)).
Defined.

Lemma adaptive_avg_pool2d_ok (a b n c h w : nat) :
  1 <= h -> 1 <= w ->
  Shape2.adaptive_avg_pool2d a b [n; c; h; w] = Some [n; c; a; b].
Proof.
  intros Hh Hw. unfold Shape2.adaptive_avg_pool2d.
  destruct (Nat.eqb_spec h 0); [lia|]. destruct (Nat.eqb_spec w 0); [lia|].
  done.
Qed.

(** X2: the classification head of [DCNN] turns any 512-channel feature map
    into a feature vector of 256 entries per sample and [num_classes] logits
    per sample; 256 is the [feature_dim] of the [SSRLoss] criterion the
    notebook builds.  With [LDC_Unet] in front, [MainModel.forward] does so
    for every batch of 3-channel images whose sides are positive multiples
    of 32, given the VGG19 features reduce the side by 32. *)
Theorem LDC_MainModel_forward_shapes
    (vgg19_features : Shape.t -> option Shape.t) (num_classes n a b : nat) :
  1 <= a -> 1 <= b ->
  vgg19_features [n; 3; 32 * a; 32 * b] = Some [n; 512; a; b] ->
  LDC_Main.DCNN_forward vgg19_features num_classes [n; 3; 32 * a; 32 * b]
  = Some ([n; LDC_Main.criterion_feature_dim], [n; num_classes]) ∧
  LDC_Main.MainModel_forward vgg19_features num_classes
    [n; 3; 32 * a; 32 * b]
  = Some ([n; LDC_Main.criterion_feature_dim], [n; num_classes]).
Proof.
  intros Ha Hb Hvgg.
  assert (Hd : LDC_Main.DCNN_forward vgg19_features num_classes
                 [n; 3; 32 * a; 32 * b]
               = Some ([n; 256], [n; num_classes])).
  { unfold LDC_Main.DCNN_forward, LDC_Main.classification_block.
    rewrite Hvgg. cbn [mbind option_bind].
    rewrite adaptive_avg_pool2d_ok by done. reflexivity. }
  split; [exact Hd|].
  unfold LDC_Main.MainModel_forward.
  replace (LDC.LDC_Unet_forward LDC.LDC_Unet_init [n; 3; 32 * a; 32 * b])
    with (Some [n; 3; 32 * a; 32 * b]); [exact Hd|].
  replace (32 * a) with (a * 2 * 2 * 2 * 2 * 2) by lia.
  replace (32 * b) with (b * 2 * 2 * 2 * 2 * 2) by lia.
  symmetry. by apply LDC_Unet_forward_doubled.
Qed.
Lemma LDC_MainModel_forward_shapes_witness :
  LDC_Main.MainModel_forward Samples2.vgg19_shape 6 [8; 3; 64; 64]
  = Some ([8; 256], [8; 6]).
Proof.
  exact (proj2 (LDC_MainModel_forward_shapes Samples2.vgg19_shape 6 8 2 2
                  ltac:(lia) ltac:(lia) eq_refl)).
Defined.

(** ** CWD-TFA [MainModel] *)

Lemma window_pool3 (h : nat) :
  3 <= h -> Shape.window h 3 2 0 = Some (CWD.pooled h).
Proof.
  intros. rewrite window_ok by lia. unfold CWD.pooled. do 3 f_equal. lia.
Qed.

Lemma pooled_pos (h : nat) : 1 <= CWD.pooled h.
Proof. unfold CWD.pooled. lia. Qed.

Lemma pooled_ge (h : nat) : 7 <= h -> 3 <= CWD.pooled h.
Proof.
  intros. unfold CWD.pooled. pose proof (div2_bounds (h - 3)). lia.
Qed.

Lemma pooled_mono (h k : nat) : h <= k -> CWD.pooled h <= CWD.pooled k.
Proof.
  intros. unfold CWD.pooled.
  pose proof (Nat.Div0.div_le_mono (h - 3) (k - 3) 2). lia.
Qed.

Lemma iadd_same x : Shape2.iadd x x = Some x.
Proof.
  unfold Shape2.iadd. change (Shape.broadcast x x) with (Shape.add x x).
  rewrite add_same. cbn. by rewrite decide_True.
Qed.

Lemma pool3_shape (n c h w : nat) :
  3 <= h -> 3 <= w ->
  Shape.pool2d 3 2 [n; c; h; w] = Some [n; c; CWD.pooled h; CWD.pooled w].
Proof.
  intros. unfold Shape.pool2d. by rewrite !window_pool3 by done.
Qed.

Lemma conv_1x3_same (n cin cout h w : nat) :
  1 <= h -> 1 <= w ->
  Shape.conv2d (CWD.conv cin cout (1, 3) (0, 1)) [n; cin; h; w]
  = Some [n; cout; h; w].
Proof.
  intros. unfold Shape.conv2d, CWD.conv.
  cbn [Shape.in_channels Shape.out_channels Shape.kernel_size Shape.stride
       Shape.padding fst snd].
  by rewrite Nat.eqb_refl, window_point, window_same by done.
Qed.

Lemma conv_3x1_same (n cin cout h w : nat) :
  1 <= h -> 1 <= w ->
  Shape.conv2d (CWD.conv cin cout (3, 1) (1, 0)) [n; cin; h; w]
  = Some [n; cout; h; w].
Proof.
  intros. unfold Shape.conv2d, CWD.conv.
  cbn [Shape.in_channels Shape.out_channels Shape.kernel_size Shape.stride
       Shape.padding fst snd].
  by rewrite Nat.eqb_refl, window_point, window_same by done.
Qed.

Lemma conv_1x1_same (n cin cout h w : nat) :
  1 <= h -> 1 <= w ->
  Shape.conv2d (CWD.conv cin cout (1, 1) (0, 0)) [n; cin; h; w]
  = Some [n; cout; h; w].
Proof.
  intros. unfold Shape.conv2d, CWD.conv.
  cbn [Shape.in_channels Shape.out_channels Shape.kernel_size Shape.stride
       Shape.padding fst snd].
  by rewrite Nat.eqb_refl, !window_point by done.
Qed.

Lemma conv_7x7_shape (n cin cout h w : nat) :
  7 <= h -> 7 <= w ->
  Shape.conv2d (CWD.conv cin cout (7, 7) (0, 0)) [n; cin; h; w]
  = Some [n; cout; h - 6; w - 6].
Proof.
  intros. unfold Shape.conv2d, CWD.conv.
  cbn [Shape.in_channels Shape.out_channels Shape.kernel_size Shape.stride
       Shape.padding fst snd].
  rewrite Nat.eqb_refl, !window_ok by lia. cbn [mbind option_bind].
  rewrite !Nat.div_1_r.
  replace (h + 2 * 0 - 7 + 1) with (h - 6) by lia.
  replace (w + 2 * 0 - 7 + 1) with (w - 6) by lia. done.
Qed.

Lemma module_thing_forward_shape (n h w : nat) :
  3 <= h -> 3 <= w ->
  CWD.module_thing_forward CWD.module_thing_init [n; 64; h; w]
  = Some [n; 64; CWD.pooled h; CWD.pooled w].
Proof.
  intros Hh Hw. pose proof (pooled_pos h). pose proof (pooled_pos w).
  unfold CWD.module_thing_forward, CWD.module_thing_init.
  cbn [CWD.pool1 CWD.conv1 CWD.conv2 CWD.conv3 CWD.conv4 CWD.conv5 CWD.conv6
       fst snd].
  rewrite pool3_shape by done. cbn [mbind option_bind].
  rewrite conv_1x3_same, conv_3x1_same by done.
  cbn [mbind option_bind Shape.cat1]. rewrite cat1_two_same.
  cbn [mbind option_bind]. change (64 + 64) with 128.
  rewrite conv_1x1_same by done. cbn [mbind option_bind].
  rewrite conv_1x3_same, conv_3x1_same by done.
  cbn [mbind option_bind Shape.cat1].
  repeat (rewrite cat1_two_same; cbn [mbind option_bind]).
  change (64 + (64 + 128)) with 256.
  rewrite conv_1x1_same by done. cbn [mbind option_bind].
  apply iadd_same.
Qed.

(** X3: the CWD-TFA [MainModel] maps every batch of one-channel images of
    at least 21x21 pixels to [num_classes] logits per sample; 20x20 images
    are rejected (the third [module_thing] has nothing left to pool). *)
Theorem CWD_MainModel_forward_shape (n num_classes h w : nat) :
  21 <= h -> 21 <= w ->
  CWD.forward (CWD.MainModel_init num_classes) [n; 1; h; w]
  = Some [n; num_classes] ∧
  CWD.forward (CWD.MainModel_init num_classes) [n; 1; 20; 20] = None.
Proof.
  intros Hh Hw. unfold CWD.forward.
  cbn [CWD.MainModel_init CWD.m_conv1 CWD.m1 CWD.m2 CWD.m3 CWD.fc1 CWD.fc2
       fst snd].
  split.
  - rewrite conv_7x7_shape by lia. cbn [mbind option_bind].
    set (h1 := h - 6). set (w1 := w - 6).
    assert (15 <= h1) by (unfold h1; lia).
    assert (15 <= w1) by (unfold w1; lia).
    pose proof (pooled_mono 15 h1 ltac:(done)) as Hh2.
    pose proof (pooled_mono 15 w1 ltac:(done)) as Hw2.
    change (CWD.pooled 15) with 7 in Hh2, Hw2.
    pose proof (pooled_ge _ Hh2). pose proof (pooled_ge _ Hw2).
    rewrite module_thing_forward_shape by lia. cbn [mbind option_bind].
    rewrite module_thing_forward_shape by lia. cbn [mbind option_bind].
    rewrite module_thing_forward_shape by lia. cbn [mbind option_bind].
    rewrite adaptive_avg_pool2d_ok by apply pooled_pos. reflexivity.
  - change (Shape.conv2d (CWD.conv 1 64 (7, 7) (0, 0)) [n; 1; 20; 20])
      with (Some [n; 64; 14; 14]).
    cbn [mbind option_bind].
    rewrite module_thing_forward_shape by lia. cbn [mbind option_bind].
    change (CWD.pooled 14) with 6.
    rewrite module_thing_forward_shape by lia. reflexivity.
Qed.

Lemma CWD_MainModel_forward_shape_witness :
  CWD.forward (CWD.MainModel_init 6) [1; 1; 64; 64] = Some [1; 6].
Proof.
  exact (proj1 (CWD_MainModel_forward_shape 1 6 64 64 ltac:(lia) ltac:(lia))).
Defined.

(** ** STFT-CNN [MainModel] on other image sizes *)

Lemma stft_features_shape (n num_classes h w : nat) :
  16 <= h -> 16 <= w ->
  STFT_CNN.forward_features (STFT_CNN.MainModel_init num_classes)
    [n; 3; h; w]
  = Some [n; 12; STFT_Extent.pooled h; STFT_Extent.pooled w].
Proof.
  intros Hh Hw. unfold STFT_CNN.forward_features.
  cbn -[Shape.window]. 
  assert (Hw1 : ∀ x, 16 <= x -> Shape.window x 5 1 0 = Some (x - 4)).
  { intros x Hx. rewrite window_ok by lia. f_equal.
    rewrite Nat.div_1_r. lia. }
  assert (Hw2 : ∀ x, 2 <= x -> Shape.window x 2 2 0 = Some (x / 2)).
  { intros x Hx. rewrite window_ok by lia. f_equal.
    pose proof (div2_bounds (x + 2 * 0 - 2)). pose proof (div2_bounds x).
    lia. }
  assert (Hw3 : ∀ x, 5 <= x -> Shape.window x 5 1 0 = Some (x - 4)).
  { intros x Hx. rewrite window_ok by lia. f_equal.
    rewrite Nat.div_1_r. lia. }
  assert (Hhalf : ∀ x, 16 <= x -> 6 <= (x - 4) / 2).
  { intros x Hx. pose proof (div2_bounds (x - 4)). lia. }
  pose proof (Hhalf h Hh). pose proof (Hhalf w Hw).
  rewrite !Hw1 by done. cbn -[Shape.window Nat.div Nat.sub].
  rewrite !Hw2 by lia. cbn -[Shape.window Nat.div Nat.sub].
  rewrite !Hw3 by lia. cbn -[Shape.window Nat.div Nat.sub].
  rewrite !Hw2 by lia. reflexivity.
Qed.

(** X4: on images of at least 16x16 pixels the STFT-CNN [MainModel] returns
    logits exactly when the pooled feature map has 7 * 7 = 49 positions
    (the [in_features=588] of [fc] is 12 * 49), and raises otherwise; square
    images are accepted exactly for sides 40 to 43. *)
Theorem STFT_MainModel_accepted_sizes (n num_classes : nat) :
  (∀ h w, 16 <= h -> 16 <= w ->
     STFT_CNN.forward (STFT_CNN.MainModel_init num_classes) [n; 3; h; w]
     = if decide (STFT_Extent.pooled h * STFT_Extent.pooled w = 49)
       then Some [n; num_classes] else None) ∧
  (∀ h,
     STFT_CNN.forward (STFT_CNN.MainModel_init num_classes) [n; 3; h; h]
     = Some [n; num_classes] <-> 40 <= h <= 43).
Proof.
  assert (Hgen : ∀ h w, 16 <= h -> 16 <= w ->
     STFT_CNN.forward (STFT_CNN.MainModel_init num_classes) [n; 3; h; w]
     = if decide (STFT_Extent.pooled h * STFT_Extent.pooled w = 49)
       then Some [n; num_classes] else None).
  { intros h w Hh Hw. unfold STFT_CNN.forward.
    rewrite stft_features_shape by done.
    cbn [mbind option_bind Shape.flatten foldr STFT_CNN.MainModel_init
         STFT_CNN.fc fst snd Shape.linear].
    set (p := STFT_Extent.pooled h). set (q := STFT_Extent.pooled w).
    destruct (decide (p * q = 49)) as [Heq|Hne].
    - replace (12 * (p * (q * 1))) with 588 by lia. reflexivity.
    - destruct (Nat.eqb_spec (12 * (p * (q * 1))) 588) as [Heq|_]; [lia|done]. }
  split; [exact Hgen|].
  intros h. destruct (le_lt_dec 16 h) as [Hh|Hh].
  - rewrite Hgen by done. unfold STFT_Extent.pooled.
    pose proof (div2_bounds (h - 4)).
    pose proof (div2_bounds ((h - 4) / 2 - 4)).
    set (p := ((h - 4) / 2 - 4) / 2) in *. clearbody p.
    destruct (decide (p * p = 49)) as [Heq|Hne].
    + assert (p = 7) by nia. split; [lia|done].
    + split; [done|]. intros Hr. exfalso. apply Hne.
      assert (p = 7) as -> by lia. done.
  - split; [|lia].
    do 16 (destruct h as [|h]; [by cbn|]). lia.
Qed.

Lemma STFT_MainModel_accepted_sizes_witness :
  STFT_CNN.forward (STFT_CNN.MainModel_init 6) [1; 3; 43; 41] = Some [1; 6].
Proof.
  exact (proj1 (STFT_MainModel_accepted_sizes 1 6) 43 41
           ltac:(lia) ltac:(lia)).
Defined.

(** ** The layout step of [prepare_dataloader] *)

(** X5: the layout step of [prepare_dataloader] keeps the element type, the
    device, the first dimension and the number of elements; it returns a
    4-D tensor for every 3-D or 4-D tensor; a 4-D tensor is permuted exactly
    when its last dimension is 1 or 3, so a tensor already in the layout
    [(N, C, H, W)] with width 1 or 3 is permuted to [(N, W, C, H)] and a
    tensor [(N, H, W, C)] with 2 or 4 channels stays as it is. *)
Theorem ensure_nchw_layout (x : Prep.Tensor) :
  Prep.t_dtype (Prep.ensure_nchw x) = Prep.t_dtype x ∧
  Prep.t_device (Prep.ensure_nchw x) = Prep.t_device x ∧
  head (Prep.t_shape (Prep.ensure_nchw x)) = head (Prep.t_shape x) ∧
  numel (Prep.t_shape (Prep.ensure_nchw x)) = numel (Prep.t_shape x) ∧
  (3 <= length (Prep.t_shape x) <= 4 ->
   length (Prep.t_shape (Prep.ensure_nchw x)) = 4) ∧
  (∀ n a b c, Prep.t_shape x = [n; a; b; c] ->
     Prep.t_shape (Prep.ensure_nchw x)
     = if decide (c = 1 ∨ c = 3) then [n; c; a; b] else [n; a; b; c]).
Proof.
  destruct x as [dt shape dev]. unfold Prep.ensure_nchw. cbn.
  destruct shape as [|n [|a [|b [|c [|d rest]]]]]; cbn.
  - split_and!; try done; intros; lia.
  - split_and!; try done; intros; lia.
  - split_and!; try done; intros; lia.
  - unfold Prep.unsqueeze1, numel. cbn. split_and!; try done; lia.
  - assert (Hc : (c =? 1) || (c =? 3) = bool_decide (c = 1 ∨ c = 3)).
    { destruct (Nat.eqb_spec c 1), (Nat.eqb_spec c 3); cbn;
        symmetry; first [by apply bool_decide_eq_true; auto
                        | apply bool_decide_eq_false; lia]. }
    rewrite Hc. unfold Prep.permute_0312, numel. cbn.
    destruct (bool_decide_reflect (c = 1 ∨ c = 3)) as [H|H]; cbn.
    + split_and!; try done; try lia.
      intros ? ? ? ? [= <- <- <- <-]. by rewrite decide_True.
    + split_and!; try done.
      intros ? ? ? ? [= <- <- <- <-]. by rewrite decide_False.
  - split_and!; try done. cbn. lia.
Qed.

Lemma ensure_nchw_layout_witness :
  Prep.t_shape (Prep.ensure_nchw Samples3.narrow_nchw) = [2; 3; 3; 40].
Proof.
  destruct (ensure_nchw_layout Samples3.narrow_nchw)
    as (_ & _ & _ & _ & _ & H).
  exact (H 2 3 40 3 eq_refl).
Defined.

(** X6: the layouts in which the three notebooks pass their pre-processed
    arrays to [prepare_dataloader] are turned into the layout their model
    accepts: [(N, 40, 40, 3)] for the STFT-CNN [MainModel], [(N, 64, 64, 3)]
    for [LDC_Unet], and [(N, 64, 64)] (grayscale) for the CWD-TFA
    [MainModel]. *)
Theorem dataloader_layout_fits_models (x : Prep.Tensor) (n num_classes : nat) :
  (Prep.t_shape x = [n; 40; 40; 3] ->
   STFT_CNN.forward (STFT_CNN.MainModel_init num_classes)
     (Prep.t_shape (Prep.ensure_nchw x)) = Some [n; num_classes]) ∧
  (Prep.t_shape x = [n; 64; 64; 3] ->
   LDC.LDC_Unet_forward LDC.LDC_Unet_init
     (Prep.t_shape (Prep.ensure_nchw x)) = Some [n; 3; 64; 64]) ∧
  (Prep.t_shape x = [n; 64; 64] ->
   CWD.forward (CWD.MainModel_init num_classes)
     (Prep.t_shape (Prep.ensure_nchw x)) = Some [n; num_classes]).
Proof.
  destruct x as [dt shape dev]. unfold Prep.ensure_nchw. cbn [Prep.t_shape].
  split_and!; intros ->.
  - reflexivity.
  - cbn [Nat.eqb orb Prep.permute_0312 Prep.t_shape].
    apply (LDC_Unet_forward_doubled n 2 2); lia.
  - cbn [Prep.unsqueeze1 Prep.t_shape]. unfold CWD.forward.
    cbn [CWD.MainModel_init CWD.m_conv1 CWD.m1 CWD.m2 CWD.m3 CWD.fc1 CWD.fc2
         fst snd].
    rewrite conv_7x7_shape by lia. cbn [mbind option_bind Nat.sub].
    rewrite module_thing_forward_shape by lia. cbn [mbind option_bind].
    change (CWD.pooled 58) with 28.
    rewrite module_thing_forward_shape by lia. cbn [mbind option_bind].
    change (CWD.pooled 28) with 13.
    rewrite module_thing_forward_shape by lia. reflexivity.
Qed.
Lemma dataloader_layout_fits_models_witness :
  STFT_CNN.forward (STFT_CNN.MainModel_init 6)
    (Prep.t_shape (Prep.ensure_nchw
       {| Prep.t_dtype := Prep.torch_float32;
          Prep.t_shape := [5; 40; 40; 3]; Prep.t_device := "cpu" |}))
  = Some [5; 6].
Proof.
  exact (proj1 (dataloader_layout_fits_models
                  {| Prep.t_dtype := Prep.torch_float32;
                     Prep.t_shape := [5; 40; 40; 3];
                     Prep.t_device := "cpu" |} 5 6) eq_refl).
Defined.

Lemma ensure_nchw_head (x : Prep.Tensor) (n : nat) (rest : list nat) :
  Prep.t_shape x = n :: rest ->
  ∃ rest', Prep.t_shape (Prep.ensure_nchw x) = n :: rest'.
Proof.
  destruct x as [dt shape dev]. cbn. intros ->. unfold Prep.ensure_nchw. cbn.
  destruct rest as [|a [|b [|c [|d rest]]]]; cbn; try by eexists.
  destruct ((c =? 1) || (c =? 3)); cbn; by eexists.
Qed.

Lemma Torch_tensor_numeric (a : ndarray) (dt : Prep.torch_dtype) :
  nd_dtype a ≠ np_str -> nd_dtype a ≠ np_object ->
  Prep.Torch_tensor a dt
  = inr {| Prep.t_dtype := dt; Prep.t_shape := nd_shape a;
           Prep.t_device := "cpu" |}.
Proof. intros. unfold Prep.Torch_tensor. by destruct (nd_dtype a). Qed.


(** ** More on the training loop *)

Lemma Qltb_lt (x y : Q) : Qltb x y = true <-> (x < y)%Q.
Proof.
  unfold Qltb. rewrite negb_true_iff. split.
  - intros H. apply Qnot_le_lt. intros Hle.
    apply Qle_bool_iff in Hle. congruence.
  - intros H. destruct (Qle_bool y x) eqn:E; [|done].
    apply Qle_bool_iff in E. apply Qle_not_lt in E. done.
Qed.

Section TrainMore.
Import Train.
Variable nb : notebook.
Variable n_batches : nat.
Variable batch_loss : nat -> nat -> Q.
Variable scheduler : bool.
Variable min_delta : Q.

Local Abbreviation avg_loss := (avg_loss n_batches batch_loss).
Local Abbreviation improves := (improves n_batches batch_loss min_delta).
Local Abbreviation best_before := (best_before n_batches batch_loss min_delta).
Local Abbreviation stale_count := (stale_count n_batches batch_loss min_delta).
Local Abbreviation triggers p := (triggers n_batches batch_loss p min_delta).
Local Abbreviation stop_epoch p :=
  (stop_epoch n_batches batch_loss p min_delta).

Lemma first_epoch_improves : improves 0 = true.
Proof. reflexivity. Qed.

Lemma stale_count_le e : (stale_count (S e) <= Z.of_nat e)%Z.
Proof.
  induction e as [|e IH].
  - cbn [Train.stale_count]. by rewrite first_epoch_improves.
  - change (stale_count (S (S e)))
      with (if improves (S e) then 0%Z else (stale_count (S e) + 1)%Z).
    destruct (improves (S e)); lia.
Qed.

Lemma triggers_late p e :
  triggers p e = true -> (Z.max 1 p <= Z.of_nat e)%Z.
Proof.
  unfold Train.triggers. rewrite andb_true_iff, negb_true_iff, Z.leb_le.
  intros [Himp Hp]. pose proof (stale_count_le e).
  destruct e as [|e]; [by rewrite first_epoch_improves in Himp|]. lia.
Qed.

Lemma triggers_small_patience p e :
  (p <= 1)%Z -> triggers p e = negb (improves e).
Proof.
  intros Hp. unfold Train.triggers.
  change (stale_count (S e))
    with (if improves e then 0%Z else (stale_count e + 1)%Z).
  destruct (improves e); [done|]. cbn.
  pose proof (stale_count_nonneg n_batches batch_loss min_delta e).
  apply Z.leb_le. lia.
Qed.

Lemma stop_epoch_small_patience p k : forall e,
  (p <= 1)%Z -> stop_epoch p e k = stop_epoch 1 e k.
Proof.
  induction k as [|k IH]; intros e Hp; cbn [Train.stop_epoch]; [done|].
  rewrite !triggers_small_patience by lia. by rewrite IH.
Qed.

Lemma train_model_empty p epochs :
  train_model nb 0 batch_loss scheduler p min_delta epochs
  = match epochs with 0 => inr initial | S _ => inl ZeroDivisionError end.
Proof. by destruct epochs. Qed.

(** The running best is one of the averages seen, and no average seen
    undercuts it by more than [min_delta]. *)
Lemma best_before_spec e :
  (0 <= min_delta)%Q ->
  ∃ i, i <= e ∧ best_before (S e) = Fin (avg_loss i) ∧
       ∀ j, j <= e -> (avg_loss i - min_delta <= avg_loss j)%Q.
Proof.
  intros Hmd. induction e as [|e (i & Hi & Hb & Hall)].
  - exists 0. split; [lia|]. split; [reflexivity|].
    intros j Hj. assert (j = 0) as -> by lia. lra.
  - change (best_before (S (S e)))
      with (if improved (avg_loss (S e)) (best_before (S e)) min_delta
            then Fin (avg_loss (S e)) else best_before (S e)).
    rewrite Hb. cbn [improved].
    destruct (Qltb (avg_loss (S e)) (avg_loss i - min_delta)) eqn:Hlt.
    + apply Qltb_lt in Hlt. exists (S e). split; [lia|]. split; [done|].
      intros j Hj. destruct (decide (j = S e)) as [->|Hne]; [lra|].
      specialize (Hall j ltac:(lia)). lra.
    + exists i. split; [lia|]. split; [done|].
      intros j Hj. destruct (decide (j = S e)) as [->|Hne].
      * destruct (Qlt_le_dec (avg_loss (S e)) (avg_loss i - min_delta))
          as [Hl|Hl]; [|done].
        apply Qltb_lt in Hl. congruence.
      * apply Hall. lia.
Qed.
End TrainMore.



(** X9: a [patience] of 1, 0 or any negative number gives the same run:
    training stops at the end of the first epoch that fails to improve. *)
Theorem train_model_small_patience
    (nb : Train.notebook) (n_batches : nat) (batch_loss : nat -> nat -> Q)
    (scheduler : bool) (patience : Z) (min_delta : Q) (epochs : nat) :
  (patience <= 1)%Z ->
  Train.train_model nb n_batches batch_loss scheduler patience min_delta
    epochs
  = Train.train_model nb n_batches batch_loss scheduler 1 min_delta epochs ∧
  (n_batches ≠ 0 ->
   ∃ s, Train.train_model nb n_batches batch_loss scheduler patience
          min_delta epochs = inr s ∧
     ∀ e, S e < length (Train.loss_history s) ->
          Train.improves n_batches batch_loss min_delta e = true).
Proof.
  intros Hp. split.
  - destruct (decide (n_batches = 0)) as [->|Hn].
    + by rewrite !train_model_empty.
    + rewrite !train_model_final by done.
      by rewrite stop_epoch_small_patience.
  - intros Hn. rewrite train_model_final by done. eexists. split; [done|].
    unfold Train.state_at. cbn [Train.loss_history].
    rewrite length_map, length_seq. intros e He.
    pose proof (stop_epoch_first n_batches batch_loss patience min_delta
                  epochs 0 e ltac:(lia) He) as Ht.
    rewrite triggers_small_patience in Ht by done.
    by apply negb_false_iff in Ht.
Qed.

Lemma train_model_small_patience_witness :
  Train.train_model Train.STFT_CNN 1 Samples.three_epochs true (-2) 0 3
  = Train.train_model Train.STFT_CNN 1 Samples.three_epochs true 1 0 3.
Proof.
  exact (proj1 (train_model_small_patience Train.STFT_CNN 1
                  Samples.three_epochs true (-2) 0 3 ltac:(lia))).
Defined.





(** ** More on [SSRLoss.forward] *)

Lemma Qsum_all_zero (l : list Q) : Forall (fun v => v == 0) l -> Qsum l == 0.
Proof.
  unfold Qsum. induction 1 as [|v l Hv _ IH]; cbn [foldr]; [reflexivity|].
  rewrite Hv, IH. ring.
Qed.

Lemma Qmean_nonneg (l : list Q) :
  Forall (fun v => 0 <= v)%Q l -> (0 <= Qmean l)%Q.
Proof.
  intros H. unfold Qmean, Qdiv. apply Qmult_le_0_compat.
  - by apply Qsum_nonneg.
  - apply Qinv_le_0_compat. unfold Qle. cbn. lia.
Qed.

Section SSRMore.
Import SSR.
Variable cross_entropy : tensor2 -> list nat -> option Q.

Lemma forward_value (self : SSRLoss) features labels logits ce :
  features ≠ [] -> 0 < feature_dim self ->
  length labels = length features ->
  Forall (fun r => length r = feature_dim self) features ->
  Forall (fun l => l < length (centers self)) labels ->
  Forall (fun r => length r = feature_dim self) (centers self) ->
  cross_entropy logits labels = Some ce ->
  forward cross_entropy self features labels logits
  = Some (ce + lambda_reg self
               * Qmean (concat (SSR2.abs_rows self features labels)))%Q.
Proof.
  intros Hne Hd Hlen Hfs Hl Hcs Hce. unfold forward. rewrite Hce.
  cbn [mbind option_bind]. rewrite index_rows_nth by done.
  cbn [mbind option_bind].
  rewrite tensor_sub_zip; cycle 1.
  { apply Forall2_same_length_lookup_2.
    - by rewrite length_map.
    - intros i a b Ha Hb. rewrite list_lookup_fmap in Hb.
      destruct (labels !! i) as [l|] eqn:Hli; [|done]. cbn in Hb.
      injection Hb as <-.
      rewrite Forall_forall in Hfs. rewrite Forall_forall in Hl.
      rewrite Forall_forall in Hcs.
      rewrite (Hfs a) by (eapply list_elem_of_lookup_2; done).
      symmetry. apply Hcs, list_elem_of_In, nth_In, Hl.
      eapply list_elem_of_lookup_2; done. }
  cbn [mbind option_bind].
  rewrite (abs_rows_by_index _ (feature_dim self)) by done.
  unfold torch_mean. fold (SSR2.abs_rows self features labels).
  set (rows := SSR2.abs_rows self features labels).
  assert (Hnum : length (concat rows) = length features * feature_dim self).
  { rewrite (length_concat_uniform _ (feature_dim self)).
    - unfold rows, SSR2.abs_rows. by rewrite length_map, length_seq.
    - apply Forall_forall. intros r Hr. unfold rows, SSR2.abs_rows in Hr.
      apply list_elem_of_fmap in Hr as (i & -> & _).
      by rewrite length_map, length_seq. }
  destruct (Nat.eqb_spec (length (concat rows)) 0) as [Hz|_]; [|done].
  rewrite Hnum in Hz. destruct features; [done|]. cbn in Hz. lia.
Qed.
End SSRMore.

(** X12: on well-shaped arguments the regularisation term of [SSRLoss] is
    never negative: for [lambda_reg >= 0] the loss is at least the
    cross-entropy, and it is exactly the cross-entropy when every feature
    vector equals the center of its class. *)
Theorem SSRLoss_at_least_cross_entropy
    (cross_entropy : SSR.tensor2 -> list nat -> option Q)
    (self : SSR.SSRLoss) (features : SSR.tensor2) (labels : list nat)
    (logits : SSR.tensor2) (ce : Q) :
  features ≠ [] -> 0 < SSR.feature_dim self ->
  length labels = length features ->
  Forall (fun r => length r = SSR.feature_dim self) features ->
  Forall (fun l => l < length (SSR.centers self)) labels ->
  Forall (fun r => length r = SSR.feature_dim self) (SSR.centers self) ->
  cross_entropy logits labels = Some ce ->
  ∃ loss,
    SSR.forward cross_entropy self features labels logits = Some loss ∧
    ((0 <= SSR.lambda_reg self)%Q -> (ce <= loss)%Q) ∧
    ((∀ i j, i < length features -> j < SSR.feature_dim self ->
        nth j (nth i features []) 0%Q
        == nth j (nth (nth i labels 0) (SSR.centers self) []) 0%Q) ->
     loss == ce).
Proof.
  intros Hne Hd Hlen Hfs Hl Hcs Hce.
  rewrite (forward_value cross_entropy self features labels logits ce)
    by done.
  eexists. split; [done|]. split.
  - intros Hlam.
    enough (0 <= Qmean (concat (SSR2.abs_rows self features labels)))%Q as Hm by nra.
    apply Qmean_nonneg, Forall_forall. intros v Hv. unfold SSR2.abs_rows in Hv.
    apply list_elem_of_In, in_concat in Hv as (row & Hrow & Hv).
    apply in_map_iff in Hrow as (i & <- & _).
    apply in_map_iff in Hv as (j & <- & _). apply Qabs_nonneg.
  - intros Heq.
    enough (Qmean (concat (SSR2.abs_rows self features labels)) == 0) as Hm
      by (rewrite Hm; ring).
    unfold Qmean. rewrite Qsum_all_zero; [unfold Qdiv; ring|].
    apply Forall_forall. intros v Hv. unfold SSR2.abs_rows in Hv.
    apply list_elem_of_In, in_concat in Hv as (row & Hrow & Hv).
    apply in_map_iff in Hrow as (i & <- & Hi).
    apply in_map_iff in Hv as (j & <- & Hj).
    apply in_seq in Hi, Hj. rewrite (Heq i j) by lia.
    assert (H0 : ∀ q : Q, q - q == 0) by (intros; ring).
    rewrite H0. reflexivity.
Qed.

Lemma SSRLoss_at_least_cross_entropy_witness :
  ∃ loss,
    SSR.forward Samples.unit_cross_entropy Samples.ssr Samples.features
      Samples.labels Samples.logits = Some loss ∧ (1 <= loss)%Q.
Proof.
  destruct (SSRLoss_at_least_cross_entropy Samples.unit_cross_entropy
              Samples.ssr Samples.features Samples.labels Samples.logits 1)
    as (loss & Hf & Hle & _).
  - done.
  - cbn. lia.
  - reflexivity.
  - repeat constructor.
  - repeat constructor.
  - repeat constructor.
  - reflexivity.
  - exists loss. split; [exact Hf|]. apply Hle. done.
Defined.


(** ** The evaluation loop *)

Section EvalFacts.
Import Eval.
Context {A : Type}.
Implicit Types (s : sample A) (st : totals A).

(** The pair zipped with the predictions for a sample. *)
Local Abbreviation kept s := (image s, default 0 (argmax (output s))).

Lemma argmax_rows (batch : list (sample A)) :
  Forall (fun s => output s ≠ []) batch ->
  mapM (fun s => argmax (output s)) batch
  = Some (map (fun s => default 0 (argmax (output s))) batch).
Proof.
  induction 1 as [|s batch Hs _ IH]; [done|].
  cbn. rewrite IH. destruct (output s) as [|v row] eqn:Ho; [done|]. done.
Qed.

Lemma hits_zip (batch : list (sample A)) :
  length (filter (fun pl : nat * Z => Z.of_nat pl.1 = pl.2)
            (zip (map (fun s => default 0 (argmax (output s))) batch)
                 (map label batch)))
  = hits batch.
Proof.
  unfold hits, predicted. induction batch as [|s batch IH]; [done|].
  cbn [map zip zip_with]. rewrite !filter_cons. cbn [fst snd].
  destruct (decide (Z.of_nat (default 0 (argmax (output s))) = label s));
    cbn [length]; by rewrite IH.
Qed.

Lemma hits_app (l k : list (sample A)) : hits (l ++ k) = hits l + hits k.
Proof. unfold hits. by rewrite filter_app, length_app. Qed.

Lemma batches_loop_spec (batches : list (list (sample A))) : forall st,
  Forall (fun s => output s ≠ []) (concat batches) ->
  batches_loop st batches
  = Some {| y_true := y_true st ++ map label (concat batches);
            y_pred := y_pred st ++ map predicted (concat batches);
            correct := correct st + hits (concat batches);
            total := total st + length (concat batches);
            class_images :=
              foldl keep_first (class_images st)
                (map (fun s => kept s) (concat batches)) |}.
Proof.
  induction batches as [|batch batches IH]; intros st Hne.
  - cbn. rewrite !app_nil_r, !Nat.add_0_r. by destruct st.
  - cbn [concat] in Hne. apply Forall_app in Hne as [Hb Hrest].
    cbn [batches_loop]. unfold batch_step. rewrite argmax_rows by done.
    cbn [mbind option_bind]. rewrite IH by done. cbn [concat].
    cbn [y_true y_pred correct total class_images].
    rewrite hits_zip, !map_app, hits_app, length_app, !length_map, foldl_app.
    rewrite <- !app_assoc, !Nat.add_assoc. do 2 f_equal.
    + by rewrite map_map.
    + do 2 f_equal. clear. induction batch as [|s batch IH]; [done|].
      cbn. by rewrite IH.
Qed.
End EvalFacts.

Section MatrixFacts.
Import Confusion Eval.

Lemma diag_lookup (g : Z -> Z -> nat) (L : list Z) :
  imap (fun i row => nth i row 0) (map (fun t => map (g t) L) L)
  = map (fun t => g t t) L.
Proof.
  apply list_eq. intros i.
  rewrite list_lookup_imap, !list_lookup_fmap.
  destruct (L !! i) as [t|] eqn:Hi; [|done]. cbn. f_equal.
  by rewrite nth_lookup, list_lookup_fmap, Hi.
Qed.

Lemma diag_counts (L : list Z) (samples : list (Z * Z)) :
  NoDup L -> (∀ s, s ∈ samples -> s.1 ∈ L) ->
  foldr Nat.add 0 (map (fun t => count_pairs t t samples) L)
  = length (filter (fun s => s.1 = s.2) samples).
Proof.
  intros HL. induction samples as [|[a b] samples IH]; intros Hin.
  - unfold count_pairs. cbn. clear. induction L; [done|]. cbn. done.
  - assert (Ha : a ∈ L) by (apply (Hin (a, b)); left).
    assert (Hin' : ∀ s, s ∈ samples -> s.1 ∈ L)
      by (intros s Hs; apply Hin; by right).
    specialize (IH Hin'). rewrite filter_cons. cbn [fst snd].
    destruct (decide (a = b)) as [->|Hne].
    + cbn [length]. rewrite <- IH.
      rewrite <- (sum_indicator b (fun t => count_pairs t t samples) L)
        by done.
      f_equal. apply map_ext. intros t. unfold count_pairs.
      rewrite filter_cons.
      destruct (decide (b = t)) as [->|Hbt].
      * by rewrite decide_True.
      * rewrite decide_False by congruence. done.
    + rewrite <- IH. f_equal. apply map_ext. intros t. unfold count_pairs.
      rewrite filter_cons. rewrite decide_False by congruence. done.
Qed.

Lemma first_counts (L : list Z) (samples : list (Z * Z)) :
  NoDup L -> (∀ s, s ∈ samples -> s.1 ∈ L) ->
  foldr Nat.add 0
    (map (fun t => length (filter (fun s : Z * Z => s.1 = t) samples)) L)
  = length samples.
Proof.
  intros HL. induction samples as [|[a b] samples IH]; intros Hin.
  - cbn. clear. induction L; [done|]. cbn. done.
  - assert (Ha : a ∈ L) by (apply (Hin (a, b)); left).
    assert (Hin' : ∀ s, s ∈ samples -> s.1 ∈ L)
      by (intros s Hs; apply Hin; by right).
    specialize (IH Hin'). cbn [length]. rewrite <- IH.
    rewrite <- (sum_indicator a
                  (fun t => length (filter (fun s : Z * Z => s.1 = t) samples))
                  L) by done.
    f_equal. apply map_ext. intros t. rewrite filter_cons. cbn [fst].
    destruct (decide (a = t)); done.
Qed.

Lemma occurrences_zip (t : Z) (ys ps : list Z) :
  length ys = length ps ->
  length (filter (fun s : Z * Z => s.1 = t) (zip ys ps)) = occurrences t ys.
Proof.
  unfold occurrences. revert ps.
  induction ys as [|y ys IH]; intros [|p ps] Hlen; try done.
  cbn [zip zip_with]. rewrite !filter_cons. cbn [fst].
  destruct (decide (y = t)); cbn [length]; rewrite IH; auto.
Qed.

Lemma occurrences_zero (t : Z) (ys : list Z) :
  occurrences t ys = 0 <-> t ∉ ys.
Proof.
  unfold occurrences. induction ys as [|y ys IH].
  - split; [intros _; apply not_elem_of_nil | done].
  - rewrite filter_cons, not_elem_of_cons.
    destruct (decide (y = t)) as [->|Hne]; cbn [length].
    + split; [done | by intros [? _]].
    + rewrite IH. split; [by intros ?; split | by intros [_ ?]].
Qed.

Lemma confusion_matrix_rows (y_true y_pred : list Z) :
  length y_true = length y_pred ->
  confusion_matrix y_true y_pred
  = Some (map (fun t =>
            map (fun p => count_pairs t p (zip y_true y_pred))
              (unique_labels y_true y_pred))
            (unique_labels y_true y_pred)).
Proof.
  intros Hlen. unfold confusion_matrix. by rewrite Hlen, Nat.eqb_refl.
Qed.

Lemma zip_first_in_labels (y_true y_pred : list Z) s :
  s ∈ zip y_true y_pred -> s.1 ∈ unique_labels y_true y_pred.
Proof.
  destruct s as [a b]. intros Hs. apply elem_of_unique_labels. left.
  by apply elem_of_zip_l in Hs.
Qed.

Lemma zip_second_in_labels (y_true y_pred : list Z) s :
  s ∈ zip y_true y_pred -> s.2 ∈ unique_labels y_true y_pred.
Proof.
  destruct s as [a b]. intros Hs. apply elem_of_unique_labels. right.
  by apply elem_of_zip_r in Hs.
Qed.

Lemma sum_axis1_counts (y_true y_pred : list Z) :
  length y_true = length y_pred ->
  sum_axis1 (map (fun t =>
               map (fun p => count_pairs t p (zip y_true y_pred))
                 (unique_labels y_true y_pred))
               (unique_labels y_true y_pred))
  = map (fun t => occurrences t y_true) (unique_labels y_true y_pred).
Proof.
  intros Hlen. unfold sum_axis1. rewrite map_map. apply map_ext. intros t.
  rewrite row_sum_counts.
  - by apply occurrences_zip.
  - apply unique_labels_NoDup.
  - apply zip_second_in_labels.
Qed.
End MatrixFacts.

(** X14: each row sum of the confusion matrix is the number of samples
    whose true label is the label of that row, and the entries add up to the
    number of samples; so the row of a class is all zero, and the
    normalisation divides by zero there, exactly when the class is predicted
    but never occurs as a true label. *)
Theorem confusion_matrix_row_sums (y_true y_pred : list Z) :
  length y_true = length y_pred ->
  ∃ cm,
    Confusion.confusion_matrix y_true y_pred = Some cm ∧
    Confusion.sum_axis1 cm
    = map (fun t => Eval.occurrences t y_true)
        (Confusion.unique_labels y_true y_pred) ∧
    Eval.grand_total cm = length y_true ∧
    ∀ i t, Confusion.unique_labels y_true y_pred !! i = Some t ->
      (Confusion.sum_axis1 cm !! i = Some 0 <->
       (¬ t ∈ y_true) ∧ t ∈ y_pred).
Proof.
  intros Hlen. rewrite confusion_matrix_rows by done. eexists.
  split; [done|]. rewrite sum_axis1_counts by done. split_and!.
  - done.
  - unfold Eval.grand_total. rewrite sum_axis1_counts by done.
    assert (Hz : length (zip y_true y_pred) = length y_true)
      by (apply length_zip_with_l_eq; lia).
    rewrite <- Hz.
    rewrite <- (first_counts (Confusion.unique_labels y_true y_pred)
                  (zip y_true y_pred)).
    + f_equal. apply map_ext. intros t. symmetry. by apply occurrences_zip.
    + apply unique_labels_NoDup.
    + apply zip_first_in_labels.
  - intros i t Hi. rewrite list_lookup_fmap, Hi. cbn.
    assert (Hin : t ∈ y_true ∨ t ∈ y_pred).
    { apply elem_of_unique_labels. by eapply list_elem_of_lookup_2. }
    split.
    + intros [= H0]. apply occurrences_zero in H0. split; [done|].
      by destruct Hin.
    + intros [Hno _]. f_equal. by apply occurrences_zero.
Qed.

Lemma confusion_matrix_row_sums_witness :
  ∃ cm,
    Confusion.confusion_matrix [0; 0; 1]%Z [0; 2; 1]%Z = Some cm ∧
    Confusion.sum_axis1 cm = [2; 1; 0].
Proof.
  destruct (confusion_matrix_row_sums [0; 0; 1]%Z [0; 2; 1]%Z eq_refl)
    as (cm & Hcm & Hsum & _).
  exists cm. split; [exact Hcm|]. rewrite Hsum. reflexivity.
Defined.

Section EvaluateFacts.
Import Eval.
Context {A : Type}.

Lemma zip_labels_predictions (samples : list (sample A)) :
  zip (map label samples) (map predicted samples)
  = map (fun s => (label s, predicted s)) samples.
Proof. induction samples as [|s l IH]; [done|]. cbn. by rewrite IH. Qed.

Lemma hits_pairs (samples : list (sample A)) :
  length (filter (fun s : Z * Z => s.1 = s.2)
            (map (fun s => (label s, predicted s)) samples))
  = hits samples.
Proof.
  unfold hits. induction samples as [|s l IH]; [done|].
  cbn [map]. rewrite !filter_cons. cbn [fst snd].
  destruct (decide (label s = predicted s)) as [Heq|Hne].
  - rewrite decide_True by done. cbn [length]. by rewrite IH.
  - by rewrite decide_False by congruence.
Qed.

Lemma hits_le (samples : list (sample A)) : hits samples <= length samples.
Proof. unfold hits. apply length_filter. Qed.

Lemma keep_first_get (c : Z) (samples : list (sample A)) : forall d : dict Z A,
  PyDict.get c
    (foldl keep_first d
       (map (fun s => (image s, default 0 (argmax (output s)))) samples))
  = match PyDict.get c d with
    | Some v => Some v
    | None => (fun x : nat * sample A => image x.2)
              <$> list_find (fun s => predicted s = c) samples
    end.
Proof.
  induction samples as [|s l IH]; intros d; cbn [foldl map].
  - by destruct (PyDict.get c d).
  - rewrite IH. unfold keep_first. cbn [fst snd list_find].
    fold (predicted s).
    destruct (decide (predicted s = c)) as [<-|Hne].
    + destruct (PyDict.get (predicted s) d) as [v|] eqn:Hd.
      * by rewrite Hd.
      * by rewrite get_set_eq.
    + destruct (PyDict.get (predicted s) d) as [v|] eqn:Hd.
      * destruct (PyDict.get c d); [done|].
        by destruct (list_find _ l) as [[i x]|].
      * rewrite get_set_ne by done.
        destruct (PyDict.get c d); [done|].
        by destruct (list_find _ l) as [[i x]|].
Qed.
End EvaluateFacts.

(** X15: when no output row is empty, [evaluate_model] raises
    [ZeroDivisionError] on a loader without samples, and otherwise reports
    the accuracy [100 * hits / N], between 0 and 100, where [hits] counts the
    samples whose first maximal logit is at their label; the diagonal of the
    confusion matrix adds up to [hits] and all its entries to [N]. *)
Theorem evaluate_model_accuracy {A : Type}
    (test_loader : list (list (Eval.sample A))) :
  Forall (fun s => Eval.output s ≠ []) (concat test_loader) ->
  let samples := concat test_loader in
  (samples = [] -> Eval.evaluate_model test_loader = inl ZeroDivisionError) ∧
  (samples ≠ [] ->
   ∃ r, Eval.evaluate_model test_loader = inr r ∧
     Eval.accuracy r
     == 100 * inject_Z (Z.of_nat (Eval.hits samples))
        / inject_Z (Z.of_nat (length samples)) ∧
     (0 <= Eval.accuracy r)%Q ∧ (Eval.accuracy r <= 100)%Q ∧
     Eval.trace (Eval.cm r) = Eval.hits samples ∧
     Eval.grand_total (Eval.cm r) = length samples).
Proof.
  intros Hne. cbn zeta. unfold Eval.evaluate_model.
  rewrite batches_loop_spec by done.
  cbn [Eval.total Eval.correct Eval.y_true Eval.y_pred Eval.class_images
       Eval.start app Nat.add].
  set (samples := concat test_loader). split.
  - intros ->. done.
  - intros Hs.
    assert (Hlen : 0 < length samples) by (destruct samples; [done|cbn; lia]).
    destruct (Nat.eqb_spec (length samples) 0) as [|_]; [lia|].
    rewrite confusion_matrix_rows by (by rewrite !length_map).
    eexists. split; [done|]. cbn [Eval.accuracy Eval.cm].
    pose proof (hits_le samples) as Hle.
    assert (Hpos : (0 < inject_Z (Z.of_nat (length samples)))%Q)
      by (unfold Qlt; cbn; lia).
    split_and!.
    + reflexivity.
    + apply Qle_shift_div_l; [done|]. rewrite Qmult_0_l.
      apply Qmult_le_0_compat; [done|]. unfold Qle. cbn. lia.
    + apply Qle_shift_div_r; [done|]. apply Qmult_le_l; [done|].
      rewrite <- Zle_Qle. lia.
    + unfold Eval.trace. rewrite diag_lookup, diag_counts.
      * rewrite zip_labels_predictions. apply hits_pairs.
      * apply unique_labels_NoDup.
      * apply zip_first_in_labels.
    + unfold Eval.grand_total. rewrite sum_axis1_counts by (by rewrite !length_map).
      assert (Hz : length (zip (map Eval.label samples)
                             (map Eval.predicted samples)) = length samples).
      { rewrite length_zip_with_l_eq; by rewrite !length_map. }
      transitivity (length (zip (map Eval.label samples)
                             (map Eval.predicted samples))); [|exact Hz].
      rewrite <- (first_counts
                    (Confusion.unique_labels (map Eval.label samples)
                       (map Eval.predicted samples))
                    (zip (map Eval.label samples)
                       (map Eval.predicted samples))).
      * f_equal. apply map_ext. intros t. symmetry.
        apply occurrences_zip. by rewrite !length_map.
      * apply unique_labels_NoDup.
      * apply zip_first_in_labels.
Qed.

Lemma evaluate_model_accuracy_witness :
  ∃ r, Eval.evaluate_model Samples4.test_loader = inr r ∧
       Eval.accuracy r == 200 # 3.
Proof.
  destruct (evaluate_model_accuracy Samples4.test_loader) as [_ H].
  - repeat constructor; discriminate.
  - destruct H as (r & Hr & Hacc & _); [discriminate|].
    exists r. split; [exact Hr|]. rewrite Hacc. vm_compute. reflexivity.
Defined.

(** X16: after the evaluation loop the dictionary [class_images] holds,
    for every class that was predicted at least once, the item of the first
    sample (in loader order) predicted as that class, and nothing for the
    other classes. *)
Theorem evaluate_model_class_images {A : Type}
    (test_loader : list (list (Eval.sample A))) :
  Forall (fun s => Eval.output s ≠ []) (concat test_loader) ->
  concat test_loader ≠ [] ->
  ∃ r, Eval.evaluate_model test_loader = inr r ∧
    ∀ c : Z,
      PyDict.get c (Eval.images r)
      = (fun x : nat * Eval.sample A => Eval.image x.2)
        <$> list_find (fun s => Eval.predicted s = c) (concat test_loader).
Proof.
  intros Hne Hs. unfold Eval.evaluate_model.
  rewrite batches_loop_spec by done.
  cbn [Eval.total Eval.correct Eval.y_true Eval.y_pred Eval.class_images
       Eval.start app Nat.add].
  destruct (Nat.eqb_spec (length (concat test_loader)) 0) as [H0|_].
  { destruct (concat test_loader); [done|cbn in H0; lia]. }
  rewrite confusion_matrix_rows by (by rewrite !length_map).
  eexists. split; [done|]. cbn [Eval.images]. intros c.
  by rewrite keep_first_get.
Qed.


Lemma evaluate_model_class_images_witness :
  ∃ r, Eval.evaluate_model Samples4.test_loader = inr r ∧
       PyDict.get 0%Z (Eval.images r) = Some "a"%string ∧
       PyDict.get 1%Z (Eval.images r) = Some "b"%string ∧
       PyDict.get 2%Z (Eval.images r) = None.
Proof.
  destruct (evaluate_model_class_images Samples4.test_loader)
    as (r & Hr & Himg).
  - repeat constructor; discriminate.
  - discriminate.
  - exists r. split; [exact Hr|]. rewrite !Himg. by vm_compute.
Defined.

(** X17: the CWD-TFA [evaluate_model] names [len(set(y_true))] classes
    while the confusion matrix has one row per label of [y_true] or
    [y_pred]: the names are never more than the rows, and they are as many
    exactly when every predicted class also occurs as a true class. *)
Theorem evaluate_model_class_names_fit (y_true y_pred : list Z) cm :
  Confusion.confusion_matrix y_true y_pred = Some cm ->
  Eval.distinct_true y_true <= length cm ∧
  (Eval.distinct_true y_true = length cm <-> ∀ p, p ∈ y_pred -> p ∈ y_true).
Proof.
  unfold Confusion.confusion_matrix.
  destruct (length y_true =? length y_pred); [|done].
  intros [= <-]. rewrite length_map. unfold Eval.distinct_true.
  assert (Hsub : remove_dups y_true ⊆+ Confusion.unique_labels y_true y_pred).
  { apply NoDup_submseteq; [apply NoDup_remove_dups|].
    intros x Hx. apply elem_of_unique_labels. left.
    by rewrite elem_of_remove_dups in Hx. }
  split; [by apply submseteq_length|]. split.
  - intros Hlen p Hp.
    assert (Hperm : remove_dups y_true
                    ≡ₚ Confusion.unique_labels y_true y_pred)
      by (apply submseteq_length_Permutation; [done|lia]).
    apply elem_of_remove_dups. rewrite Hperm.
    apply elem_of_unique_labels. by right.
  - intros Hp. apply Nat.le_antisymm; [by apply submseteq_length|].
    apply submseteq_length, NoDup_submseteq; [apply unique_labels_NoDup|].
    intros x Hx. apply elem_of_remove_dups.
    apply elem_of_unique_labels in Hx as [Hx|Hx]; [done|by apply Hp].
Qed.

Lemma evaluate_model_class_names_fit_witness :
  ∃ cm, Confusion.confusion_matrix [0; 0; 1]%Z [0; 2; 1]%Z = Some cm ∧
        Eval.distinct_true [0; 0; 1]%Z <= length cm.
Proof.
  eexists. split; [reflexivity|].
  eapply (evaluate_model_class_names_fit [0; 0; 1]%Z [0; 2; 1]%Z).
  reflexivity.
Defined.

(** ** The normalisation loop of [pre_processing] in closed form *)

Local Open Scope Q_scope.

Lemma inject_length_cons (t : Q) (x : list Q) :
  inject_Z (Z.of_nat (length (t :: x))) == inject_Z (Z.of_nat (length x)) + 1.
Proof.
  cbn [length]. rewrite Nat2Z.inj_succ. unfold Z.succ.
  rewrite inject_Z_plus. reflexivity.
Qed.

Lemma inject_length_nonzero (x : list Q) :
  x ≠ [] -> ¬ inject_Z (Z.of_nat (length x)) == 0.
Proof.
  destruct x as [|t x]; [done|]. intros _. unfold Qeq. cbn. lia.
Qed.

Lemma Qsum_rel (f : Q -> Q) (y x : list Q) :
  Forall2 (fun w t => w == f t) y x -> Qsum y == Qsum (map f x).
Proof.
  unfold Qsum. induction 1 as [|w t y x Hw _ IH]; cbn [map foldr].
  - reflexivity.
  - rewrite Hw, IH. reflexivity.
Qed.

Lemma Qsum_linear (a c : Q) (x : list Q) :
  Qsum (map (fun t => a * t + c) x)
  == a * Qsum x + inject_Z (Z.of_nat (length x)) * c.
Proof.
  induction x as [|t x IH].
  - unfold Qsum. cbn. ring.
  - rewrite inject_length_cons. unfold Qsum in *. cbn [map foldr].
    rewrite IH. ring.
Qed.

Lemma Qsum_scale_l (k : Q) (g : Q -> Q) (x : list Q) :
  Qsum (map (fun t => k * g t) x) == k * Qsum (map g x).
Proof.
  unfold Qsum. induction x as [|t x IH]; cbn [map foldr]; [ring|].
  rewrite IH. ring.
Qed.

Lemma Qsum_mean (x : list Q) :
  x ≠ [] -> Qsum x == inject_Z (Z.of_nat (length x)) * Qmean x.
Proof.
  intros Hx. apply inject_length_nonzero in Hx. unfold Qmean. by field.
Qed.

Lemma nonconstant_nonempty (x : list Q) : PreProcess.nonconstant x -> x ≠ [].
Proof. intros (a & b & Ha & _) ->. by apply elem_of_nil in Ha. Qed.

Section NormalizeFacts.
Import PreProcess.
Variable x : list Q.
Hypothesis Hx : nonconstant x.

Local Abbreviation m := (np_mean x).
Local Abbreviation v := (np_var x).
Local Abbreviation n := (inject_Z (Z.of_nat (length x))).

(** Mean and variance of an affine image of [x]. *)
Lemma mean_affine (y : list Q) (a b : Q) :
  Forall2 (fun w t => w == a * (t - m) + b) y x -> np_mean y == b.
Proof.
  intros Hy. pose proof (nonconstant_nonempty x Hx) as Hne.
  pose proof (inject_length_nonzero x Hne) as Hn.
  unfold np_mean at 1. unfold Qmean.
  rewrite (Forall2_length _ _ _ Hy).
  rewrite (Qsum_rel (fun t => a * (t - m) + b) y x Hy).
  assert (Hsum : Qsum (map (fun t => a * (t - m) + b) x)
                 == Qsum (map (fun t => a * t + (b - a * m)) x)).
  { apply Qsum_rel, Forall2_fmap_l, Forall_Forall2_diag, Forall_forall.
    intros t _. cbn. ring. }
  rewrite Hsum, Qsum_linear, (Qsum_mean x Hne). unfold np_mean. by field.
Qed.

Lemma var_affine (y : list Q) (a b : Q) :
  Forall2 (fun w t => w == a * (t - m) + b) y x -> np_var y == a * a * v.
Proof.
  intros Hy. pose proof (nonconstant_nonempty x Hx) as Hne.
  pose proof (inject_length_nonzero x Hne) as Hn.
  pose proof (mean_affine y a b Hy) as Hm.
  unfold np_var at 1. unfold Qmean at 1.
  rewrite length_map, (Forall2_length _ _ _ Hy).
  rewrite (Qsum_rel (fun t => a * a * ((t - m) * (t - m))) _ x).
  - rewrite Qsum_scale_l. unfold np_var, Qmean. rewrite length_map.
    by field.
  - apply Forall2_fmap_l. eapply Forall2_impl; [exact Hy|].
    intros w t Hw. cbn. rewrite Hw, Hm. ring.
Qed.

(** One pass on an affine image of [x] gives the centred [x] times the
    inverse of [a * var x]. *)
Lemma normalize_step_affine (y : list Q) (a b a' : Q) :
  ¬ a == 0 -> a' == / (a * v) ->
  Forall2 (fun w t => w == a * (t - m) + b) y x ->
  ∃ y', normalize_step y = Some y' ∧
        Forall2 (fun w t => w == a' * (t - m) + 0) y' x.
Proof.
  intros Ha Ha' Hy. pose proof (np_var_nonzero x Hx) as Hv.
  pose proof (mean_affine y a b Hy) as Hm.
  pose proof (var_affine y a b Hy) as Hvar.
  unfold normalize_step.
  destruct (Qeq_bool (np_var y) 0) eqn:Hb.
  { apply Qeq_bool_iff in Hb. rewrite Hvar in Hb.
    apply Qmult_integral in Hb as [Hb|Hb]; [|done].
    apply Qmult_integral in Hb as [Hb|Hb]; done. }
  eexists. split; [done|].
  apply Forall2_fmap_l. eapply Forall2_impl; [exact Hy|].
  intros w t Hw. cbn. rewrite Hw, Hm, Hvar, Ha'. by field.
Qed.

(** Two passes on the centred [x] give it back. *)
Lemma normalize_two_passes (y : list Q) (b : Q) :
  Forall2 (fun w t => w == 1 * (t - m) + b) y x ->
  ∃ y1 y2, normalize_step y = Some y1 ∧ normalize_step y1 = Some y2 ∧
    Forall2 (fun w t => w == / v * (t - m) + 0) y1 x ∧
    Forall2 (fun w t => w == 1 * (t - m) + 0) y2 x.
Proof.
  intros Hy. pose proof (np_var_nonzero x Hx) as Hv.
  destruct (normalize_step_affine y 1 b (/ v)) as (y1 & H1 & Hy1);
    [lra| by rewrite Qmult_1_l |done|].
  destruct (normalize_step_affine y1 (/ v) 0 1) as (y2 & H2 & Hy2);
    [|by field|done|].
  { intros Hinv. apply Hv. rewrite <- (Qinv_involutive v), Hinv. reflexivity. }
  by exists y1, y2.
Qed.

(** Past the first pass the loop alternates between two images: an odd
    number of passes gives the centred image over the variance, an even
    number the centred image. *)
Lemma normalize_loop_parity (k : nat) : forall (y : list Q) (b : Q),
  Forall2 (fun w t => w == 1 * (t - m) + b) y x ->
  ∃ odd even,
    normalize_loop (2 * k + 1)%nat y = Some odd ∧
    normalize_loop (2 * k + 2)%nat y = Some even ∧
    Forall2 (fun w t => w == (t - m) / v) odd x ∧
    Forall2 (fun w t => w == t - m) even x.
Proof.
  pose proof (np_var_nonzero x Hx) as Hv.
  induction k as [|k IH]; intros y b Hy;
    destruct (normalize_two_passes y b Hy) as (y1 & y2 & H1 & H2 & Hy1 & Hy2).
  - exists y1, y2. cbn [Nat.mul Nat.add normalize_loop]. rewrite H1.
    cbn [mbind option_bind]. rewrite H2. split_and!; try done.
    + eapply Forall2_impl; [exact Hy1|]. intros w t ->. by field.
    + eapply Forall2_impl; [exact Hy2|]. intros w t ->. ring.
  - destruct (IH y2 0 Hy2) as (odd & even & Ho & He & Hodd & Heven).
    exists odd, even.
    replace (2 * S k + 1)%nat with (S (S (2 * k + 1))) by lia.
    replace (2 * S k + 2)%nat with (S (S (2 * k + 2))) by lia.
    cbn [normalize_loop]. rewrite H1. cbn [mbind option_bind]. rewrite H2.
    cbn [mbind option_bind]. done.
Qed.
End NormalizeFacts.

Local Close Scope Q_scope.

Section CentringFacts.
Import PreProcess.
Local Open Scope Q_scope.

Lemma normalize_step_constant (x : list Q) :
  ¬ nonconstant x -> normalize_step x = None.
Proof.
  intros Hc. destruct x as [|t0 x']; [reflexivity|].
  set (x := t0 :: x') in *.
  assert (Hall : Forall (fun t => t == t0) x).
  { apply Forall_forall. intros t Ht.
    destruct (Qeq_dec t t0) as [|Hne]; [done|]. exfalso. apply Hc.
    exists t, t0. split_and!; [done|by left|done]. }
  assert (Hn : ¬ inject_Z (Z.of_nat (length x)) == 0)
    by (by apply inject_length_nonzero).
  assert (Hm : np_mean x == t0).
  { unfold np_mean, Qmean.
    rewrite (Qsum_rel (fun t => 0 * t + t0) x x), Qsum_linear; [by field|].
    apply Forall_Forall2_diag. eapply Forall_impl; [exact Hall|].
    intros t ->. cbn. ring. }
  assert (Hv : np_var x == 0).
  { unfold np_var, Qmean. rewrite Qsum_all_zero; [by field; rewrite length_map|].
    apply Forall_fmap. eapply Forall_impl; [exact Hall|].
    intros t Ht. cbn. rewrite Ht, Hm. ring. }
  unfold normalize_step. apply Qeq_bool_iff in Hv. by rewrite Hv.
Qed.
End CentringFacts.




(** ** More on dictionaries *)

Section DictMore.
Context {K V : Type} `{EqDecision K}.
Implicit Types (d : dict K V).

Lemma keys_set_order k v d :
  PyDict.keys (PyDict.set k v d)
  = if decide (k ∈ PyDict.keys d) then PyDict.keys d
    else PyDict.keys d ++ [k].
Proof.
  unfold PyDict.keys. induction d as [|[k' v'] d IH]; cbn.
  - rewrite decide_False; [done|]. by intros ?%elem_of_nil.
  - destruct (decide (k = k')) as [->|Hne]; cbn.
    + rewrite decide_True; [done|]. by left.
    + rewrite IH. destruct (decide (k ∈ map fst d)) as [Hin|Hnin].
      * rewrite decide_True; [done|]. by right.
      * rewrite decide_False; [done|]. by intros [?|?]%elem_of_cons.
Qed.

Lemma wf_set k v d : PyDict.wf d -> PyDict.wf (PyDict.set k v d).
Proof.
  unfold PyDict.wf. rewrite keys_set_order. intros Hwf.
  destruct (decide (k ∈ PyDict.keys d)) as [|Hnin]; [done|].
  apply NoDup_app. split_and!; [done| |apply NoDup_singleton].
  intros x Hx ->%list_elem_of_singleton. done.
Qed.
End DictMore.

(** ** More on [load_spectrogram_h5s] *)

Lemma last_occurrence {A B : Type} `{EqDecision B} (g : A -> B) (b : B)
    (ws : list A) :
  b ∈ map g ws ->
  ∃ pre w post, ws = pre ++ w :: post ∧ g w = b ∧ b ∉ map g post.
Proof.
  induction ws as [|w ws IH]; cbn; [by intros ?%elem_of_nil|].
  intros Hin. destruct (decide (b ∈ map g ws)) as [Hlater|Hnot].
  - destruct (IH Hlater) as (pre & w' & post & -> & Hw & Hpost).
    by exists (w :: pre), w', post.
  - apply elem_of_cons in Hin as [->|Hin]; [|done].
    by exists [], w, ws.
Qed.

Section LoaderMore.
Import Loader.
Variable py_int : string -> option Z.
Variable listdir : string -> option (list string).
Variable h5 : string -> string -> h5_file.

Local Abbreviation state := (dict string (dict Z ndarray) * list message)%type.
Local Abbreviation file_step :=
  (fun (d : dict string (dict Z ndarray)) (w : string * string) =>
     (load_file py_int h5 w.1 w.2 (d, [])).1).
Local Abbreviation names ws :=
  (map (fun w : string * string => strip3 w.2) ws).

Lemma read_items_wf mod_name items : forall d : dict string (dict Z ndarray),
  PyDict.wf d -> PyDict.wf (read_items py_int mod_name items d).1.
Proof.
  induction items as [|[key value] items IH]; intros d Hwf; cbn; [done|].
  destruct (py_int key); [|done]. destruct value; [|done].
  destruct (PyDict.get mod_name d); [|done]. by apply IH, wf_set.
Qed.

Lemma file_step_wf d w : PyDict.wf d -> PyDict.wf (file_step d w).
Proof.
  intros Hwf. unfold load_file. cbn [fst snd].
  destruct (h5 w.1 w.2) as [|items]; cbn [fst]; [by apply wf_set|].
  pose proof (read_items_wf (strip3 w.2) items
                (PyDict.set (strip3 w.2) [] d) (wf_set _ _ _ Hwf)) as H.
  by destruct (read_items _ _ _ _).
Qed.

Lemma steps_wf ws : forall d, PyDict.wf d -> PyDict.wf (foldl file_step d ws).
Proof.
  induction ws as [|w ws IH]; intros d Hwf; cbn [foldl]; [done|].
  by apply IH, file_step_wf.
Qed.

Lemma stored_items_wf items : forall inner : dict Z ndarray,
  PyDict.wf inner -> PyDict.wf (stored_items py_int items inner).1.
Proof.
  induction items as [|[key value] items IH]; intros inner Hwf; cbn; [done|].
  destruct (py_int key); [|done]. destruct value; [|done].
  by apply IH, wf_set.
Qed.

Lemma stored_wf f : PyDict.wf (stored py_int f).1.
Proof.
  destruct f as [|items]; cbn; [apply NoDup_nil_2|].
  apply stored_items_wf, NoDup_nil_2.
Qed.

Lemma steps_keys name ws : forall d,
  is_Some (PyDict.get name (foldl file_step d ws))
  <-> is_Some (PyDict.get name d) ∨ name ∈ names ws.
Proof.
  induction ws as [|w ws IH]; intros d; cbn [foldl map].
  - split; [by left|]. intros [?|?%elem_of_nil]; done.
  - rewrite IH, elem_of_cons.
    destruct (file_step_spec py_int h5 d w) as [H1 H2].
    destruct (decide (name = strip3 w.2)) as [->|Hne].
    + rewrite H1. split; [intros _; right; by left | intros _; left; by eexists].
    + rewrite (H2 _ Hne). split; [intros [?|?]; auto | intros [?|[?|?]]; auto].
      done.
Qed.

Lemma steps_last pre w post d :
  strip3 w.2 ∉ names post ->
  PyDict.get (strip3 w.2) (foldl file_step d (pre ++ w :: post))
  = Some (stored py_int (h5 w.1 w.2)).1.
Proof.
  intros Hpost. rewrite foldl_app. cbn [foldl].
  rewrite (steps_keep_entry py_int h5) by done.
  apply (file_step_spec py_int h5).
Qed.

(** The lines printed, in closed form. *)
Lemma load_files_log mod_type files : forall st : state,
  (foldl (fun st file => load_file py_int h5 mod_type file st) st files).2
  = st.2 ++ (f ← files;
             if (stored py_int (h5 mod_type f)).2 then []
             else [FailedToLoad mod_type f]).
Proof.
  induction files as [|f files IH]; intros st; cbn [foldl mbind list_bind].
  - by rewrite app_nil_r.
  - rewrite IH.
    destruct (load_file_spec py_int h5 mod_type f st) as (_ & _ & ->).
    by rewrite <- app_assoc.
Qed.

Lemma load_log mod_types : forall st : state,
  (foldl (fun st mod_type => load_mod_type py_int listdir h5 mod_type st)
     st mod_types).2
  = st.2 ++ (mt ← mod_types;
             match listdir mt with
             | None => [MissingFolder mt]
             | Some files =>
                 LoadingFrom mt
                 :: (f ← filter (fun f => ends_with_h5 f = true) files;
                     if (stored py_int (h5 mt f)).2 then []
                     else [FailedToLoad mt f])
             end).
Proof.
  induction mod_types as [|mt mts IH]; intros st;
    cbn [foldl mbind list_bind].
  - by rewrite app_nil_r.
  - rewrite IH. unfold load_mod_type. destruct (listdir mt) as [files|].
    + rewrite load_files_log. cbn [fst snd]. by rewrite <- !app_assoc.
    + cbn [fst snd]. by rewrite <- !app_assoc.
Qed.
End LoaderMore.

(** X20: the dictionary returned by [load_spectrogram_h5s] has one entry
    per name of a [.h5] file found (the file name without its last three
    characters) and no other; when several files share a name, also across
    folders, the entry holds what the last of them stored, and nothing of
    the earlier ones; no key occurs twice, in the dictionary or in an
    entry. *)
Theorem load_keeps_last_file_per_name
    (py_int : string -> option Z) (listdir : string -> option (list string))
    (h5 : string -> string -> Loader.h5_file) (mod_types : list string) :
  let res := (Loader.load_spectrogram_h5s py_int listdir h5 mod_types).1 in
  let names ws := map (fun w : string * string => Loader.strip3 w.2) ws in
  PyDict.wf res ∧
  (∀ name, name ∈ PyDict.keys res
           <-> name ∈ names (Loader.worklist listdir mod_types)) ∧
  (∀ pre mt f post,
     Loader.worklist listdir mod_types = pre ++ (mt, f) :: post ->
     Loader.strip3 f ∉ names post ->
     PyDict.get (Loader.strip3 f) res
     = Some (Loader.stored py_int (h5 mt f)).1) ∧
  (∀ name sp, PyDict.get name res = Some sp -> PyDict.wf sp).
Proof.
  cbn zeta. unfold Loader.load_spectrogram_h5s.
  rewrite load_dict_worklist. cbn [fst].
  set (ws := Loader.worklist listdir mod_types).
  assert (Hkeys : ∀ name,
            name ∈ PyDict.keys
                     (foldl (fun d w =>
                        (Loader.load_file py_int h5 w.1 w.2 (d, [])).1) [] ws)
            <-> name ∈ map (fun w : string * string => Loader.strip3 w.2) ws).
  { intros name. rewrite <- get_is_Some, steps_keys. cbn [PyDict.get].
    split; [intros [[? ?]|?]; done | by right]. }
  assert (Hlast : ∀ pre mt f post,
            ws = pre ++ (mt, f) :: post ->
            Loader.strip3 f
              ∉ map (fun w : string * string => Loader.strip3 w.2) post ->
            PyDict.get (Loader.strip3 f)
              (foldl (fun d w =>
                 (Loader.load_file py_int h5 w.1 w.2 (d, [])).1) [] ws)
            = Some (Loader.stored py_int (h5 mt f)).1).
  { intros pre mt f post -> Hpost.
    by apply (steps_last py_int h5 pre (mt, f) post). }
  split_and!; [|done|done|].
  - apply steps_wf, NoDup_nil_2.
  - intros name sp Hget.
    assert (Hin : name ∈ map (fun w : string * string => Loader.strip3 w.2) ws).
    { apply Hkeys, get_is_Some. by eexists. }
    apply last_occurrence in Hin
      as (pre & [mt f] & post & Hws & Hname & Hpost).
    cbn [snd] in Hname. subst name.
    rewrite (Hlast pre mt f post Hws Hpost) in Hget.
    injection Hget as <-. apply stored_wf.
Qed.

Lemma load_keeps_last_file_per_name_witness :
  let res :=
    (Loader.load_spectrogram_h5s Samples.decimal_int Samples.listdir
       Samples.h5 ["FM"; "PM"]%string).1 in
  PyDict.wf res ∧
  PyDict.get "bpsk"%string res = Some [(0%Z, Samples.spectrogram)].
Proof.
  destruct (load_keeps_last_file_per_name Samples.decimal_int
              Samples.listdir Samples.h5 ["FM"; "PM"]%string)
    as (Hwf & _ & Hlast & _).
  cbn zeta. split; [exact Hwf|].
  apply (Hlast [("FM", "lfm_up.h5")]%string "FM"%string "bpsk.h5"%string []);
    [reflexivity|apply not_elem_of_nil].
Defined.



(** ** More on [convert_spectrogram_dict_to_xy] *)

Lemma np_array_None (xs : list ndarray) :
  np_array xs = None
  <-> ∃ a b, a ∈ xs ∧ b ∈ xs ∧ nd_shape a ≠ nd_shape b.
Proof.
  destruct xs as [|x rest]; cbn.
  - split; [done|]. by intros (a & _ & ?%elem_of_nil & _).
  - destruct (forallb _ rest) eqn:Hall.
    + split; [done|]. intros (a & b & Ha & Hb & Hab). exfalso.
      rewrite forallb_forall in Hall.
      assert (Hx : ∀ r, r ∈ x :: rest -> nd_shape r = nd_shape x).
      { intros r [->|Hr]%elem_of_cons; [done|].
        apply list_elem_of_In, Hall in Hr. by apply bool_decide_eq_true in Hr. }
      apply Hab. by rewrite (Hx a), (Hx b).
    + split; [intros _|done].
      apply not_true_iff_false in Hall. rewrite forallb_forall in Hall.
      destruct (decide (Forall (fun r => nd_shape r = nd_shape x) rest))
        as [Hf|Hf].
      * exfalso. apply Hall. intros r Hr. apply bool_decide_eq_true.
        rewrite Forall_forall in Hf. by apply Hf, list_elem_of_In.
      * apply not_Forall_Exists in Hf; [|apply _].
        apply Exists_exists in Hf as (r & Hr & Hne).
        exists r, x. split_and!; [by right|by left|done].
Qed.

Section ConvertMore.
Import Convert.
Variable d : dict string (dict Z ndarray).
Hypothesis Hwf : PyDict.wf d.
Hypothesis Hinner : ∀ label sp, (label, sp) ∈ d -> PyDict.wf sp.

(** Every stored spectrogram is among the values collected. *)
Lemma stored_in_vals (vals : list ndarray) :
  Forall2 (fun p v => ∃ sp, (p.1, sp) ∈ d ∧ PyDict.get p.2 sp = Some v)
    (pairs d) vals ->
  ∀ label sp k v, (label, sp) ∈ d -> (k, v) ∈ sp -> v ∈ vals.
Proof.
  intros Hvals label sp k v Hsp Hv.
  assert (Hp : (label, k) ∈ pairs d).
  { unfold pairs. apply list_elem_of_bind. exists (label, sp).
    split; [|done]. apply list_elem_of_fmap. exists k. split; [done|].
    apply sorted_keys_elem_of, list_elem_of_fmap. by exists (k, v). }
  apply list_elem_of_lookup in Hp as [i Hi].
  destruct (Forall2_lookup_l _ _ _ _ _ Hvals Hi)
    as (v' & Hv' & sp' & Hsp' & Hget).
  cbn [fst snd] in *.
  assert (sp' = sp) as ->.
  { apply (get_wf _ _ _ Hwf) in Hsp. apply (get_wf _ _ _ Hwf) in Hsp'.
    congruence. }
  apply (get_wf _ _ _ (Hinner _ _ Hsp)) in Hv.
  assert (v' = v) as -> by congruence.
  by eapply list_elem_of_lookup_2.
Qed.

(** Every value collected is a stored spectrogram. *)
Lemma vals_stored (vals : list ndarray) :
  Forall2 (fun p v => ∃ sp, (p.1, sp) ∈ d ∧ PyDict.get p.2 sp = Some v)
    (pairs d) vals ->
  ∀ v, v ∈ vals -> ∃ label sp k, (label, sp) ∈ d ∧ (k, v) ∈ sp.
Proof.
  intros Hvals v Hv. apply list_elem_of_lookup in Hv as [i Hi].
  destruct (Forall2_lookup_r _ _ _ _ _ Hvals Hi)
    as ([label k] & _ & sp & Hsp & Hget).
  exists label, sp, k. split; [done|]. by apply get_elem_of.
Qed.
End ConvertMore.

(** X22: [convert_spectrogram_dict_to_xy] never raises [KeyError]; it
    raises (the [ValueError] of [np.array]) exactly when two spectrograms of
    the dictionary, of the same or of different labels, have different
    shapes. *)
Theorem convert_raises_iff_shapes_differ
    (data_dict : dict string (dict Z ndarray)) :
  PyDict.wf data_dict ->
  (∀ label sp, (label, sp) ∈ data_dict -> PyDict.wf sp) ->
  is_Some (Convert.items_loop data_dict ([], [])) ∧
  (Convert.convert_spectrogram_dict_to_xy data_dict = None
   <-> ∃ l1 sp1 k1 v1 l2 sp2 k2 v2,
         (l1, sp1) ∈ data_dict ∧ (k1, v1) ∈ sp1 ∧
         (l2, sp2) ∈ data_dict ∧ (k2, v2) ∈ sp2 ∧
         nd_shape v1 ≠ nd_shape v2).
Proof.
  intros Hwf Hinner.
  destruct (items_loop_spec data_dict ([], [])) as (vals & Hloop & Hvals).
  cbn [fst snd app] in Hloop. split; [by rewrite Hloop|].
  unfold Convert.convert_spectrogram_dict_to_xy. rewrite Hloop.
  cbn [mbind option_bind fst snd].
  transitivity (np_array vals = None).
  { destruct (np_array vals); [split; [done|done] | done]. }
  rewrite np_array_None. split.
  - intros (a & b & Ha & Hb & Hab).
    destruct (vals_stored data_dict vals Hvals a Ha) as (l1 & sp1 & k1 & ? & ?).
    destruct (vals_stored data_dict vals Hvals b Hb) as (l2 & sp2 & k2 & ? & ?).
    by exists l1, sp1, k1, a, l2, sp2, k2, b.
  - intros (l1 & sp1 & k1 & v1 & l2 & sp2 & k2 & v2 & H1 & Hv1 & H2 & Hv2 & Hne).
    exists v1, v2. split_and!; [| |done].
    + by apply (stored_in_vals data_dict Hwf Hinner vals Hvals l1 sp1 k1).
    + by apply (stored_in_vals data_dict Hwf Hinner vals Hvals l2 sp2 k2).
Qed.


Lemma convert_raises_iff_shapes_differ_witness :
  Convert.convert_spectrogram_dict_to_xy Samples5.mixed_dict = None.
Proof.
  apply convert_raises_iff_shapes_differ.
  - unfold PyDict.wf. cbn. by apply (bool_decide_unpack _).
  - intros label sp Hin. unfold PyDict.wf.
    repeat (apply elem_of_cons in Hin as [[= -> ->]|Hin];
            [by apply (bool_decide_unpack _)|]).
    by apply elem_of_nil in Hin.
  - exists "lfm_up"%string, [(0%Z, Samples.spectrogram)], 0%Z,
      Samples.spectrogram, "bpsk"%string, [(0%Z, Samples5.wide)], 0%Z,
      Samples5.wide.
    split_and!; [by left|by left|right; by left|by left|discriminate].
Defined.


(** ** [load_spectrogram_h5s] followed by [convert_spectrogram_dict_to_xy] *)

Section LoadThenConvert.
Import Loader.
Variable py_int : string -> option Z.
Variable listdir : string -> option (list string).
Variable h5 : string -> string -> h5_file.

Lemma set_elem_of {K V : Type} `{EqDecision K} (k k' : K) (v v' : V)
    (d : dict K V) :
  (k', v') ∈ PyDict.set k v d -> (k', v') = (k, v) ∨ (k', v') ∈ d.
Proof.
  induction d as [|[k0 v0] d IH]; cbn.
  - intros ?%list_elem_of_singleton. by left.
  - destruct (decide (k = k0)) as [->|Hne].
    + intros [->|?]%elem_of_cons; [by left|]. right. by right.
    + intros [->|Hin]%elem_of_cons; [right; by left|].
      destruct (IH Hin) as [?|?]; [by left|]. right. by right.
Qed.

Lemma stored_items_from items : forall (inner : dict Z ndarray) k v,
  (k, v) ∈ (stored_items py_int items inner).1 ->
  (k, v) ∈ inner ∨ ∃ key, (key, Some v) ∈ items.
Proof.
  induction items as [|[key value] items IH]; intros inner k v; cbn;
    [by left|].
  destruct (py_int key) as [idx|]; [|by left].
  destruct value as [arr|]; [|by left].
  intros [Hin|(key' & Hin)]%IH.
  - apply set_elem_of in Hin as [[= -> ->]|Hin]; [|by left].
    right. exists key. by left.
  - right. exists key'. by right.
Qed.

(** Where an entry of the returned dictionary comes from. *)
Lemma load_entry_origin (mod_types : list string) name sp :
  PyDict.get name (load_spectrogram_h5s py_int listdir h5 mod_types).1
  = Some sp ->
  ∃ mt f, (mt, f) ∈ worklist listdir mod_types ∧ strip3 f = name ∧
          sp = (stored py_int (h5 mt f)).1.
Proof.
  unfold load_spectrogram_h5s. rewrite load_dict_worklist. cbn [fst].
  set (ws := worklist listdir mod_types). intros Hget.
  assert (Hin : name ∈ map (fun w : string * string => strip3 w.2) ws).
  { assert (Hs : is_Some (PyDict.get name
                   (foldl (fun d w => (load_file py_int h5 w.1 w.2 (d, [])).1)
                      [] ws))) by (by eexists).
    apply steps_keys in Hs as [[? ?]|?]; done. }
  apply last_occurrence in Hin
    as (pre & [mt f] & post & Hws & Hname & Hpost).
  cbn [snd] in Hname. subst name. exists mt, f.
  split; [rewrite Hws; apply elem_of_app; right; by left|]. split; [done|].
  pose proof (steps_last py_int h5 pre (mt, f) post [] Hpost) as Hlast.
  cbn [fst snd] in Hlast. rewrite Hws in Hget. congruence.
Qed.

Lemma load_wf (mod_types : list string) :
  PyDict.wf (load_spectrogram_h5s py_int listdir h5 mod_types).1.
Proof.
  unfold load_spectrogram_h5s. rewrite load_dict_worklist.
  apply steps_wf, NoDup_nil_2.
Qed.
End LoadThenConvert.

(** X23: when all the spectrograms that the [.h5] files hold have one
    shape, [convert_spectrogram_dict_to_xy] accepts the dictionary that
    [load_spectrogram_h5s] returns, whether or not some loads failed: [X]
    and [y] have the same length, every label of [y] is the name of a file
    found, and every element of [X] was read from one of the files. *)
Theorem convert_after_load
    (py_int : string -> option Z) (listdir : string -> option (list string))
    (h5 : string -> string -> Loader.h5_file) (mod_types : list string)
    (shape : list nat) :
  (∀ mt f items key arr,
     (mt, f) ∈ Loader.worklist listdir mod_types ->
     h5 mt f = Loader.Readable items -> (key, Some arr) ∈ items ->
     nd_shape arr = shape) ->
  ∃ X y,
    Convert.convert_spectrogram_dict_to_xy
      (Loader.load_spectrogram_h5s py_int listdir h5 mod_types).1
    = Some (X, y) ∧
    length X = length y ∧
    (∀ label, label ∈ y ->
       ∃ mt f, (mt, f) ∈ Loader.worklist listdir mod_types
               ∧ Loader.strip3 f = label) ∧
    (∀ x, x ∈ X ->
       ∃ mt f items key,
         (mt, f) ∈ Loader.worklist listdir mod_types ∧
         h5 mt f = Loader.Readable items ∧ (key, Some x) ∈ items).
Proof.
  intros Hshape.
  set (d := (Loader.load_spectrogram_h5s py_int listdir h5 mod_types).1).
  pose proof (load_wf py_int listdir h5 mod_types) as Hwf. fold d in Hwf.
  destruct (items_loop_spec d ([], [])) as (vals & Hloop & Hvals).
  cbn [fst snd app] in Hloop.
  assert (Horigin : ∀ x, x ∈ vals ->
            ∃ mt f items key,
              (mt, f) ∈ Loader.worklist listdir mod_types ∧
              h5 mt f = Loader.Readable items ∧ (key, Some x) ∈ items).
  { intros x Hx.
    destruct (vals_stored d vals Hvals x Hx) as (label & sp & k & Hsp & Hk).
    apply (get_wf _ _ _ Hwf) in Hsp.
    apply load_entry_origin in Hsp as (mt & f & Hin & _ & ->).
    exists mt, f. unfold Loader.stored in Hk.
    destruct (h5 mt f) as [|items] eqn:Hf; [by apply elem_of_nil in Hk|].
    apply stored_items_from in Hk as [Hk|(key & Hkey)];
      [by apply elem_of_nil in Hk|].
    by exists items, key. }
  assert (Hnp : np_array vals = Some vals).
  { apply (np_array_same_shape _ shape), Forall_forall. intros x Hx.
    destruct (Horigin x Hx) as (mt & f & items & key & Hin & Hf & Hkey).
    by apply (Hshape mt f items key). }
  exists vals, (map fst (Convert.pairs d)).
  unfold Convert.convert_spectrogram_dict_to_xy. rewrite Hloop.
  cbn [mbind option_bind fst snd]. rewrite Hnp. cbn [mbind option_bind].
  split_and!; [done| |  |done].
  - by rewrite length_map, (Forall2_length _ _ _ Hvals).
  - intros label Hl. apply list_elem_of_fmap in Hl as (p & -> & Hp).
    apply pairs_label, get_is_Some in Hp as [sp Hsp].
    apply load_entry_origin in Hsp as (mt & f & Hin & Hname & _).
    by exists mt, f.
Qed.

Lemma convert_after_load_witness :
  ∃ X y,
    Convert.convert_spectrogram_dict_to_xy
      (Loader.load_spectrogram_h5s Samples.decimal_int Samples.listdir
         Samples5.h5 ["FM"; "PM"]%string).1
    = Some (X, y) ∧
    y = ["lfm_up"; "lfm_up"; "bpsk"; "bpsk"]%string.
Proof.
  destruct (convert_after_load Samples.decimal_int Samples.listdir
              Samples5.h5 ["FM"; "PM"]%string [1; 2])
    as (X & y & Hc & _).
  - intros mt f items key arr _ [= <-] Hin.
    repeat (apply elem_of_cons in Hin as [[= _ ->]|Hin]; [reflexivity|]).
    by apply elem_of_nil in Hin.
  - exists X, y. split; [exact Hc|].
    vm_compute in Hc. by injection Hc as _ <-.
Defined.


(** ** [pre_processing] of the LDC-Unet and CWD-TFA notebooks *)

Lemma mapM_defined {A B : Type} (f : A -> option B) (P : B -> Prop)
    (l : list A) :
  Forall (fun x => ∃ y, f x = Some y ∧ P y) l ->
  ∃ k, mapM f l = Some k ∧ Forall2 (fun x y => f x = Some y) l k ∧ Forall P k.
Proof.
  induction 1 as [|x l (y & Hy & HP) _ (k & Hk & Hall & HPk)].
  - by exists [].
  - exists (y :: k). cbn. rewrite Hy, Hk. cbn.
    split_and!; [done|by constructor|by constructor].
Qed.

Lemma to_gray_pixels (x : ndarray) (outer : list nat) (c : nat) :
  nd_shape x = outer ++ [c] -> 3 <= c ->
  length (nd_data x) = numel outer * c ->
  ∃ o, Gray.to_gray x = Some o ∧ nd_shape o = outer ∧
    length (nd_data o) = numel outer ∧
    ∀ i, i < numel outer ->
      ∃ R G B w,
        nd_data x !! (i * c) = Some R ∧
        nd_data x !! (i * c + 1) = Some G ∧
        nd_data x !! (i * c + 2) = Some B ∧
        nd_data o !! i = Some w ∧
        (w == (2989 # 10000) * R + (5870 # 10000) * G + (1140 # 10000) * B)%Q.
Proof.
  intros Hshape Hc Hlen. unfold Gray.to_gray.
  rewrite Hshape, rev_app_distr. cbn [rev app].
  destruct (Nat.ltb_spec c 3) as [|_]; [lia|]. rewrite rev_involutive.
  eexists. split; [reflexivity|]. cbn [nd_shape nd_data].
  split; [done|]. split.
  { by rewrite length_map, length_reshape, length_replicate. }
  intros i Hi. rewrite list_lookup_fmap.
  rewrite (sublist_lookup_reshape _ _ _ (numel outer)) by (done || lia).
  assert (Hin : i * c + c <= length (nd_data x)) by nia.
  rewrite sublist_lookup_Some by done. cbn [fmap option_fmap option_map].
  rewrite take_take, Nat.min_l by done.
  pose proof (length_drop (nd_data x) (i * c)) as Hd.
  pose proof (lookup_drop (nd_data x) (i * c)) as Hl.
  destruct (drop (i * c) (nd_data x)) as [|R [|G [|B rest]]] eqn:Hdrop;
    cbn [length] in Hd; try lia.
  exists R, G, B. eexists. split_and!.
  - rewrite <- (Nat.add_0_r (i * c)). by rewrite <- Hl.
  - by rewrite <- Hl.
  - by rewrite <- Hl.
  - reflexivity.
  - unfold Gray.dot, Gray.luminance, Qsum. cbn [firstn zip_with foldr]. rewrite take_0. cbn [zip_with foldr]. ring.
Qed.

(** X24: the CWD-TFA [pre_processing] resizes as the LDC-Unet one does and
    then drops the last axis: when the resized images have one shape with
    [c] entries along the last axis, it raises for no image at all and for
    [c < 3]; otherwise every output pixel is
    [0.2989 R + 0.5870 G + 0.1140 B] of the first three entries (further
    channels are ignored), so a pixel with [R = G = B] comes out at 0.9999
    of its value. *)
Theorem cwd_pre_processing_luminance
    (cv2_resize : ndarray -> nat * nat -> option ndarray)
    (images : list ndarray) (outer : list nat) (c : nat) :
  Forall (fun img => ∃ r, cv2_resize img (64, 64) = Some r ∧
                          nd_shape r = outer ++ [c] ∧
                          length (nd_data r) = numel outer * c) images ->
  ∃ resized,
    Gray.resize_all cv2_resize images = Some resized ∧
    Forall2 (fun img r => cv2_resize img (64, 64) = Some r) images resized ∧
    (images = [] ∨ c < 3 -> Gray.pre_processing cv2_resize images = None) ∧
    (images ≠ [] -> 3 <= c ->
     ∃ out,
       Gray.pre_processing cv2_resize images = Some out ∧
       Forall2 (fun r o =>
         nd_shape o = outer ∧ length (nd_data o) = numel outer ∧
         ∀ i, i < numel outer ->
           ∃ R G B w,
             nd_data r !! (i * c) = Some R ∧
             nd_data r !! (i * c + 1) = Some G ∧
             nd_data r !! (i * c + 2) = Some B ∧
             nd_data o !! i = Some w ∧
             (w == (2989 # 10000) * R + (5870 # 10000) * G
                   + (1140 # 10000) * B)%Q ∧
             ((R == G)%Q -> (G == B)%Q -> (w == (9999 # 10000) * R)%Q))
         resized out).
Proof.
  intros Himgs.
  destruct (mapM_defined (fun img => cv2_resize img (64, 64))
              (fun r => nd_shape r = outer ++ [c] ∧
                        length (nd_data r) = numel outer * c) images Himgs)
    as (resized & Hres & Hall & Hshapes).
  assert (Hnp : np_array resized = Some resized).
  { apply (np_array_same_shape _ (outer ++ [c])).
    eapply Forall_impl; [exact Hshapes|]. by intros r [? _]. }
  assert (Hall' : Gray.resize_all cv2_resize images = Some resized).
  { unfold Gray.resize_all. rewrite Hres. cbn [mbind option_bind]. done. }
  exists resized. split; [done|]. split; [done|].
  unfold Gray.pre_processing. rewrite Hall'. cbn [mbind option_bind]. split.
  - intros [->|Hc].
    + apply Forall2_nil_inv_l in Hall as ->. done.
    + destruct resized as [|r rs]; [done|].
      apply Forall_cons in Hshapes as [[Hr _] _].
      assert (Hg : Gray.to_gray r = None).
      { unfold Gray.to_gray. rewrite Hr, rev_app_distr. cbn [rev app].
        destruct (Nat.ltb_spec c 3) as [_|]; [done|lia]. }
      change (mapM Gray.to_gray (r :: rs))
        with (y ← Gray.to_gray r; k ← mapM Gray.to_gray rs; mret (y :: k)).
      by rewrite Hg.
  - intros Hne Hc.
    destruct (mapM_defined Gray.to_gray (fun _ => True) resized)
      as (out & Hout & Hgray & _).
    { eapply Forall_impl; [exact Hshapes|]. intros r [Hr Hlen].
      destruct (to_gray_pixels r outer c Hr Hc Hlen) as (o & Ho & _).
      by exists o. }
    exists out. split.
    { destruct resized as [|r rs]; [|done].
      apply Forall2_nil_inv_r in Hall. done. }
    clear Hall Hall' Hnp Hres Hout.
    induction Hgray as [|r o rs os Ho _ IH]; [constructor|].
    apply Forall_cons in Hshapes as [[Hr Hlen] Hrest].
    constructor; [|by apply IH].
    destruct (to_gray_pixels r outer c Hr Hc Hlen)
      as (o' & Ho' & Hs & Hl & Hpx).
    assert (o' = o) as -> by congruence.
    split; [done|]. split; [done|]. intros i Hi.
    destruct (Hpx i Hi) as (R & G & B & w & H0 & H1 & H2 & Hw & Heq).
    exists R, G, B, w. split_and!; try done.
    intros HRG HGB. rewrite Heq, <- HGB, <- HRG. ring.
Qed.

Lemma cwd_pre_processing_luminance_witness :
  ∃ out,
    Gray.pre_processing Samples6.keep [Samples6.rgba] = Some out ∧
    Forall2 (fun r o => nd_shape o = [1; 2]) [Samples6.rgba] out.
Proof.
  destruct (cwd_pre_processing_luminance Samples6.keep [Samples6.rgba]
              [1; 2] 4) as (resized & Hres & _ & _ & Hout).
  - repeat constructor. by exists Samples6.rgba.
  - destruct Hout as (out & Hout & Hpx); [done|lia|].
    exists out. split; [exact Hout|].
    vm_compute in Hres. injection Hres as <-.
    eapply Forall2_impl; [exact Hpx|]. by intros r o [? _].
Defined.

(** ** File names and dictionary keys *)

Lemma substring_all (s : string) : String.substring 0 (String.length s) s = s.
Proof. induction s as [|ch s IH]; cbn; [done|]. by rewrite IH. Qed.

Lemma substring_split (s : string) : forall n,
  n <= String.length s ->
  (String.substring 0 n s
   +:+ String.substring n (String.length s - n) s)%string = s.
Proof.
  induction s as [|ch s IH]; intros n Hn.
  - cbn in Hn. assert (n = 0) as -> by lia. done.
  - destruct n as [|n].
    + change (String.substring 0 (String.length (String ch s)) (String ch s)
              = String ch s).
      apply substring_all.
    + cbn in Hn.
      change (String ch (String.substring 0 n s
                         +:+ String.substring n (String.length s - n) s)
              = String ch s).
      rewrite IH by lia. done.
Qed.

Lemma strip3_suffix (f : string) :
  Loader.ends_with_h5 f = true -> f = (Loader.strip3 f +:+ ".h5")%string.
Proof.
  unfold Loader.ends_with_h5, Loader.strip3.
  intros [Hlen Hsuf]%andb_true_iff.
  apply Nat.leb_le in Hlen. apply bool_decide_eq_true in Hsuf.
  pose proof (substring_split f (String.length f - 3)) as H.
  replace (String.length f - (String.length f - 3)) with 3 in H by lia.
  rewrite Hsuf in H. symmetry. apply H. lia.
Qed.

(** X25: every key of the dictionary returned by [load_spectrogram_h5s]
    is the name, without its [.h5] ending, of a file listed in one of the
    folders asked for, and every listed file whose name ends in [.h5] gives
    such a key; no failure line is printed for a file whose name does not
    end in [.h5]. *)
Theorem load_keys_are_h5_file_names
    (py_int : string -> option Z) (listdir : string -> option (list string))
    (h5 : string -> string -> Loader.h5_file) (mod_types : list string) :
  let res := Loader.load_spectrogram_h5s py_int listdir h5 mod_types in
  (∀ name, name ∈ PyDict.keys res.1 ->
     ∃ mt files, mt ∈ mod_types ∧ listdir mt = Some files ∧
                 (name +:+ ".h5")%string ∈ files) ∧
  (∀ mt files f, mt ∈ mod_types -> listdir mt = Some files -> f ∈ files ->
     Loader.ends_with_h5 f = true ->
     Loader.strip3 f ∈ PyDict.keys res.1) ∧
  (∀ mt f, Loader.ends_with_h5 f = false ->
     Loader.FailedToLoad mt f ∉ res.2).
Proof.
  cbn zeta. split_and!.
  - intros name [sp Hsp]%get_is_Some.
    apply load_entry_origin in Hsp as (mt & f & Hin & <- & _).
    unfold Loader.worklist in Hin.
    apply list_elem_of_bind in Hin as (mt' & Hin & Hmt').
    destruct (listdir mt') as [files|] eqn:Hl; [|by apply elem_of_nil in Hin].
    apply list_elem_of_fmap in Hin as (f' & [= -> ->] & Hf').
    apply list_elem_of_filter in Hf' as [Hh5 Hf'].
    exists mt', files. split_and!; [done|done|].
    by rewrite <- strip3_suffix.
  - intros mt files f Hmt Hl Hf Hh5. apply get_is_Some.
    unfold Loader.load_spectrogram_h5s. rewrite load_dict_worklist.
    apply steps_keys. right. apply list_elem_of_fmap. exists (mt, f).
    split; [done|]. unfold Loader.worklist. apply list_elem_of_bind.
    exists mt. rewrite Hl. split; [|done].
    apply list_elem_of_fmap. exists f. split; [done|].
    by apply list_elem_of_filter.
  - intros mt f Hh5 Hin. unfold Loader.load_spectrogram_h5s in Hin.
    rewrite load_log in Hin. cbn [snd app] in Hin.
    apply list_elem_of_bind in Hin as (mt' & Hin & _).
    destruct (listdir mt') as [files|];
      [|by apply list_elem_of_singleton in Hin].
    apply elem_of_cons in Hin as [[=]|Hin].
    apply list_elem_of_bind in Hin as (f' & Hin & Hf').
    apply list_elem_of_filter in Hf' as [Hh5' _].
    destruct (Loader.stored py_int (h5 mt' f')).2;
      [by apply elem_of_nil in Hin|].
    apply list_elem_of_singleton in Hin as [= -> ->]. congruence.
Qed.

Lemma load_keys_are_h5_file_names_witness :
  PyDict.keys
    (Loader.load_spectrogram_h5s Samples.decimal_int Samples.listdir
       Samples.h5 ["FM"; "PM"]%string).1
  = ["lfm_up"; "bpsk"]%string
  ∧ "bpsk"%string
    ∈ PyDict.keys
        (Loader.load_spectrogram_h5s Samples.decimal_int Samples.listdir
           Samples.h5 ["FM"; "PM"]%string).1.
Proof.
  split; [reflexivity|].
  destruct (load_keys_are_h5_file_names Samples.decimal_int Samples.listdir
              Samples.h5 ["FM"; "PM"]%string) as (_ & Hkey & _).
  apply (Hkey "FM"%string ["lfm_up.h5"; "notes.txt"; "bpsk.h5"]%string
           "bpsk.h5"%string).
  - by left.
  - reflexivity.
  - right. right. by left.
  - reflexivity.
Defined.
